(** * godepgraph: the import-graph walker and its dot renderer

    A shallow embedding of the three variants of the program found in the
    repository:

    - [PathIds]: the variant whose node identifiers are import paths
      namespaced by the base path ([ns]);
    - [CounterIds]: the variant of [main.go] whose node identifiers are
      integers handed out by [getId], with [-b] a string flag;
    - [CounterNet]: the integer-identifier variant that also has the
      network subgraphs and the inferred base path.

    The three share [hasPrefixes], the loop over the imports at the end
    of [processPackage] and the shape of the output.

    Go strings are modelled as [string] (sequences of bytes).  On a
    string of ASCII bytes the library functions [strings.ToLower] and
    [strings.TrimSpace] are computed; on any other string they consult
    the Unicode tables of Go's library, which are not part of the
    program and are an argument ([Strs.Unicode]).  Go maps are [gmap]s;
    the order in which a [range] statement visits a map is not fixed by
    the language, so every run takes a [Schedule] that enumerates the
    entries of the map being ranged over.  The external collaborator
    [build.Import] is a function argument. *)

From Stdlib Require Import String Ascii List ZArith Lia Permutation DecimalString.
From stdpp Require Import base gmap strings list fin_maps sets.

Open Scope string_scope.
Open Scope list_scope.

(** ** Strings *)

Module Strs.

Definition quote : string := String (ascii_of_nat 34) EmptyString.
Definition newline : string := String (ascii_of_nat 10) EmptyString.

(** [strings.HasPrefix(s, prefix)] *)
Definition HasPrefix (s p : string) : bool := String.prefix p s.

(** [strings.Split(s, sep)] for a separator of one byte, the only kind
    the program uses.  The result is never empty. *)
Fixpoint Split (s : string) (sep : ascii) : list string :=
  match s with
  | EmptyString => [EmptyString]
  | String c rest =>
      if Ascii.eqb c sep then EmptyString :: Split rest sep
      else match Split rest sep with
           | [] => [String c EmptyString]
           | h :: t => String c h :: t
           end
  end.

(** [strings.Join(elems, sep)] *)
Definition Join (elems : list string) (sep : string) : string :=
  String.concat sep elems.

(** The string has no byte from [utf8.RuneSelf] (0x80) on. *)
Fixpoint isASCII (s : string) : bool :=
  match s with
  | EmptyString => true
  | String c rest => (nat_of_ascii c <? 128)%nat && isASCII rest
  end.

(** What [strings.ToLower] and [strings.TrimSpace] give on a string that
    is not ASCII.  They go by the case and white space tables of Go's
    [unicode] package, after decoding the string as UTF-8; the tables are
    the library's, not the program's, and differ between Go versions. *)
Record Unicode := mkUnicode {
  toLowerUnicode : string -> string;
  trimSpaceUnicode : string -> string
}.

Definition lower_ascii (c : ascii) : ascii :=
  let n := nat_of_ascii c in
  if (65 <=? n)%nat && (n <=? 90)%nat then ascii_of_nat (n + 32) else c.

(** [strings.ToLower] on an ASCII string: the letters A to Z become a
    to z. *)
Fixpoint toLowerASCII (s : string) : string :=
  match s with
  | EmptyString => EmptyString
  | String c rest => String (lower_ascii c) (toLowerASCII rest)
  end.

(** [strings.ToLower] *)
Definition ToLower (u : Unicode) (s : string) : string :=
  if isASCII s then toLowerASCII s else toLowerUnicode u s.

Definition isSpace (c : ascii) : bool :=
  let n := nat_of_ascii c in
  ((9 <=? n)%nat && (n <=? 13)%nat) || (n =? 32)%nat.

Fixpoint trimLeft (s : string) : string :=
  match s with
  | EmptyString => EmptyString
  | String c rest => if isSpace c then trimLeft rest else s
  end.

Fixpoint trimRight (s : string) : string :=
  match s with
  | EmptyString => EmptyString
  | String c rest =>
      match trimRight rest with
      | EmptyString => if isSpace c then EmptyString else String c EmptyString
      | r => String c r
      end
  end.

(** [strings.TrimSpace] on an ASCII string: tab, line feed, vertical
    tab, form feed, carriage return and space are cut off at both ends. *)
Definition trimSpaceASCII (s : string) : string := trimRight (trimLeft s).

(** [strings.TrimSpace] *)
Definition TrimSpace (u : Unicode) (s : string) : string :=
  if isASCII s then trimSpaceASCII s else trimSpaceUnicode u s.

Definition isEmpty (s : string) : bool :=
  match s with EmptyString => true | _ => false end.

(** [parts[len(parts)-1]] *)
Definition lastOf (parts : list string) : string := List.last parts EmptyString.

(** [parts[0:len(parts)-1]] *)
Definition dropLast (parts : list string) : list string := List.removelast parts.

End Strs.

(** ** Packages and the metadata provider *)

(** The fields of [build.Package] that the program reads. *)
Record Package := mkPackage {
  ImportPath : string;
  Goroot : bool;
  Imports : list string;
  CgoFiles : list string
}.

(** What [build.Import(path, srcDir, 0)] gives back: a package, or an
    error, kept as its message. *)
Inductive ImportResult :=
| ImportOk (pkg : Package)
| ImportErr (cause : string).

(** [build.Import] with its first two arguments. *)
Definition Provider := string -> string -> ImportResult.

(** [os.Getwd()] *)
Inductive GetwdResult :=
| GetwdOk (dir : string)
| GetwdErr (cause : string).

(** The command line flags as [flag.Parse] leaves them. *)
Record Flags := mkFlags {
  flag_s : bool;
  flag_p : string;
  flag_i : string;
  flag_n : string;
  flag_b : bool;
  flag_subgraph : bool;
  flag_network_subgraphs : bool
}.

(** The package level variables that stay fixed once [main] has read the
    flags. *)
Record Config := mkConfig {
  ignored : gmap string bool;
  ignoredPrefixes : list string;
  includedPackages : list string;
  ignoreStdlib : bool;
  filterByBasePath : bool;
  subgraph : bool;
  networkSubgraphs : bool
}.

(** Reading a [map[string]bool]: a missing key reads as [false]. *)
Definition isSet (m : gmap string bool) (k : string) : bool :=
  default false (m !! k).

(** [ignored = map[string]bool{"C": true}] *)
Definition ignored0 : gmap string bool := {[ "C" := true ]}.

Definition setAll (m : gmap string bool) (ks : list string) : gmap string bool :=
  foldl (fun acc p => <[p := true]> acc) m ks.

Fixpoint hasPrefixes (s : string) (prefixes : list string) : bool :=
  match prefixes with
  | [] => false
  | p :: rest => if Strs.HasPrefix s p then true else hasPrefixes s rest
  end.

Definition sanitizeCSV (u : Strs.Unicode) (csv : string) : list string :=
  List.map (fun v => Strs.ToLower u (Strs.TrimSpace u v)) (Strs.Split csv ","%char).

(** ** State, outcomes and output shared by the variants *)

(** The package level variables that change while the program runs.
    [imported] is not in the source: it lists the paths handed to
    [build.Import] so far, latest first. *)
Record State := mkState {
  pkgs : gmap string Package;
  basePath : string;
  imported : list string
}.

(** How a call of [processPackage] ends.  [OutOfFuel] is the model's own:
    the recursion was cut, and the state is the one reached. *)
Inductive Outcome :=
| Done (st : State)
| Failed (err : string) (st : State)
| OutOfFuel (st : State).

Definition stateOf (o : Outcome) : State :=
  match o with Done st | Failed _ st | OutOfFuel st => st end.

Definition returned (o : Outcome) : Prop :=
  match o with OutOfFuel _ => False | _ => True end.

(** [fmt.Errorf("failed to import %s: %s", pkgName, err)] *)
Definition importError (pkgName cause : string) : string :=
  "failed to import " +:+ pkgName +:+ ": " +:+ cause.

(** The loop over [pkg.Imports] at the end of [processPackage]; [rec] is
    the recursive call. *)
Fixpoint walkImports (rec : string -> State -> Outcome)
    (imps : list string) (st : State) : Outcome :=
  match imps with
  | [] => Done st
  | imp :: rest =>
      match pkgs st !! imp with
      | Some _ => walkImports rec rest st
      | None =>
          match rec imp st with
          | Done st' => walkImports rec rest st'
          | other => other
          end
      end
  end.

(** The base path that a package gives when none is set: the parent of
    its import path. *)
Definition parentPath (importPath : string) : string :=
  Strs.Join (Strs.dropLast (Strs.Split importPath "/"%char)) "/".

(** One call of a print function, over the type of node identifiers.
    [LSubgraphHead] stands for the four lines of [printSubgraphHead]. *)
Inductive Line (Id : Type) :=
| LDigraph
| LSubgraphHead (name : string)
| LNode (id : Id) (label color : string)
| LEdge (src dst : Id)
| LClose.

Arguments LDigraph {Id}.
Arguments LSubgraphHead {Id} name.
Arguments LNode {Id} id label color.
Arguments LEdge {Id} src dst.
Arguments LClose {Id}.

(** The identifiers a line mentions. *)
Definition lineIds {Id : Type} (l : Line Id) : list Id :=
  match l with
  | LNode id _ _ => [id]
  | LEdge src dst => [src; dst]
  | _ => []
  end.

Definition lineMap {Id Jd : Type} (f : Id -> Jd) (l : Line Id) : Line Jd :=
  match l with
  | LDigraph => LDigraph
  | LSubgraphHead name => LSubgraphHead name
  | LNode id label color => LNode (f id) label color
  | LEdge src dst => LEdge (f src) (f dst)
  | LClose => LClose
  end.

(** The text of a line; [show] prints an identifier. *)
Definition lineText {Id : Type} (show : Id -> string) (l : Line Id) : string :=
  match l with
  | LDigraph => "digraph godep {" +:+ Strs.newline
  | LSubgraphHead name =>
      "subgraph " +:+ Strs.quote +:+ "cluster" +:+ name +:+ Strs.quote
        +:+ " {" +:+ Strs.newline
        +:+ "style=filled;" +:+ Strs.newline
        +:+ "color=lightgrey;" +:+ Strs.newline
        +:+ "label=" +:+ Strs.quote +:+ name +:+ Strs.quote +:+ Strs.newline
  | LNode id label color =>
      show id +:+ " [label=" +:+ Strs.quote +:+ label
        +:+ Strs.quote +:+ " style=" +:+ Strs.quote +:+ "filled" +:+ Strs.quote
        +:+ " color=" +:+ Strs.quote +:+ color +:+ Strs.quote +:+ "];"
        +:+ Strs.newline
  | LEdge src dst => show src +:+ " -> " +:+ show dst +:+ ";" +:+ Strs.newline
  | LClose => "}" +:+ Strs.newline
  end.

(** The bytes on standard output. *)
Definition outputText {Id : Type} (show : Id -> string) (out : list (Line Id)) : string :=
  String.concat EmptyString (List.map (lineText show) out).

Definition println {Id : Type} (l : Line Id) (out : list (Line Id)) : list (Line Id) :=
  out ++ [l].

Definition printSubgraphHead {Id : Type} (name : string) (out : list (Line Id))
    : list (Line Id) :=
  out ++ [LSubgraphHead name].

(** What the process leaves behind: standard output, and the message of
    [log.Fatal] when it ended that way. *)
Record Process (Id : Type) := mkProcess {
  stdout : list (Line Id);
  fatal : option string
}.

Arguments mkProcess {Id} stdout fatal.
Arguments stdout {Id} p.
Arguments fatal {Id} p.

(** The order in which the [range] loops of [main] visit their maps; Go
    leaves it open, and it may differ from one run to the next. *)
Record Schedule (Id : Type) := mkSchedule {
  rangePkgs : gmap string Package -> list (string * Package);
  rangeNet : gmap string Id -> list (string * Id)
}.

Arguments mkSchedule {Id} rangePkgs rangeNet.
Arguments rangePkgs {Id} s m.
Arguments rangeNet {Id} s m.

Definition validSchedule {Id : Type} (s : Schedule Id) : Prop :=
  (forall m, rangePkgs s m ≡ₚ map_to_list m) /\
  (forall m, rangeNet s m ≡ₚ map_to_list m).

Definition nodeColor (cfg : Config) (pkg : Package) : string :=
  if Goroot pkg then "palegreen"
  else if (0 <? length (CgoFiles pkg))%nat then "darkgoldenrod1"
  else if hasPrefixes (ImportPath pkg) (includedPackages cfg) then "violet"
  else "paleturquoise".

(** The flag handling at the top of [main], in the two variants that
    clean the lists with [sanitizeCSV]. *)
Definition configure (u : Strs.Unicode) (f : Flags) : Config :=
  {| ignored := if Strs.isEmpty (flag_i f) then ignored0
                else setAll ignored0 (sanitizeCSV u (flag_i f));
     ignoredPrefixes := if Strs.isEmpty (flag_p f) then []
                        else sanitizeCSV u (flag_p f);
     includedPackages := if Strs.isEmpty (flag_n f) then []
                         else sanitizeCSV u (flag_n f);
     ignoreStdlib := flag_s f;
     filterByBasePath := flag_b f;
     subgraph := flag_subgraph f;
     networkSubgraphs := flag_network_subgraphs f |}.

Definition state0 : State :=
  {| pkgs := ∅; basePath := EmptyString; imported := [] |}.

(** ** The variant with path identifiers *)

Module PathIds.

Definition isNotOfBasepath (cfg : Config) (importPath basePath : string) : bool :=
  filterByBasePath cfg && negb (Strs.HasPrefix importPath basePath).

Definition isIgnored (cfg : Config) (basePath : string) (pkg : Package) : bool :=
  negb (hasPrefixes (ImportPath pkg) (includedPackages cfg)) &&
  (isSet (ignored cfg) (ImportPath pkg)
   || (Goroot pkg && ignoreStdlib cfg)
   || hasPrefixes (ImportPath pkg) (ignoredPrefixes cfg)
   || isNotOfBasepath cfg (ImportPath pkg) basePath).

Fixpoint processPackage (cfg : Config) (build_Import : Provider)
    (fuel : nat) (root pkgName : string) (st : State) : Outcome :=
  match fuel with
  | O => OutOfFuel st
  | S fuel' =>
      if isSet (ignored cfg) pkgName then Done st
      else
        let st1 := {| pkgs := pkgs st; basePath := basePath st;
                      imported := pkgName :: imported st |} in
        match build_Import pkgName root with
        | ImportErr cause => Failed (importError pkgName cause) st1
        | ImportOk pkg =>
            if isIgnored cfg (basePath st1) pkg then Done st1
            else
              let bp := if Strs.isEmpty (basePath st1)
                        then parentPath (ImportPath pkg)
                        else basePath st1 in
              let st2 := {| pkgs := <[ImportPath pkg := pkg]> (pkgs st1);
                            basePath := bp;
                            imported := imported st1 |} in
              if Goroot pkg then Done st2
              else walkImports (processPackage cfg build_Import fuel' root)
                     (Imports pkg) st2
        end
  end.

(** [fmt.Sprintf("%s:%s", basePath, name)] *)
Definition ns (basePath name : string) : string :=
  basePath +:+ ":" +:+ name.

Definition printNode (basePath name color : string) (out : list (Line string))
    : list (Line string) :=
  out ++ [LNode (ns basePath name) name color].

Definition printEdge (basePath source dest : string) (out : list (Line string))
    : list (Line string) :=
  out ++ [LEdge (ns basePath source) (ns basePath dest)].

(** Identifiers are written between double quotes. *)
Definition showId (id : string) : string := Strs.quote +:+ id +:+ Strs.quote.

(** The loop over [pkg.Imports] in [main]. *)
Fixpoint printImports (cfg : Config) (st : State) (pkgId : string)
    (imps : list string) (out : list (Line string)) : list (Line string) :=
  match imps with
  | [] => out
  | imp :: rest =>
      match pkgs st !! imp with
      | None => printImports cfg st pkgId rest out
      | Some impPkg =>
          if isIgnored cfg (basePath st) impPkg
          then printImports cfg st pkgId rest out
          else let impId := imp in
               printImports cfg st pkgId rest
                 (printEdge (basePath st) pkgId impId out)
      end
  end.

(** The body of the loop over [pkgs] in [main]: the output so far and
    [networkPackages] go in and come out. *)
Definition renderPackage (cfg : Config) (st : State)
    (acc : list (Line string) * gmap string string) (entry : string * Package)
    : list (Line string) * gmap string string :=
  let '(out, net) := acc in
  let '(pkgName, pkg) := entry in
  let pkgId := pkgName in
  if isIgnored cfg (basePath st) pkg then (out, net)
  else
    let out1 := printNode (basePath st) pkgName (nodeColor cfg pkg) out in
    let out2 := printImports cfg st pkgId (Imports pkg) out1 in
    if networkSubgraphs cfg
       && hasPrefixes (ImportPath pkg) (includedPackages cfg)
       && negb (Strs.HasPrefix (ImportPath pkg) (basePath st))
    then (out2, <[pkgName := pkgId]> net)
    else (out2, net).

Definition mainLoop (cfg : Config) (st : State)
    (order : list (string * Package)) (out : list (Line string))
    : list (Line string) * gmap string string :=
  foldl (renderPackage cfg st) (out, ∅) order.

(** The body of the loop over [networkPackages]. *)
Definition renderNetwork (st : State) (out : list (Line string))
    (entry : string * string) : list (Line string) :=
  let '(pkgName, pkgId) := entry in
  let name := Strs.lastOf (Strs.Split pkgName "/"%char) in
  let out1 := printSubgraphHead name out in
  let out2 := printNode (basePath st) name "paleturquoise" out1 in
  let out3 := println LClose out2 in
  printEdge (basePath st) pkgId name out3.

Definition networkLoop (st : State) (order : list (string * string))
    (out : list (Line string)) : list (Line string) :=
  foldl (renderNetwork st) out order.

(** [main] from [fmt.Println("digraph godep {")] on. *)
Definition render (cfg : Config) (st : State) (s : Schedule string)
    : list (Line string) :=
  let boxed := subgraph cfg && negb (Strs.isEmpty (basePath st)) in
  let out0 := println LDigraph [] in
  let out1 := if boxed then printSubgraphHead (basePath st) out0 else out0 in
  let '(out2, net) := mainLoop cfg st (rangePkgs s (pkgs st)) out1 in
  let out3 := if boxed then println LClose out2 else out2 in
  let out4 := networkLoop st (rangeNet s net) out3 in
  println LClose out4.

(** [main]; [None] when the model ran out of fuel. *)
Definition main (u : Strs.Unicode) (build_Import : Provider) (getwd : GetwdResult)
    (flags : Flags) (args : list string) (s : Schedule string) (fuel : nat)
    : option (Process string) :=
  match args with
  | [arg] =>
      let cfg := configure u flags in
      match getwd with
      | GetwdErr cause =>
          Some {| stdout := []; fatal := Some ("failed to get cwd: " +:+ cause) |}
      | GetwdOk cwd =>
          match processPackage cfg build_Import fuel cwd arg state0 with
          | OutOfFuel _ => None
          | Failed err _ => Some {| stdout := []; fatal := Some err |}
          | Done st => Some {| stdout := render cfg st s; fatal := None |}
          end
      end
  | _ => Some {| stdout := []; fatal := Some "need one package name to process" |}
  end.

End PathIds.

(** ** What the two variants with integer identifiers share *)

Module Counter.

(** Go's [int], taken at 64 bits: the value of [z] after wrap-around. *)
Definition wrapInt (z : Z) : Z := ((z + 2 ^ 63) mod 2 ^ 64 - 2 ^ 63)%Z.

(** [ids] and [nextId]. *)
Record Registry := mkRegistry {
  ids : gmap string Z;
  nextId : Z
}.

Definition registry0 : Registry := {| ids := ∅; nextId := 0 |}.

Definition getId (name : string) (g : Registry) : Z * Registry :=
  match ids g !! name with
  | Some id => (id, g)
  | None =>
      let id := nextId g in
      (id, {| ids := <[name := id]> (ids g);
              nextId := wrapInt (nextId g + 1) |})
  end.

Definition isNotOfBasepath (importPath basePath : string) : bool :=
  negb (Strs.isEmpty basePath) && negb (Strs.HasPrefix importPath basePath).

Definition isIgnored (cfg : Config) (basePath : string) (pkg : Package) : bool :=
  negb (hasPrefixes (ImportPath pkg) (includedPackages cfg)) &&
  (isSet (ignored cfg) (ImportPath pkg)
   || (Goroot pkg && ignoreStdlib cfg)
   || hasPrefixes (ImportPath pkg) (ignoredPrefixes cfg)
   || isNotOfBasepath (ImportPath pkg) basePath).

(** Identifiers are written with [%d]. *)
Definition showId (id : Z) : string := NilZero.string_of_int (Z.to_int id).

Definition printEdge (source dest : Z) (out : list (Line Z)) : list (Line Z) :=
  out ++ [LEdge source dest].

(** The loop over [pkg.Imports] in [main], the same in both variants. *)
Fixpoint printImports (cfg : Config) (st : State) (pkgId : Z)
    (imps : list string) (acc : Registry * list (Line Z))
    : Registry * list (Line Z) :=
  match imps with
  | [] => acc
  | imp :: rest =>
      match pkgs st !! imp with
      | None => printImports cfg st pkgId rest acc
      | Some impPkg =>
          if isIgnored cfg (basePath st) impPkg
          then printImports cfg st pkgId rest acc
          else let '(g, out) := acc in
               let '(impId, g1) := getId imp g in
               printImports cfg st pkgId rest (g1, printEdge pkgId impId out)
      end
  end.

End Counter.

(** ** The variant of [main.go]: integer identifiers, [-b] a string *)

Module CounterIds.
Import Counter.

Record Flags := mkFlags {
  flag_s : bool;
  flag_p : string;
  flag_i : string;
  flag_b : string;
  flag_n : string;
  flag_subgraph : bool;
  flag_network_subgraphs : bool
}.

(** The flag handling at the top of [main]: the lists are split and not
    cleaned.  [filterByBasePath] is not a variable of this variant and
    nothing here reads it. *)
Definition configure (f : Flags) : Config :=
  {| ignored := if Strs.isEmpty (flag_i f) then ignored0
                else setAll ignored0 (Strs.Split (flag_i f) ","%char);
     ignoredPrefixes := if Strs.isEmpty (flag_p f) then []
                        else Strs.Split (flag_p f) ","%char;
     includedPackages := if Strs.isEmpty (flag_n f) then []
                         else Strs.Split (flag_n f) ","%char;
     ignoreStdlib := flag_s f;
     filterByBasePath := false;
     subgraph := flag_subgraph f;
     networkSubgraphs := flag_network_subgraphs f |}.

(** [basePath] is the value of the flag [-b]. *)
Definition stateOfFlags (f : Flags) : State :=
  {| pkgs := ∅; basePath := flag_b f; imported := [] |}.

Fixpoint processPackage (cfg : Config) (build_Import : Provider)
    (fuel : nat) (root pkgName : string) (st : State) : Outcome :=
  match fuel with
  | O => OutOfFuel st
  | S fuel' =>
      if isSet (ignored cfg) pkgName then Done st
      else
        let st1 := {| pkgs := pkgs st; basePath := basePath st;
                      imported := pkgName :: imported st |} in
        match build_Import pkgName root with
        | ImportErr cause => Failed (importError pkgName cause) st1
        | ImportOk pkg =>
            if isIgnored cfg (basePath st1) pkg then Done st1
            else
              let st2 := {| pkgs := <[ImportPath pkg := pkg]> (pkgs st1);
                            basePath := basePath st1;
                            imported := imported st1 |} in
              if Goroot pkg then Done st2
              else walkImports (processPackage cfg build_Import fuel' root)
                     (Imports pkg) st2
        end
  end.

(** The body of the loop over [pkgs] in [main]. *)
Definition renderPackage (cfg : Config) (st : State)
    (acc : Registry * list (Line Z)) (entry : string * Package)
    : Registry * list (Line Z) :=
  let '(g, out) := acc in
  let '(pkgName, pkg) := entry in
  let '(pkgId, g1) := getId pkgName g in
  if isIgnored cfg (basePath st) pkg then (g1, out)
  else
    let out1 := out ++ [LNode pkgId pkgName (nodeColor cfg pkg)] in
    if Goroot pkg then (g1, out1)
    else printImports cfg st pkgId (Imports pkg) (g1, out1).

(** [main] from [fmt.Println("digraph godep {")] on. *)
Definition render (cfg : Config) (st : State)
    (range : gmap string Package -> list (string * Package)) : list (Line Z) :=
  let boxed := subgraph cfg && negb (Strs.isEmpty (basePath st)) in
  let out0 := println LDigraph [] in
  let out1 := if boxed then printSubgraphHead (basePath st) out0 else out0 in
  let '(_, out2) := foldl (renderPackage cfg st) (registry0, out1) (range (pkgs st)) in
  let out3 := if boxed then println LClose out2 else out2 in
  println LClose out3.

(** [main]; [None] when the model ran out of fuel. *)
Definition main (build_Import : Provider) (getwd : GetwdResult)
    (flags : Flags) (args : list string)
    (range : gmap string Package -> list (string * Package)) (fuel : nat)
    : option (Process Z) :=
  match args with
  | [arg] =>
      let cfg := configure flags in
      match getwd with
      | GetwdErr cause =>
          Some {| stdout := []; fatal := Some ("failed to get cwd: " +:+ cause) |}
      | GetwdOk cwd =>
          match processPackage cfg build_Import fuel cwd arg (stateOfFlags flags) with
          | OutOfFuel _ => None
          | Failed err _ => Some {| stdout := []; fatal := Some err |}
          | Done st => Some {| stdout := render cfg st range; fatal := None |}
          end
      end
  | _ => Some {| stdout := []; fatal := Some "need one package name to process" |}
  end.

End CounterIds.

(** ** The variant with integer identifiers and network subgraphs *)

Module CounterNet.
Import Counter.

Fixpoint processPackage (cfg : Config) (build_Import : Provider)
    (fuel : nat) (root pkgName : string) (st : State) : Outcome :=
  match fuel with
  | O => OutOfFuel st
  | S fuel' =>
      if isSet (ignored cfg) pkgName then Done st
      else
        let st1 := {| pkgs := pkgs st; basePath := basePath st;
                      imported := pkgName :: imported st |} in
        match build_Import pkgName root with
        | ImportErr cause => Failed (importError pkgName cause) st1
        | ImportOk pkg =>
            if isIgnored cfg (basePath st1) pkg then Done st1
            else
              let bp := if filterByBasePath cfg && Strs.isEmpty (basePath st1)
                        then parentPath (ImportPath pkg)
                        else basePath st1 in
              let st2 := {| pkgs := <[ImportPath pkg := pkg]> (pkgs st1);
                            basePath := bp;
                            imported := imported st1 |} in
              if Goroot pkg then Done st2
              else walkImports (processPackage cfg build_Import fuel' root)
                     (Imports pkg) st2
        end
  end.

Definition printNode (name color : string) (acc : Registry * list (Line Z))
    : Registry * list (Line Z) :=
  let '(g, out) := acc in
  let '(id, g1) := getId name g in
  (g1, out ++ [LNode id name color]).

(** The body of the loop over [pkgs] in [main]: the registry, the
    output so far and [networkPackages] go in and come out. *)
Definition renderPackage (cfg : Config) (st : State)
    (acc : Registry * list (Line Z) * gmap string Z) (entry : string * Package)
    : Registry * list (Line Z) * gmap string Z :=
  let '(g, out, net) := acc in
  let '(pkgName, pkg) := entry in
  let '(pkgId, g1) := getId pkgName g in
  if isIgnored cfg (basePath st) pkg then (g1, out, net)
  else
    let '(g3, out3) :=
      printImports cfg st pkgId (Imports pkg)
        (printNode pkgName (nodeColor cfg pkg) (g1, out)) in
    if networkSubgraphs cfg
       && hasPrefixes (ImportPath pkg) (includedPackages cfg)
    then (g3, out3, <[pkgName := pkgId]> net)
    else (g3, out3, net).

(** The body of the loop over [networkPackages]. *)
Definition renderNetwork (acc : Registry * list (Line Z))
    (entry : string * Z) : Registry * list (Line Z) :=
  let '(pkgName, pkgId) := entry in
  let name := Strs.lastOf (Strs.Split pkgName "/"%char) in
  let '(g, out) := acc in
  let '(g2, out2) := printNode name "paleturquoise" (g, printSubgraphHead name out) in
  let out3 := println LClose out2 in
  let '(nameId, g4) := getId name g2 in
  (g4, printEdge pkgId nameId out3).

(** [main] from [fmt.Println("digraph godep {")] on. *)
Definition render (cfg : Config) (st : State) (s : Schedule Z) : list (Line Z) :=
  let boxed := subgraph cfg && negb (Strs.isEmpty (basePath st)) in
  let out0 := println LDigraph [] in
  let out1 := if boxed then printSubgraphHead (basePath st) out0 else out0 in
  let '(g2, out2, net) :=
    foldl (renderPackage cfg st) (registry0, out1, ∅) (rangePkgs s (pkgs st)) in
  let out3 := if boxed then println LClose out2 else out2 in
  let '(_, out4) := foldl renderNetwork (g2, out3) (rangeNet s net) in
  println LClose out4.

(** [main]; [None] when the model ran out of fuel. *)
Definition main (u : Strs.Unicode) (build_Import : Provider) (getwd : GetwdResult)
    (flags : Flags) (args : list string) (s : Schedule Z) (fuel : nat)
    : option (Process Z) :=
  match args with
  | [arg] =>
      let cfg := configure u flags in
      match getwd with
      | GetwdErr cause =>
          Some {| stdout := []; fatal := Some ("failed to get cwd: " +:+ cause) |}
      | GetwdOk cwd =>
          match processPackage cfg build_Import fuel cwd arg state0 with
          | OutOfFuel _ => None
          | Failed err _ => Some {| stdout := []; fatal := Some err |}
          | Done st => Some {| stdout := render cfg st s; fatal := None |}
          end
      end
  | _ => Some {| stdout := []; fatal := Some "need one package name to process" |}
  end.

End CounterNet.

(** ** Views of the loops used to state their properties *)

(** [networkPackages] after the loop over [order], when the loop stores
    [val] of the name for the packages that pass [isNet]. *)
Definition networkOf {V : Type} (isNet : string * Package -> bool) (val : string -> V)
    (order : list (string * Package)) (net : gmap string V) : gmap string V :=
  foldl (fun acc entry => if isNet entry then <[entry.1 := val entry.1]> acc else acc)
        net order.

Module PathView.
Import PathIds.

(** The edges the loop over the imports of [pkgName] prints. *)
Definition importLines (cfg : Config) (st : State) (pkgName : string)
    (imps : list string) : list (Line string) :=
  flat_map (fun imp =>
    match pkgs st !! imp with
    | Some impPkg =>
        if isIgnored cfg (basePath st) impPkg then []
        else [LEdge (ns (basePath st) pkgName) (ns (basePath st) imp)]
    | None => []
    end) imps.

(** What one turn of the loop over [pkgs] prints. *)
Definition packageLines (cfg : Config) (st : State)
    (entry : string * Package) : list (Line string) :=
  if isIgnored cfg (basePath st) entry.2 then []
  else LNode (ns (basePath st) entry.1) entry.1 (nodeColor cfg entry.2)
         :: importLines cfg st entry.1 (Imports entry.2).

(** The packages that get a network subgraph. *)
Definition isNetwork (cfg : Config) (st : State) (entry : string * Package) : bool :=
  negb (isIgnored cfg (basePath st) entry.2)
  && networkSubgraphs cfg
  && hasPrefixes (ImportPath entry.2) (includedPackages cfg)
  && negb (Strs.HasPrefix (ImportPath entry.2) (basePath st)).

(** What one turn of the loop over [networkPackages] prints. *)
Definition networkLines (st : State) (entry : string * string) : list (Line string) :=
  let name := Strs.lastOf (Strs.Split entry.1 "/"%char) in
  [ LSubgraphHead name;
    LNode (ns (basePath st) name) name "paleturquoise";
    LClose;
    LEdge (ns (basePath st) entry.2) (ns (basePath st) name) ].

(** The entries of [networkPackages] after the loop over [pkgs]: each
    package that gets a network subgraph, under its name and with its
    name as identifier. *)
Definition networkEntries (cfg : Config) (st : State) : list (string * string) :=
  (fun entry : string * Package => (entry.1, entry.1))
    <$> List.filter (isNetwork cfg st) (map_to_list (pkgs st)).

(** The output when the loop over [pkgs] visits the entries [order] and
    the loop over [networkPackages] the entries [net]: the header, the
    head of the base path box, one group of lines for each package, the
    closing brace of the box, one block for each network package, and
    the closing brace. *)
Definition layout (cfg : Config) (st : State) (order : list (string * Package))
    (net : list (string * string)) : list (Line string) :=
  let boxed := subgraph cfg && negb (Strs.isEmpty (basePath st)) in
  [LDigraph]
  ++ (if boxed then [LSubgraphHead (basePath st)] else [])
  ++ flat_map (packageLines cfg st) order
  ++ (if boxed then [LClose] else [])
  ++ flat_map (networkLines st) net
  ++ [LClose].

(** Two outputs for the state [st] that differ at most in the order of
    the groups of the packages and in the order of the blocks of the
    network packages; each group and each block is whole, and the
    header, the box and the closing braces are where they belong. *)
Definition sameUpToGroupOrder (cfg : Config) (st : State)
    (out1 out2 : list (Line string)) : Prop :=
  exists order1 order2 net1 net2,
    order1 ≡ₚ map_to_list (pkgs st) /\ order2 ≡ₚ map_to_list (pkgs st)
    /\ net1 ≡ₚ networkEntries cfg st /\ net2 ≡ₚ networkEntries cfg st
    /\ out1 = layout cfg st order1 net1 /\ out2 = layout cfg st order2 net2.

End PathView.

Module CounterView.
Import Counter.

(** The identifier the registry holds for a name. *)
Definition idOf (ids : gmap string Z) (name : string) : Z := default 0%Z (ids !! name).

(** A line over names, with the names replaced by their identifiers. *)
Definition encode (ids : gmap string Z) (l : Line string) : Line Z :=
  lineMap (idOf ids) l.

(** The registry has an identifier for every name of the line. *)
Definition covered (ids : gmap string Z) (l : Line string) : Prop :=
  Forall (fun k => is_Some (ids !! k)) (lineIds l).

Definition lastSegment (pkgName : string) : string :=
  Strs.lastOf (Strs.Split pkgName "/"%char).

(** The edges the loop over the imports of [pkgName] prints, over
    names. *)
Definition importLines (cfg : Config) (st : State) (pkgName : string)
    (imps : list string) : list (Line string) :=
  flat_map (fun imp =>
    match pkgs st !! imp with
    | Some impPkg =>
        if isIgnored cfg (basePath st) impPkg then [] else [LEdge pkgName imp]
    | None => []
    end) imps.

(** What one turn of the loop over [pkgs] prints in [CounterIds], over
    names. *)
Definition packageLines (cfg : Config) (st : State)
    (entry : string * Package) : list (Line string) :=
  if isIgnored cfg (basePath st) entry.2 then []
  else LNode entry.1 entry.1 (nodeColor cfg entry.2)
         :: (if Goroot entry.2 then []
             else importLines cfg st entry.1 (Imports entry.2)).

(** The same for [CounterNet]. *)
Definition packageLinesNet (cfg : Config) (st : State)
    (entry : string * Package) : list (Line string) :=
  if isIgnored cfg (basePath st) entry.2 then []
  else LNode entry.1 entry.1 (nodeColor cfg entry.2)
         :: importLines cfg st entry.1 (Imports entry.2).

(** The packages that get a network subgraph in [CounterNet]. *)
Definition isNetwork (cfg : Config) (st : State) (entry : string * Package) : bool :=
  negb (isIgnored cfg (basePath st) entry.2)
  && networkSubgraphs cfg
  && hasPrefixes (ImportPath entry.2) (includedPackages cfg).

(** What one turn of the loop over [networkPackages] prints, over
    names. *)
Definition networkLines (pkgName : string) : list (Line string) :=
  let name := lastSegment pkgName in
  [ LSubgraphHead name; LNode name name "paleturquoise"; LClose; LEdge pkgName name ].

(** The registry is sound for the names of [N]: the counter is the
    number of names registered, all of them in [N], and no two names
    share an identifier. *)
Record regOk (N : gset string) (g : Registry) : Prop := mkRegOk {
  regOk_next : nextId g = Z.of_nat (size (ids g));
  regOk_dom : dom (ids g) ⊆ N;
  regOk_range : forall k v, ids g !! k = Some v -> (0 <= v < nextId g)%Z;
  regOk_inj : forall k1 k2 v, ids g !! k1 = Some v -> ids g !! k2 = Some v -> k1 = k2
}.

(** A name registered under the identifier [z], if any. *)
Definition nameOf (ids : gmap string Z) (z : Z) : option string :=
  fst <$> List.find (fun kv : string * Z => bool_decide (kv.2 = z)) (map_to_list ids).

(** The renaming that takes the identifiers of one registry to those
    of another. *)
Definition renaming (ids1 ids2 : gmap string Z) (z : Z) : Z :=
  match nameOf ids1 z with
  | Some k => idOf ids2 k
  | None => z
  end.

(** Two outputs are the same up to the order of their lines and a
    renaming of the identifiers that keeps distinct ones distinct. *)
Definition sameUpToRenaming (out1 out2 : list (Line Z)) : Prop :=
  exists rho : Z -> Z,
    (forall x y, In x (flat_map lineIds out1) -> In y (flat_map lineIds out1) ->
                 rho x = rho y -> x = y)
    /\ List.map (lineMap rho) out1 ≡ₚ out2.

(** The names that can get an identifier: the keys of [pkgs] and their
    last segments. *)
Definition namesOf (st : State) : gset string :=
  list_to_set ((map_to_list (pkgs st)).*1
               ++ List.map lastSegment (map_to_list (pkgs st)).*1).

(** From the registry [g] and the output [out], printing the lines
    [abs] over names gives the registry [g'] and the output [out']. *)
Definition sim (N : gset string) (g : Registry) (out : list (Line Z))
    (abs : list (Line string)) (g' : Registry) (out' : list (Line Z)) : Prop :=
  regOk N g' /\ ids g ⊆ ids g' /\ Forall (covered (ids g')) abs
  /\ out' = out ++ List.map (encode (ids g')) abs.

(** The output of [CounterIds.render] over names, for the order in
    which the loop visits [pkgs]. *)
Definition absRender (cfg : Config) (st : State)
    (order : list (string * Package)) : list (Line string) :=
  let boxed := subgraph cfg && negb (Strs.isEmpty (basePath st)) in
  [LDigraph]
  ++ (if boxed then [LSubgraphHead (basePath st)] else [])
  ++ flat_map (packageLines cfg st) order
  ++ (if boxed then [LClose] else [])
  ++ [LClose].

(** The output of [CounterNet.render] over names, for the order in
    which the loops visit [pkgs] and the names in [networkPackages]. *)
Definition absRenderNet (cfg : Config) (st : State)
    (order : list (string * Package)) (names : list string) : list (Line string) :=
  let boxed := subgraph cfg && negb (Strs.isEmpty (basePath st)) in
  [LDigraph]
  ++ (if boxed then [LSubgraphHead (basePath st)] else [])
  ++ flat_map (packageLinesNet cfg st) order
  ++ (if boxed then [LClose] else [])
  ++ flat_map networkLines names
  ++ [LClose].

End CounterView.

(** ** Predicates on outcomes and on the provider *)

(** An outcome is [good] for [I], [F] and [O] when its state satisfies
    [I] if the call returned without error, [F] with the error if it
    failed, and [O] if the recursion was cut. *)
Definition good (I : State -> Prop) (F : string -> State -> Prop)
    (O : State -> Prop) (o : Outcome) : Prop :=
  match o with
  | Done st => I st
  | Failed err st => F err st
  | OutOfFuel st => O st
  end.

(** [build.Import] finds the package asked for. *)
Definition resolves (build_Import : Provider) (root pkgName : string) : Prop :=
  exists pkg, build_Import pkgName root = ImportOk pkg.

(** What a call leaves alone: the keys of [pkgs] are kept, a base path
    that is set is kept, and [imported] only grows at its head. *)
Record extends (st st' : State) : Prop := mkExtends {
  extends_pkgs : dom (pkgs st) ⊆ dom (pkgs st');
  extends_basePath : basePath st <> EmptyString -> basePath st' = basePath st;
  extends_imported : exists l, imported st' = l ++ imported st
}.

(** ** Small import graphs and command lines *)

Module Examples.

(** The command lines below are ASCII, so the Unicode tables are never
    consulted on them; this stand-in leaves a string that is not ASCII as
    it is. *)
Definition unicode : Strs.Unicode :=
  {| Strs.toLowerUnicode := fun s => s; Strs.trimSpaceUnicode := fun s => s |}.

Definition pkg (path : string) (imps : list string) : Package :=
  {| ImportPath := path; Goroot := false; Imports := imps; CgoFiles := [] |}.

Definition stdPkg (path : string) : Package :=
  {| ImportPath := path; Goroot := true; Imports := []; CgoFiles := [] |}.

Definition notFound : ImportResult := ImportErr "cannot find package".

(** No flag given. *)
Definition noFlags : Flags :=
  {| flag_s := false; flag_p := EmptyString; flag_i := EmptyString;
     flag_n := EmptyString; flag_b := false; flag_subgraph := false;
     flag_network_subgraphs := false |}.

Definition noFlagsIds : CounterIds.Flags :=
  {| CounterIds.flag_s := false; CounterIds.flag_p := EmptyString;
     CounterIds.flag_i := EmptyString; CounterIds.flag_b := EmptyString;
     CounterIds.flag_n := EmptyString; CounterIds.flag_subgraph := false;
     CounterIds.flag_network_subgraphs := false |}.

(** [x/app] imports [x/lib]. *)
Definition twoPackages : Provider := fun pkgName _ =>
  if String.eqb pkgName "x/app" then ImportOk (pkg "x/app" ["x/lib"])
  else if String.eqb pkgName "x/lib" then ImportOk (pkg "x/lib" [])
  else notFound.

(** [x/app] and [x/lib] import each other. *)
Definition cycle : Provider := fun pkgName _ =>
  if String.eqb pkgName "x/app" then ImportOk (pkg "x/app" ["x/lib"])
  else if String.eqb pkgName "x/lib" then ImportOk (pkg "x/lib" ["x/app"])
  else notFound.

(** The package found under the name [a] has the import path [v/a] and
    imports [a]. *)
Definition selfAlias : Provider := fun pkgName _ =>
  if String.eqb pkgName "a" then ImportOk (pkg "v/a" ["a"]) else notFound.

(** The same package under the names [./lib] and [x/lib]. *)
Definition twoSpellings : Provider := fun pkgName _ =>
  if String.eqb pkgName "./lib" then ImportOk (pkg "x/lib" [])
  else if String.eqb pkgName "x/lib" then ImportOk (pkg "x/lib" [])
  else notFound.

(** [x/app] imports [x/gone], which is not there. *)
Definition broken : Provider := fun pkgName _ =>
  if String.eqb pkgName "x/app" then ImportOk (pkg "x/app" ["x/gone"])
  else notFound.

(** [x/app] imports [net/rpc] and the standard [fmt]. *)
Definition withNetwork : Provider := fun pkgName _ =>
  if String.eqb pkgName "x/app" then ImportOk (pkg "x/app" ["net/rpc"; "fmt"])
  else if String.eqb pkgName "net/rpc" then ImportOk (pkg "net/rpc" [])
  else if String.eqb pkgName "fmt" then ImportOk (stdPkg "fmt")
  else notFound.

(** [app] imports [Foo]. *)
Definition mixedCase : Provider := fun pkgName _ =>
  if String.eqb pkgName "app" then ImportOk (pkg "app" ["Foo"])
  else if String.eqb pkgName "Foo" then ImportOk (pkg "Foo" [])
  else notFound.

(** Every rule of the filter policy is switched on. *)
Definition allRules : Flags :=
  {| flag_s := true; flag_p := "vendor"; flag_i := "vendor/special/x";
     flag_n := "vendor/special"; flag_b := true; flag_subgraph := false;
     flag_network_subgraphs := false |}.

Definition specialPkg : Package :=
  {| ImportPath := "vendor/special/x"; Goroot := true; Imports := [];
     CgoFiles := [] |}.

(** [-i ./lib] *)
Definition ignoreLocal : Flags :=
  {| flag_s := false; flag_p := EmptyString; flag_i := "./lib";
     flag_n := EmptyString; flag_b := false; flag_subgraph := false;
     flag_network_subgraphs := false |}.

(** [-i Foo,bar] *)
Definition ignoreFooBar : Flags :=
  {| flag_s := false; flag_p := EmptyString; flag_i := "Foo,bar";
     flag_n := EmptyString; flag_b := false; flag_subgraph := false;
     flag_network_subgraphs := false |}.

(** [-n net -subgraph -network-subgraphs] *)
Definition networkFlags : Flags :=
  {| flag_s := false; flag_p := EmptyString; flag_i := EmptyString;
     flag_n := "net"; flag_b := false; flag_subgraph := true;
     flag_network_subgraphs := true |}.

Definition ignoreFooBarIds : CounterIds.Flags :=
  {| CounterIds.flag_s := false; CounterIds.flag_p := EmptyString;
     CounterIds.flag_i := "Foo,bar"; CounterIds.flag_b := EmptyString;
     CounterIds.flag_n := EmptyString; CounterIds.flag_subgraph := false;
     CounterIds.flag_network_subgraphs := false |}.

Definition src : string := "/src".

(** The state in which the resolution of [x/app] leaves the program,
    for [twoPackages] and for [withNetwork]. *)
Definition twoPackagesState : State :=
  stateOf (PathIds.processPackage (configure unicode noFlags) twoPackages 3 src "x/app" state0).

Definition withNetworkState : State :=
  stateOf (PathIds.processPackage (configure unicode networkFlags) withNetwork 3 src
             "x/app" state0).

Definition mixedCaseState : State :=
  stateOf (PathIds.processPackage (configure unicode ignoreFooBar) mixedCase 3 src "app" state0).

Definition knownNames : gset string := {[ "x/app"; "x/lib" ]}.

(** The loops visit their maps in the order of [map_to_list], or in
    the opposite order. *)
Definition forward {Id : Type} : Schedule Id :=
  {| rangePkgs := map_to_list; rangeNet := map_to_list |}.

Definition backward {Id : Type} : Schedule Id :=
  {| rangePkgs := fun m => List.rev (map_to_list m);
     rangeNet := fun m => List.rev (map_to_list m) |}.

End Examples.

(** * Further definitions: counting, nesting and the resolved set *)

(** ** Further views used to state properties of the strings and the output *)

(** The number of bytes of [s] equal to [c]. *)
Fixpoint countByte (c : ascii) (s : string) : nat :=
  match s with
  | EmptyString => 0
  | String d rest => (if Ascii.eqb d c then 1 else 0) + countByte c rest
  end.

(** The depth of open braces after the lines [out], starting from
    [depth]; [None] when a brace is closed that was not opened. *)
Fixpoint braceDepth {Id : Type} (out : list (Line Id)) (depth : nat) : option nat :=
  match out with
  | [] => Some depth
  | LDigraph :: rest | LSubgraphHead _ :: rest => braceDepth rest (S depth)
  | LClose :: rest =>
      match depth with
      | O => None
      | S d => braceDepth rest d
      end
  | _ :: rest => braceDepth rest depth
  end.

(** The registry after asking for the identifiers of [names] in turn. *)
Definition registerAll (names : list string) (g : Counter.Registry) : Counter.Registry :=
  foldl (fun acc name => (Counter.getId name acc).2) g names.


(** The import string [imp] has been dealt with in the state [st]: it is
    a key of [pkgs], or it is in the exact ignore set, or the package
    found under it is in [pkgs] under its import path or is ignored,
    with no base path or with the one of [st]. *)
Definition handled (cfg : Config) (build_Import : Provider) (root : string)
    (st : State) (imp : string) : Prop :=
  imp ∈ dom (pkgs st)
  \/ isSet (ignored cfg) imp = true
  \/ exists q, build_Import imp root = ImportOk q
       /\ (ImportPath q ∈ dom (pkgs st)
           \/ PathIds.isIgnored cfg EmptyString q = true
           \/ PathIds.isIgnored cfg (basePath st) q = true).

(** The rules of [isIgnored] that do not look at the base path let the
    package through. *)
Definition passesFixedRules (cfg : Config) (p : Package) : Prop :=
  hasPrefixes (ImportPath p) (includedPackages cfg) = true
  \/ (isSet (ignored cfg) (ImportPath p) = false
      /\ (Goroot p && ignoreStdlib cfg) = false
      /\ hasPrefixes (ImportPath p) (ignoredPrefixes cfg) = false).

(** Every entry of [pkgs] is keyed by its import path, was found by
    [build.Import] under a name of [imported], and passes the rules that
    do not look at the base path. *)
Definition resolvedOk (cfg : Config) (build_Import : Provider) (root : string)
    (st : State) : Prop :=
  forall k p, pkgs st !! k = Some p ->
    ImportPath p = k
    /\ (exists name, In name (imported st) /\ build_Import name root = ImportOk p)
    /\ passesFixedRules cfg p.


(** The imports of the package [p] are all dealt with in [st], unless
    [p] is a standard package, whose imports are not walked. *)
Definition closedPkg (cfg : Config) (build_Import : Provider) (root : string)
    (st : State) (p : Package) : Prop :=
  Goroot p = false -> forall imp, In imp (Imports p) -> handled cfg build_Import root st imp.

(** What a call of [processPackage] on [name] that returns without error
    has done: the state extends the one before, [name] is dealt with,
    and every entry of [pkgs] was there before or has its imports dealt
    with. *)
Definition settled (cfg : Config) (build_Import : Provider) (root : string)
    (name : string) (st st' : State) : Prop :=
  extends st st'
  /\ handled cfg build_Import root st' name
  /\ forall k p, pkgs st' !! k = Some p ->
       pkgs st !! k = Some p \/ closedPkg cfg build_Import root st' p.





Definition isNode {Id : Type} (l : Line Id) : bool :=
  match l with LNode _ _ _ => true | _ => false end.


(** ** More command lines and states for the further properties *)

Module MoreExamples.

(** [-p vendor,] *)
Definition trailingIgnored : Flags :=
  {| flag_s := false; flag_p := "vendor,"; flag_i := EmptyString;
     flag_n := EmptyString; flag_b := false; flag_subgraph := false;
     flag_network_subgraphs := false |}.

(** [-p vendor -n net,] *)
Definition trailingIncluded : Flags :=
  {| flag_s := false; flag_p := "vendor"; flag_i := EmptyString;
     flag_n := "net,"; flag_b := false; flag_subgraph := false;
     flag_network_subgraphs := false |}.

(** [-b] *)
Definition basePathOnly : Flags :=
  {| flag_s := false; flag_p := EmptyString; flag_i := EmptyString;
     flag_n := EmptyString; flag_b := true; flag_subgraph := false;
     flag_network_subgraphs := false |}.

Definition threeNames : list string := ["x/app"; "x/lib"; "fmt"].

(** [-i x/lib] *)
Definition ignoreLib : Flags :=
  {| flag_s := false; flag_p := EmptyString; flag_i := "x/lib";
     flag_n := EmptyString; flag_b := false; flag_subgraph := false;
     flag_network_subgraphs := false |}.

(** [-i x/lib -n x] *)
Definition ignoreLibIncludeX : Flags :=
  {| flag_s := false; flag_p := EmptyString; flag_i := "x/lib";
     flag_n := "x"; flag_b := false; flag_subgraph := false;
     flag_network_subgraphs := false |}.

(** [x/app] imports [net/rpc] and [rpc], which import nothing. *)
Definition sameSegment : Provider := fun pkgName _ =>
  if String.eqb pkgName "x/app" then ImportOk (Examples.pkg "x/app" ["net/rpc"; "rpc"])
  else if String.eqb pkgName "net/rpc" then ImportOk (Examples.pkg "net/rpc" [])
  else if String.eqb pkgName "rpc" then ImportOk (Examples.pkg "rpc" [])
  else Examples.notFound.

Definition sameSegmentState : State :=
  stateOf (PathIds.processPackage (configure Examples.unicode Examples.networkFlags)
             sameSegment 3 Examples.src "x/app" state0).


(** In the directory of [x], the package [x/lib] is found under the
    relative name [./lib], and one of its files imports [./lib]. *)
Definition relativeSelf : Provider := fun pkgName _ =>
  if String.eqb pkgName "./lib" then ImportOk (Examples.pkg "x/lib" ["./lib"])
  else Examples.notFound.

(** The state in which [main.go] is after resolving [x/app] of
    [twoPackages]. *)
Definition twoPackagesIdsState : State :=
  stateOf (CounterIds.processPackage (CounterIds.configure Examples.noFlagsIds)
             Examples.twoPackages 3 Examples.src "x/app"
             (CounterIds.stateOfFlags Examples.noFlagsIds)).

End MoreExamples.

(** * Properties *)

(** ** Strings and prefixes *)

Lemma hasPrefixes_true (s : string) (prefixes : list string) :
  hasPrefixes s prefixes = true <->
  exists p, In p prefixes /\ Strs.HasPrefix s p = true.
Proof.
  induction prefixes as [|p rest IH]; simpl.
  - split; [discriminate | intros (p & [] & _)].
  - destruct (Strs.HasPrefix s p) eqn:Hp.
    + split; [|reflexivity]. intros _. exists p. auto.
    + rewrite IH. split.
      * intros (q & Hq & Hs). exists q. auto.
      * intros (q & [Hq|Hq] & Hs); [subst; congruence|]. exists q. auto.
Qed.

Lemma isSet_insert_true (m : gmap string bool) (k p : string) :
  isSet m k = true -> isSet (<[p := true]> m) k = true.
Proof.
  unfold isSet. intros H.
  destruct (decide (p = k)) as [->|Hne].
  - by rewrite lookup_insert_eq.
  - by rewrite lookup_insert_ne.
Qed.

Lemma isSet_setAll_keeps (ks : list string) (m : gmap string bool) (k : string) :
  isSet m k = true -> isSet (setAll m ks) k = true.
Proof.
  revert m. induction ks as [|p ks IH]; intros m H; simpl; [done|].
  apply IH. by apply isSet_insert_true.
Qed.

Lemma isSet_setAll (ks : list string) (m : gmap string bool) (k : string) :
  isSet (setAll m ks) k = true <-> In k ks \/ isSet m k = true.
Proof.
  revert m. induction ks as [|p ks IH]; intros m; simpl.
  - tauto.
  - rewrite IH. unfold isSet at 1.
    destruct (decide (p = k)) as [->|Hne].
    + rewrite lookup_insert_eq. simpl. tauto.
    + rewrite lookup_insert_ne by done. fold (isSet m k). tauto.
Qed.

(** ** The filter policy *)

(** C2: a package whose import path starts with one of the always
    included prefixes is never ignored, whatever the exact ignore set,
    the standard library toggle, the ignored prefixes and the base path
    say. *)
Theorem isIgnored_included_wins (cfg : Config) (bp : string) (pkg : Package) :
  (exists p, In p (includedPackages cfg) /\
             Strs.HasPrefix (ImportPath pkg) p = true) ->
  PathIds.isIgnored cfg bp pkg = false.
Proof.
  intros H. apply hasPrefixes_true in H.
  unfold PathIds.isIgnored. by rewrite H.
Qed.

(** ** The renderer of the variant with path identifiers *)

Section PathRender.
Import PathIds PathView.
Variable cfg : Config.
Variable st : State.

Lemma printImports_lines (pkgId : string) (imps : list string) (out : list (Line string)) :
  printImports cfg st pkgId imps out = out ++ importLines cfg st pkgId imps.
Proof.
  revert out. induction imps as [|imp rest IH]; intros out; simpl.
  - by rewrite app_nil_r.
  - destruct (pkgs st !! imp) as [impPkg|]; [|apply IH].
    destruct (isIgnored cfg (basePath st) impPkg); [apply IH|].
    rewrite IH. unfold printEdge. by rewrite <- app_assoc.
Qed.

Lemma renderPackage_lines (out : list (Line string)) (net : gmap string string)
    (entry : string * Package) :
  renderPackage cfg st (out, net) entry =
    (out ++ packageLines cfg st entry, networkOf (isNetwork cfg st) id [entry] net).
Proof.
  destruct entry as [pkgName pkg].
  unfold renderPackage, packageLines, networkOf, isNetwork. simpl.
  destruct (isIgnored cfg (basePath st) pkg); simpl.
  - by rewrite app_nil_r.
  - rewrite printImports_lines. unfold printNode. rewrite <- app_assoc. simpl.
    by destruct (networkSubgraphs cfg && _ && _).
Qed.

Lemma mainLoop_lines (order : list (string * Package)) (out : list (Line string))
    (net : gmap string string) :
  foldl (renderPackage cfg st) (out, net) order =
    (out ++ flat_map (packageLines cfg st) order, networkOf (isNetwork cfg st) id order net).
Proof.
  revert out net. induction order as [|entry rest IH]; intros out net.
  - simpl. by rewrite app_nil_r.
  - cbn [foldl flat_map]. rewrite renderPackage_lines, IH. by rewrite <- app_assoc.
Qed.

Lemma networkLoop_lines (order : list (string * string)) (out : list (Line string)) :
  networkLoop st order out = out ++ flat_map (networkLines st) order.
Proof.
  unfold networkLoop. revert out.
  induction order as [|[pkgName pkgId] rest IH]; intros out; simpl.
  - by rewrite app_nil_r.
  - rewrite IH. unfold printEdge, println, printNode, printSubgraphHead, networkLines.
    simpl. by rewrite <- !app_assoc.
Qed.

(** The output of [render], piece by piece. *)
Lemma render_lines (s : Schedule string) :
  let boxed := subgraph cfg && negb (Strs.isEmpty (basePath st)) in
  let order := rangePkgs s (pkgs st) in
  render cfg st s =
    [LDigraph]
    ++ (if boxed then [LSubgraphHead (basePath st)] else [])
    ++ flat_map (packageLines cfg st) order
    ++ (if boxed then [LClose] else [])
    ++ flat_map (networkLines st) (rangeNet s (networkOf (isNetwork cfg st) id order ∅))
    ++ [LClose].
Proof.
  intros boxed order. unfold render, mainLoop. fold boxed. fold order.
  rewrite mainLoop_lines. rewrite networkLoop_lines.
  unfold println, printSubgraphHead.
  destruct boxed; simpl; by rewrite <- ?app_assoc.
Qed.

End PathRender.

Lemma append_inj_r (a b c : string) : a +:+ b = a +:+ c -> b = c.
Proof. induction a as [|ch a IH]; simpl; [done|]. intros [= H]. auto. Qed.

Lemma ns_inj (bp a b : string) : PathIds.ns bp a = PathIds.ns bp b -> a = b.
Proof.
  unfold PathIds.ns. intros H. apply append_inj_r in H.
  by apply (append_inj_r ":") in H.
Qed.

Section PathEdges.
Import PathIds PathView.
Variable cfg : Config.
Variable st : State.

Lemma in_importLines (l : Line string) (pkgName : string) (imps : list string) :
  In l (importLines cfg st pkgName imps) <->
  exists imp q, In imp imps /\ pkgs st !! imp = Some q /\
    isIgnored cfg (basePath st) q = false /\
    l = LEdge (ns (basePath st) pkgName) (ns (basePath st) imp).
Proof.
  unfold importLines. rewrite in_flat_map. split.
  - intros (imp & Hin & Hl). destruct (pkgs st !! imp) as [q|] eqn:Hq; [|done].
    destruct (isIgnored cfg (basePath st) q) eqn:Hi; [done|].
    destruct Hl as [<-|[]]. by exists imp, q.
  - intros (imp & q & Hin & Hq & Hi & ->). exists imp. split; [done|].
    rewrite Hq, Hi. by left.
Qed.

Lemma in_packageLines_edge (src dst : string) (entry : string * Package) :
  In (LEdge src dst) (packageLines cfg st entry) <->
  isIgnored cfg (basePath st) entry.2 = false /\
  In (LEdge src dst) (importLines cfg st entry.1 (Imports entry.2)).
Proof.
  unfold packageLines.
  destruct (isIgnored cfg (basePath st) entry.2); simpl.
  - split; [done | by intros [? _]].
  - split; [intros [[=]|H]; auto | intros [_ H]; auto].
Qed.

End PathEdges.

(** C10: every identifier that [render] writes, on a node line or at
    either end of an edge line, the nodes of the network subgraphs
    included, is the base path, a colon and a name; a node line carries
    the name as its label.  With an empty base path every identifier
    therefore starts with the colon. *)
Theorem identifiers_namespaced (cfg : Config) (st : State) (s : Schedule string) :
  Forall (fun l : Line string =>
    match l with
    | LNode id label _ => id = basePath st +:+ ":" +:+ label
    | LEdge src dst =>
        exists a b, src = basePath st +:+ ":" +:+ a /\ dst = basePath st +:+ ":" +:+ b
    | _ => True
    end) (PathIds.render cfg st s)
  /\ (basePath st = EmptyString ->
      Forall (fun l : Line string =>
        Forall (fun id => exists name, id = String ":"%char name) (lineIds l))
        (PathIds.render cfg st s)).
Proof.
  assert (H : Forall (fun l : Line string =>
    match l with
    | LNode id label _ => id = basePath st +:+ ":" +:+ label
    | LEdge src dst =>
        exists a b, src = basePath st +:+ ":" +:+ a /\ dst = basePath st +:+ ":" +:+ b
    | _ => True
    end) (PathIds.render cfg st s)).
  { rewrite render_lines. repeat rewrite Forall_app. repeat split.
    - by repeat constructor.
    - destruct (_ && _); by repeat constructor.
    - apply Forall_forall. intros l Hl. apply list_elem_of_In in Hl.
      apply in_flat_map in Hl as (entry & _ & Hl).
      unfold PathView.packageLines in Hl.
      destruct (PathIds.isIgnored _ _ _); [done|].
      destruct Hl as [<-|Hl]; [done|].
      apply in_importLines in Hl as (imp & q & _ & _ & _ & ->). by eexists _, _.
    - destruct (_ && _); by repeat constructor.
    - apply Forall_forall. intros l Hl. apply list_elem_of_In in Hl.
      apply in_flat_map in Hl as (entry & _ & Hl).
      simpl in Hl. destruct Hl as [<-|[<-|[<-|[<-|[]]]]]; try done.
      by eexists _, _.
    - by repeat constructor. }
  split; [exact H|].
  intros Hbp. eapply Forall_impl; [exact H|].
  intros l Hl. rewrite Hbp in Hl. destruct l; simpl; repeat constructor.
  - by eexists.
  - destruct Hl as (a & b & -> & _). by eexists.
  - destruct Hl as (a & b & _ & ->). by eexists.
Qed.

(** ** Lists: the Standard Library's functions and stdpp's *)

Lemma filter_bool_filter {A : Type} (f : A -> bool) (l : list A) :
  List.filter f l = filter (fun x => f x = true) l.
Proof.
  induction l as [|x l IH]; [done|]. simpl. rewrite filter_cons.
  destruct (f x) eqn:Hx; case_decide; congruence.
Qed.

Lemma flat_map_fmap {A B C : Type} (f : A -> B) (g : B -> list C) (l : list A) :
  flat_map g (f <$> l) = flat_map (fun x => g (f x)) l.
Proof. induction l as [|x l IH]; [done|]. rewrite fmap_cons. simpl. by rewrite IH. Qed.

Lemma existsb_Permutation {A : Type} (f : A -> bool) (l1 l2 : list A) :
  l1 ≡ₚ l2 -> existsb f l1 = existsb f l2.
Proof.
  induction 1 as [|x l1 l2 _ IH|x y l|l1 l2 l3 _ IH1 _ IH2]; simpl.
  - done.
  - by rewrite IH.
  - by rewrite !orb_assoc, (orb_comm (f y)).
  - congruence.
Qed.

Section NetworkOf.
Context {V : Type}.
Variable isNet : string * Package -> bool.
Variable val : string -> V.

(** [networkPackages] holds exactly the packages of the loop that pass
    [isNet], each with [val] of its name. *)
Lemma networkOf_lookup (order : list (string * Package)) (net : gmap string V)
    (k : string) :
  networkOf isNet val order net !! k =
    if existsb (fun entry => bool_decide (entry.1 = k) && isNet entry) order
    then Some (val k) else net !! k.
Proof.
  unfold networkOf. revert net.
  induction order as [|entry rest IH]; intros net; simpl; [done|].
  rewrite IH.
  destruct (existsb _ rest); [by rewrite orb_true_r|]. rewrite orb_false_r.
  destruct (isNet entry); rewrite ?andb_false_r, ?andb_true_r.
  - case_bool_decide as Hk.
    + subst k. by rewrite lookup_insert_eq.
    + by rewrite lookup_insert_ne.
  - done.
Qed.

Lemma networkOf_Permutation (order1 order2 : list (string * Package)) :
  order1 ≡ₚ order2 -> networkOf isNet val order1 ∅ = networkOf isNet val order2 ∅.
Proof.
  intros Hperm. apply map_eq. intros k. rewrite !networkOf_lookup.
  by rewrite (existsb_Permutation _ _ _ Hperm).
Qed.

Lemma networkOf_entries (m : gmap string Package) (order : list (string * Package)) :
  order ≡ₚ map_to_list m ->
  map_to_list (networkOf isNet val order ∅) ≡ₚ
    (fun entry : string * Package => (entry.1, val entry.1))
      <$> List.filter isNet (map_to_list m).
Proof.
  intros Hperm. rewrite (networkOf_Permutation _ _ Hperm).
  rewrite filter_bool_filter.
  apply NoDup_Permutation.
  - apply NoDup_map_to_list.
  - apply NoDup_fmap_2_strong.
    + intros [k1 p1] [k2 p2] H1 H2 [= Hk _]. simpl in Hk. subst k2.
      apply list_elem_of_filter in H1 as [_ H1]. apply list_elem_of_filter in H2 as [_ H2].
      apply elem_of_map_to_list in H1. apply elem_of_map_to_list in H2. congruence.
    + apply NoDup_filter, NoDup_map_to_list.
  - intros [k v]. rewrite elem_of_map_to_list, networkOf_lookup, lookup_empty.
    rewrite list_elem_of_fmap. split.
    + destruct (existsb _ _) eqn:Hex; [|done]. intros [= <-].
      apply existsb_exists in Hex as ([k' p] & Hin & Hk).
      apply andb_true_iff in Hk as [Hk Hnet]. apply bool_decide_eq_true in Hk.
      simpl in Hk. subst k'. exists (k, p). split; [done|].
      apply list_elem_of_filter. split; [done|]. by apply list_elem_of_In.
    + intros ([k' p] & [= -> ->] & Hin). apply list_elem_of_filter in Hin as [Hnet Hin].
      assert (Hex : existsb (fun entry : string * Package =>
                bool_decide (entry.1 = k') && isNet entry) (map_to_list m) = true).
      { apply existsb_exists. exists (k', p). split; [by apply list_elem_of_In|].
        simpl. rewrite bool_decide_eq_true_2 by done. done. }
      by rewrite Hex.
Qed.

End NetworkOf.

Lemma filter_none {A : Type} (f : A -> bool) (l : list A) :
  (forall x, f x = false) -> List.filter f l = [].
Proof. intros H. induction l as [|x l IH]; [done|]. simpl. by rewrite H. Qed.

(** C6: what [render] prints after the loop over [pkgs] and the closing
    brace of the base path box is a sequence of whole blocks, one for
    each entry of [pkgs] that is not ignored, starts with an always
    included prefix and does not start with the base path, in some
    order, when the network subgraphs are switched on, and nothing when
    they are off.  A block is the head of a subgraph named after the last
    segment of the package's name, a paleturquoise node for that segment,
    the closing brace of the subgraph, and then an edge from the
    package's node to that node. *)
Theorem network_pass (cfg : Config) (st : State) (s : Schedule string) :
  validSchedule s ->
  let bp := basePath st in
  let boxed := subgraph cfg && negb (Strs.isEmpty bp) in
  let qualifies (entry : string * Package) :=
    negb (PathIds.isIgnored cfg bp entry.2)
    && hasPrefixes (ImportPath entry.2) (includedPackages cfg)
    && negb (Strs.HasPrefix (ImportPath entry.2) bp) in
  let block (entry : string * Package) :=
    let name := Strs.lastOf (Strs.Split entry.1 "/"%char) in
    [ LSubgraphHead name;
      LNode (bp +:+ ":" +:+ name) name "paleturquoise";
      LClose;
      LEdge (bp +:+ ":" +:+ entry.1) (bp +:+ ":" +:+ name) ] in
  let firstPass :=
    let out0 := println LDigraph [] in
    let out1 := if boxed then printSubgraphHead bp out0 else out0 in
    let out2 := (PathIds.mainLoop cfg st (rangePkgs s (pkgs st)) out1).1 in
    if boxed then println LClose out2 else out2 in
  exists order,
    order ≡ₚ (if networkSubgraphs cfg
              then List.filter qualifies (map_to_list (pkgs st))
              else [])
    /\ PathIds.render cfg st s = firstPass ++ flat_map block order ++ [LClose].
Proof.
  intros [Hpkgs Hnet] bp boxed qualifies block firstPass.
  pose proof (Hnet (networkOf (PathView.isNetwork cfg st) id (rangePkgs s (pkgs st)) ∅))
    as Hrange.
  rewrite (networkOf_entries _ _ _ _ (Hpkgs _)) in Hrange.
  apply Permutation_map_inv in Hrange as (order & Heq & Hperm).
  exists order. split.
  - rewrite <- Hperm. destruct (networkSubgraphs cfg) eqn:Hon.
    + rewrite (List.filter_ext _ qualifies); [done|].
      intros entry. unfold PathView.isNetwork, qualifies. rewrite Hon. fold bp.
      by rewrite andb_true_r.
    + rewrite filter_none; [done|].
      intros entry. unfold PathView.isNetwork. rewrite Hon.
      by rewrite andb_false_r.
  - rewrite render_lines, Heq. unfold firstPass, PathIds.mainLoop.
    rewrite mainLoop_lines. simpl. fold bp. fold boxed.
    rewrite flat_map_fmap.
    unfold println, printSubgraphHead.
    destruct boxed; simpl; by rewrite <- ?app_assoc.
Qed.

(** ** The walk over the imports *)

Lemma walkImports_good (I : State -> Prop) (F : string -> State -> Prop)
    (O : State -> Prop) (rec : string -> State -> Outcome)
    (imps : list string) (st : State) :
  (forall imp st', I st' -> pkgs st' !! imp = None -> good I F O (rec imp st')) ->
  I st -> good I F O (walkImports rec imps st).
Proof.
  intros Hrec. revert st. induction imps as [|imp rest IH]; intros st Hst; simpl.
  - done.
  - destruct (pkgs st !! imp) eqn:Hlook; [by apply IH|].
    specialize (Hrec imp st Hst Hlook).
    destruct (rec imp st) as [st'|err st'|st']; simpl in *.
    + by apply IH.
    + done.
    + done.
Qed.

(** More fuel does not change an outcome that is not [OutOfFuel]. *)
Lemma walkImports_more (rec1 rec2 : string -> State -> Outcome)
    (imps : list string) (st : State) :
  (forall imp st', returned (rec1 imp st') -> rec2 imp st' = rec1 imp st') ->
  returned (walkImports rec1 imps st) ->
  walkImports rec2 imps st = walkImports rec1 imps st.
Proof.
  intros Hrec. revert st. induction imps as [|imp rest IH]; intros st; simpl; [done|].
  destruct (pkgs st !! imp); [apply IH|].
  intros Hret. rewrite Hrec.
  - destruct (rec1 imp st); [by apply IH|done|done].
  - by destruct (rec1 imp st).
Qed.

Lemma extends_refl (st : State) : extends st st.
Proof. split; [done|done|by exists []]. Qed.

Lemma extends_trans (st1 st2 st3 : State) :
  extends st1 st2 -> extends st2 st3 -> extends st1 st3.
Proof.
  intros [Hp1 Hb1 [l1 Hl1]] [Hp2 Hb2 [l2 Hl2]]. split.
  - set_solver.
  - intros Hne. rewrite Hb2; [by apply Hb1|]. by rewrite Hb1.
  - exists (l2 ++ l1). by rewrite Hl2, Hl1, app_assoc.
Qed.

Lemma walkImports_extends (rec : string -> State -> Outcome)
    (imps : list string) (st : State) :
  (forall imp st', extends st' (stateOf (rec imp st'))) ->
  extends st (stateOf (walkImports rec imps st)).
Proof.
  intros Hrec.
  assert (Hg : good (extends st) (fun _ => extends st) (extends st)
                 (walkImports rec imps st)).
  { apply walkImports_good; [|apply extends_refl]. intros imp st' Hst' _.
    specialize (Hrec imp st').
    destruct (rec imp st'); simpl in *; by eapply extends_trans. }
  by destruct (walkImports rec imps st).
Qed.

Lemma isEmpty_true (s : string) : Strs.isEmpty s = true <-> s = EmptyString.
Proof. by destruct s. Qed.

Lemma isEmpty_false (s : string) : Strs.isEmpty s = false <-> s <> EmptyString.
Proof. by destruct s. Qed.

(** A run that returns with some fuel returns the same with any other
    fuel that lets it return. *)
Lemma fuel_agree (run : nat -> Outcome) :
  (forall fuel, returned (run fuel) -> run (S fuel) = run fuel) ->
  forall fuel1 fuel2, returned (run fuel1) -> returned (run fuel2) -> run fuel1 = run fuel2.
Proof.
  intros Hmore.
  assert (Hup : forall k fuel, returned (run fuel) -> run (k + fuel)%nat = run fuel).
  { induction k as [|k IHk]; intros fuel Hret; [done|].
    change (S k + fuel)%nat with (S (k + fuel)).
    rewrite Hmore; rewrite IHk; done. }
  intros fuel1 fuel2 H1 H2. destruct (Nat.le_ge_cases fuel1 fuel2) as [Hle|Hle].
  - replace fuel2 with ((fuel2 - fuel1) + fuel1)%nat by lia. by rewrite Hup.
  - replace fuel1 with ((fuel1 - fuel2) + fuel2)%nat by lia. by rewrite Hup.
Qed.

Section PathResolve.
Import PathIds.
Variable cfg : Config.
Variable build_Import : Provider.
Variable root : string.

Lemma processPackage_more (fuel : nat) :
  forall (pkgName : string) (st : State),
    returned (processPackage cfg build_Import fuel root pkgName st) ->
    processPackage cfg build_Import (S fuel) root pkgName st =
    processPackage cfg build_Import fuel root pkgName st.
Proof.
  induction fuel as [|fuel IH]; intros pkgName st; [done|].
  cbn [processPackage].
  destruct (isSet (ignored cfg) pkgName); [done|].
  destruct (build_Import pkgName root) as [pkg|cause]; [|done].
  cbn [basePath pkgs imported].
  destruct (isIgnored cfg (basePath st) pkg); [done|].
  destruct (Goroot pkg); [done|].
  apply walkImports_more. intros imp st'. apply IH.
Qed.

Lemma processPackage_fuel (fuel1 fuel2 : nat) (pkgName : string) (st : State) :
  returned (processPackage cfg build_Import fuel1 root pkgName st) ->
  returned (processPackage cfg build_Import fuel2 root pkgName st) ->
  processPackage cfg build_Import fuel1 root pkgName st =
  processPackage cfg build_Import fuel2 root pkgName st.
Proof.
  apply (fuel_agree (fun fuel => processPackage cfg build_Import fuel root pkgName st)).
  intros fuel. apply processPackage_more.
Qed.

(** Whatever the fuel and however the call ends, the state it leaves
    extends the one it found. *)
Lemma processPackage_extends (fuel : nat) :
  forall (pkgName : string) (st : State),
    extends st (stateOf (processPackage cfg build_Import fuel root pkgName st)).
Proof.
  induction fuel as [|fuel IH]; intros pkgName st; [apply extends_refl|].
  cbn [processPackage].
  destruct (isSet (ignored cfg) pkgName); [apply extends_refl|].
  set (st1 := {| pkgs := pkgs st; basePath := basePath st;
                 imported := pkgName :: imported st |}).
  assert (H1 : extends st st1).
  { split; [done|done|by exists [pkgName]]. }
  destruct (build_Import pkgName root) as [pkg|cause]; [|exact H1].
  destruct (isIgnored cfg (basePath st1) pkg); [exact H1|].
  match goal with |- context [walkImports _ _ ?s] => set (st2 := s) end.
  assert (H2 : extends st st2).
  { split; simpl.
    - rewrite dom_insert. set_solver.
    - intros Hne. apply isEmpty_false in Hne. by rewrite Hne.
    - by exists [pkgName]. }
  destruct (Goroot pkg); [exact H2|].
  eapply extends_trans; [exact H2|]. by apply walkImports_extends.
Qed.

Lemma processPackage_walk_extends (fuel : nat) (imps : list string) (st : State) :
  extends st (stateOf (walkImports (processPackage cfg build_Import fuel root) imps st)).
Proof. apply walkImports_extends, processPackage_extends. Qed.

End PathResolve.

(** ** The graph builder of the variant with path identifiers *)

(** The foreign interop name is in the exact ignore set whatever the
    flags. *)
Lemma configure_ignores_C (u : Strs.Unicode) (flags : Flags) :
  isSet (ignored (configure u flags)) "C" = true.
Proof.
  unfold configure. simpl. destruct (Strs.isEmpty (flag_i flags)); [done|].
  by apply isSet_setAll_keeps.
Qed.

Section PathBasePath.
Import PathIds.
Variable cfg : Config.
Variable build_Import : Provider.
Variable root : string.


(** Every path handed to [build.Import] so far was found, unless the
    call failed: then the path at the head of [imported] was not, and
    the error names it and the cause. *)
Lemma processPackage_imported (fuel : nat) :
  forall (pkgName : string) (st : State),
    Forall (resolves build_Import root) (imported st) ->
    good (fun st' => Forall (resolves build_Import root) (imported st'))
         (fun err st' => exists p cause l,
            imported st' = p :: l /\ Forall (resolves build_Import root) l /\
            build_Import p root = ImportErr cause /\ err = importError p cause)
         (fun st' => Forall (resolves build_Import root) (imported st'))
         (processPackage cfg build_Import fuel root pkgName st).
Proof.
  induction fuel as [|fuel IH]; intros pkgName st Hst; [done|].
  cbn [processPackage].
  destruct (isSet (ignored cfg) pkgName); [done|].
  destruct (build_Import pkgName root) as [pkg|cause] eqn:Hres.
  - assert (H1 : Forall (resolves build_Import root) (pkgName :: imported st)).
    { constructor; [by exists pkg|done]. }
    cbn [basePath]. destruct (isIgnored cfg (basePath st) pkg); [exact H1|].
    destruct (Goroot pkg); [exact H1|].
    apply walkImports_good; [|exact H1]. intros imp st' Hst' _. by apply IH.
  - simpl. by exists pkgName, cause, (imported st).
Qed.

End PathBasePath.


(** ** Where the base path comes from *)



Section PathInference.
Import PathIds.
Variable cfg : Config.
Variable build_Import : Provider.
Variable root : string.






End PathInference.

(** C9: when [build.Import] fails on a path that the build phase hands
    to it, [processPackage] returns the error that names that path and
    the cause, and [main] ends with that message and has written nothing
    to standard output.  Standard output is written only after
    [processPackage] returned without error, every path it handed to
    [build.Import] having been found. *)
Theorem resolution_failure_is_fatal (u : Strs.Unicode) (build_Import : Provider)
    (flags : Flags)
    (cwd arg : string) (s : Schedule string) (fuel : nat) :
  let o := PathIds.processPackage (configure u flags) build_Import fuel cwd arg state0 in
  let run := PathIds.main u build_Import (GetwdOk cwd) flags [arg] s fuel in
  (forall p cause,
     In p (imported (stateOf o)) ->
     build_Import p cwd = ImportErr cause ->
     let err := "failed to import " +:+ p +:+ ": " +:+ cause in
     o = Failed err (stateOf o)
     /\ run = Some {| stdout := []; fatal := Some err |})
  /\ (forall proc,
        run = Some proc -> stdout proc <> [] ->
        exists st, o = Done st /\ fatal proc = None
                   /\ Forall (resolves build_Import cwd) (imported st)).
Proof.
  intros o run.
  pose proof (processPackage_imported (configure u flags) build_Import cwd fuel arg state0) as Hlog.
  fold o in Hlog. specialize (Hlog (Forall_nil_2 _)).
  assert (Hno : forall l p cause, Forall (resolves build_Import cwd) l -> In p l ->
                  build_Import p cwd = ImportErr cause -> False).
  { intros l p cause Hall Hin Herr. rewrite Forall_forall in Hall.
    apply list_elem_of_In in Hin. destruct (Hall p Hin) as [pkg Hpkg]. congruence. }
  split.
  - intros p cause Hin Herr err. unfold run, PathIds.main. fold o.
    destruct o as [st|e st|st]; simpl in *.
    + destruct (Hno _ _ _ Hlog Hin Herr).
    + destruct Hlog as (p' & cause' & l & Himp & Hall & Herr' & ->).
      rewrite Himp in Hin. destruct Hin as [<-|Hin].
      * assert (cause' = cause) as -> by congruence. done.
      * destruct (Hno _ _ _ Hall Hin Herr).
    + destruct (Hno _ _ _ Hlog Hin Herr).
  - intros proc Hrun Hout. unfold run, PathIds.main in Hrun. fold o in Hrun.
    destruct o as [st|e st|st]; simpl in *.
    + injection Hrun as <-. by exists st.
    + injection Hrun as <-. done.
    + done.
Qed.

(** ** Termination of the graph builder *)

Section PathTermination.
Import PathIds.
Variable cfg : Config.
Variable build_Import : Provider.
Variable root : string.

(** The package [build.Import] finds under a name has that name as its
    import path. *)
Hypothesis canonical :
  forall pkgName pkg, build_Import pkgName root = ImportOk pkg -> ImportPath pkg = pkgName.

(** The names under which [build.Import] finds a package are all in
    the finite set [U]. *)
Variable U : gset string.
Hypothesis finite :
  forall pkgName pkg, build_Import pkgName root = ImportOk pkg -> pkgName ∈ U.

Lemma insert_shrinks (st : State) (pkgName : string) (pkg : Package) :
  pkgName ∈ U -> pkgs st !! pkgName = None ->
  size (U ∖ dom (<[pkgName := pkg]> (pkgs st))) < size (U ∖ dom (pkgs st)).
Proof.
  intros HU Hnone. apply not_elem_of_dom in Hnone.
  apply subset_size. rewrite dom_insert_L. split.
  - intros x. rewrite !elem_of_difference, elem_of_union. tauto.
  - intros Hsub. specialize (Hsub pkgName).
    rewrite !elem_of_difference, elem_of_union, elem_of_singleton in Hsub.
    tauto.
Qed.

Lemma extends_shrinks (st st' : State) :
  extends st st' -> size (U ∖ dom (pkgs st')) <= size (U ∖ dom (pkgs st)).
Proof.
  intros [Hdom _ _]. apply subseteq_size. intros x.
  rewrite !elem_of_difference. intros [Hx Hn]. split; [done|]. auto.
Qed.

(** As many calls deep as there are names of [U] not yet in [pkgs],
    and one more, is deep enough. *)
Lemma processPackage_returns (m : nat) :
  forall (pkgName : string) (st : State),
    size (U ∖ dom (pkgs st)) <= m ->
    pkgs st !! pkgName = None ->
    returned (processPackage cfg build_Import (S m) root pkgName st).
Proof.
  induction m as [|m IH]; intros pkgName st Hsize Hnone;
    cbn [processPackage];
    (destruct (isSet (ignored cfg) pkgName); [done|]);
    (destruct (build_Import pkgName root) as [pkg|cause] eqn:Hres; [|done]);
    cbn [basePath pkgs imported];
    (destruct (isIgnored cfg (basePath st) pkg); [done|]);
    (destruct (Goroot pkg); [done|]);
    rewrite (canonical _ _ Hres);
    pose proof (insert_shrinks st pkgName pkg (finite _ _ Hres) Hnone) as Hlt.
  - lia.
  - match goal with |- context [walkImports ?r ?i ?s] => set (st2 := s) end.
    assert (Hg : good (fun st' => size (U ∖ dom (pkgs st')) <= m)
                      (fun _ _ => True) (fun _ => False)
                      (walkImports (processPackage cfg build_Import (S m) root)
                         (Imports pkg) st2)).
    { apply walkImports_good; [|simpl; lia].
      intros imp st' Hst' Himp. specialize (IH imp st' Hst' Himp).
      pose proof (processPackage_extends cfg build_Import root (S m) imp st') as Hext.
      apply extends_shrinks in Hext.
      destruct (processPackage cfg build_Import (S m) root imp st'); simpl in *;
        [lia|done|done]. }
    by destruct (walkImports _ _ _).
Qed.

(** X24: when [build.Import] finds every package under its own import
    path and finds a package under finitely many names only, the
    resolution from the empty state returns, cycles among the imports
    or not: a depth of one more than the number of names is enough. *)
Theorem resolution_terminates (pkgName : string) :
  exists fuel,
    fuel = S (size U) /\
    returned (processPackage cfg build_Import fuel root pkgName state0).
Proof.
  exists (S (size U)). split; [done|].
  apply processPackage_returns; [|done].
  apply subseteq_size. intros x. rewrite elem_of_difference. tauto.
Qed.

End PathTermination.

(** ** The registry of integer identifiers *)

Lemma wrapInt_small (z : Z) : (- 2 ^ 63 <= z < 2 ^ 63)%Z -> Counter.wrapInt z = z.
Proof. intros H. unfold Counter.wrapInt. rewrite Z.mod_small; lia. Qed.

Section Registry.
Import Counter CounterView.
Variable N : gset string.
Hypothesis bound : (Z.of_nat (size N) < 2 ^ 63)%Z.

Lemma regOk_registry0 : regOk N registry0.
Proof.
  split; simpl.
  - by rewrite map_size_empty.
  - by rewrite dom_empty.
  - intros k v H. by rewrite lookup_empty in H.
  - intros k1 k2 v H. by rewrite lookup_empty in H.
Qed.

(** [getId] keeps the registry sound, only adds to it, and the name
    has the identifier returned from then on. *)
Lemma getId_sound (name : string) (g g' : Registry) (id : Z) :
  regOk N g -> name ∈ N -> getId name g = (id, g') ->
  regOk N g' /\ ids g ⊆ ids g' /\ ids g' !! name = Some id.
Proof.
  intros [Hnext Hdom Hrange Hinj] HN. unfold getId.
  destruct (ids g !! name) as [v|] eqn:Hlook; intros [= <- <-].
  - split; [by split|]. by split.
  - assert (Hlt : (size (ids g) < size N)%nat).
    { rewrite <- (size_dom (ids g)). apply subset_size. split; [done|].
      intros Hsub. apply not_elem_of_dom in Hlook. by apply Hlook, Hsub. }
    assert (Hwrap : wrapInt (nextId g + 1) = (nextId g + 1)%Z).
    { apply wrapInt_small. lia. }
    split; [split; simpl|split].
    + rewrite Hwrap, Hnext, map_size_insert_None by done. lia.
    + rewrite dom_insert. intros x. rewrite elem_of_union, elem_of_singleton.
      intros [->|Hx]; [done|by apply Hdom].
    + intros k v H. rewrite Hwrap. destruct (decide (name = k)) as [<-|Hne].
      * rewrite lookup_insert_eq in H. injection H as <-. lia.
      * rewrite lookup_insert_ne in H by done. apply Hrange in H. lia.
    + intros k1 k2 v H1 H2.
      destruct (decide (name = k1)) as [<-|Hne1];
        destruct (decide (name = k2)) as [<-|Hne2]; [done| | |].
      * rewrite lookup_insert_eq in H1. rewrite lookup_insert_ne in H2 by done.
        injection H1 as <-. apply Hrange in H2. lia.
      * rewrite lookup_insert_eq in H2. rewrite lookup_insert_ne in H1 by done.
        injection H2 as <-. apply Hrange in H1. lia.
      * rewrite lookup_insert_ne in H1, H2 by done. by eapply Hinj.
    + simpl. by apply insert_subseteq.
    + simpl. by rewrite lookup_insert_eq.
Qed.

Lemma getId_known (name : string) (g : Registry) (id : Z) :
  ids g !! name = Some id -> getId name g = (id, g).
Proof. intros H. unfold getId. by rewrite H. Qed.

End Registry.

Section Encoding.
Import Counter CounterView.

Lemma idOf_lookup (ids : gmap string Z) (k : string) (v : Z) :
  ids !! k = Some v -> idOf ids k = v.
Proof. intros H. unfold idOf. by rewrite H. Qed.

Lemma idOf_mono (ids ids' : gmap string Z) (k : string) :
  ids ⊆ ids' -> is_Some (ids !! k) -> idOf ids' k = idOf ids k.
Proof.
  intros Hsub [v Hv]. rewrite (idOf_lookup _ _ _ Hv).
  apply idOf_lookup. by eapply lookup_weaken.
Qed.

Lemma covered_mono (ids ids' : gmap string Z) (l : Line string) :
  ids ⊆ ids' -> covered ids l -> covered ids' l.
Proof.
  intros Hsub Hcov. unfold covered. eapply Forall_impl; [exact Hcov|].
  intros k [v Hv]. exists v. by eapply lookup_weaken.
Qed.

Lemma encode_mono (ids ids' : gmap string Z) (l : Line string) :
  ids ⊆ ids' -> covered ids l -> encode ids' l = encode ids l.
Proof.
  intros Hsub Hcov. unfold covered in Hcov.
  destruct l; simpl in *; try done.
  - apply Forall_cons in Hcov as [H1 _]. unfold encode. simpl.
    by rewrite (idOf_mono _ _ _ Hsub H1).
  - apply Forall_cons in Hcov as [H1 Hcov]. apply Forall_cons in Hcov as [H2 _].
    unfold encode. simpl.
    by rewrite (idOf_mono _ _ _ Hsub H1), (idOf_mono _ _ _ Hsub H2).
Qed.

Lemma encode_all_mono (ids ids' : gmap string Z) (ls : list (Line string)) :
  ids ⊆ ids' -> Forall (covered ids) ls ->
  List.map (encode ids') ls = List.map (encode ids) ls
  /\ Forall (covered ids') ls.
Proof.
  intros Hsub Hall. split.
  - induction Hall as [|l ls Hl _ IH]; [done|]. simpl.
    by rewrite IH, (encode_mono _ _ _ Hsub Hl).
  - eapply Forall_impl; [exact Hall|]. intros l. by apply covered_mono.
Qed.

End Encoding.

Section Simulation.
Import Counter CounterView.
Variable N : gset string.
Hypothesis bound : (Z.of_nat (size N) < 2 ^ 63)%Z.

Lemma sim_nil (g : Registry) (out : list (Line Z)) : regOk N g -> sim N g out [] g out.
Proof.
  intros Hg. split; [done|]. split; [done|]. split; [done|].
  simpl. by rewrite app_nil_r.
Qed.

Lemma sim_app (g g1 g2 : Registry) (out out1 out2 : list (Line Z))
    (abs1 abs2 : list (Line string)) :
  sim N g out abs1 g1 out1 -> sim N g1 out1 abs2 g2 out2 ->
  sim N g out (abs1 ++ abs2) g2 out2.
Proof.
  intros (_ & Hsub1 & Hcov1 & ->) (Hok & Hsub2 & Hcov2 & ->).
  destruct (encode_all_mono _ _ _ Hsub2 Hcov1) as [Henc Hcov1'].
  split; [done|]. split; [by etrans|]. split; [by apply Forall_app|].
  by rewrite map_app, Henc, app_assoc.
Qed.

(** A call of [getId] whose result is not printed. *)
Lemma sim_getId (name : string) (g g' : Registry) (id : Z) (out : list (Line Z)) :
  regOk N g -> name ∈ N -> getId name g = (id, g') ->
  sim N g out [] g' out /\ ids g' !! name = Some id.
Proof.
  intros Hg HN Hget. destruct (getId_sound N bound _ _ _ _ Hg HN Hget) as (Hok & Hsub & Hid).
  split; [|done]. split; [done|]. split; [done|]. split; [done|].
  simpl. by rewrite app_nil_r.
Qed.

Lemma sim_line (g : Registry) (out : list (Line Z)) (l : Line string) :
  regOk N g -> covered (ids g) l ->
  sim N g out [l] g (out ++ [encode (ids g) l]).
Proof.
  intros Hg Hcov. split; [done|]. split; [done|]. split; [|done].
  by constructor.
Qed.

Variable cfg : Config.
Variable st : State.
Hypothesis closed : forall imp q, pkgs st !! imp = Some q -> imp ∈ N.

Lemma printImports_sim (pkgName : string) (pkgId : Z) (imps : list string) :
  forall (g : Registry) (out : list (Line Z)) (g' : Registry) (out' : list (Line Z)),
    regOk N g -> ids g !! pkgName = Some pkgId ->
    printImports cfg st pkgId imps (g, out) = (g', out') ->
    sim N g out (importLines cfg st pkgName imps) g' out'.
Proof.
  induction imps as [|imp rest IH]; intros g out g' out' Hg Hid; simpl.
  - intros [= <- <-]. by apply sim_nil.
  - unfold importLines. simpl. fold (importLines cfg st pkgName rest).
    destruct (pkgs st !! imp) as [impPkg|] eqn:Hlook; [|by apply IH].
    destruct (isIgnored cfg (basePath st) impPkg); [by apply IH|].
    destruct (getId imp g) as [impId g1] eqn:Hget. intros Hrest.
    destruct (sim_getId imp g g1 impId out Hg (closed _ _ Hlook) Hget)
      as [(Hg1 & Hsub1 & _ & _) Himp].
    assert (Hid1 : ids g1 !! pkgName = Some pkgId) by by eapply lookup_weaken.
    eapply sim_app; [|by apply (IH g1 _ g' out' Hg1 Hid1)].
    split; [done|]. split; [done|]. split.
    + repeat constructor; by eexists.
    + unfold printEdge, encode. simpl.
      by rewrite (idOf_lookup _ _ _ Hid1), (idOf_lookup _ _ _ Himp).
Qed.

End Simulation.

Section SimulationLoops.
Import Counter CounterView.
Variable N : gset string.
Hypothesis bound : (Z.of_nat (size N) < 2 ^ 63)%Z.
Variable cfg : Config.
Variable st : State.
Hypothesis closed : forall imp q, pkgs st !! imp = Some q -> imp ∈ N.

Lemma sim_node (name color : string) (id : Z) (g g' : Registry) (out : list (Line Z)) :
  regOk N g -> name ∈ N -> getId name g = (id, g') ->
  sim N g out [LNode name name color] g' (out ++ [LNode id name color])
  /\ ids g' !! name = Some id.
Proof.
  intros Hg HN Hget.
  destruct (sim_getId N bound name g g' id out Hg HN Hget) as [Hsim Hid].
  split; [|done].
  replace [LNode name name color] with ([] ++ [LNode name name color]) by done.
  eapply sim_app; [exact Hsim|].
  destruct Hsim as (Hg' & _).
  replace (LNode id name color) with (encode (ids g') (LNode name name color)).
  - apply sim_line; [done|]. repeat constructor. by eexists.
  - unfold encode. simpl. by rewrite (idOf_lookup _ _ _ Hid).
Qed.

(** One turn of the loop over [pkgs] in [CounterNet]. *)
Lemma renderPackageNet_sim (entry : string * Package) (g g' : Registry)
    (out out' : list (Line Z)) (net net' : gmap string Z) :
  regOk N g -> entry.1 ∈ N ->
  CounterNet.renderPackage cfg st (g, out, net) entry = (g', out', net') ->
  sim N g out (packageLinesNet cfg st entry) g' out'
  /\ is_Some (ids g' !! entry.1)
  /\ net' = networkOf (isNetwork cfg st) (idOf (ids g')) [entry] net.
Proof.
  destruct entry as [pkgName pkg]. simpl. intros Hg HN.
  unfold CounterNet.renderPackage, packageLinesNet, networkOf, isNetwork. simpl.
  destruct (getId pkgName g) as [pkgId g1] eqn:Hget.
  destruct (isIgnored cfg (basePath st) pkg).
  - intros [= <- <- <-].
    destruct (sim_getId N bound pkgName g g1 pkgId out Hg HN Hget) as [Hsim Hid].
    split; [done|]. split; [by eexists|done].
  - destruct (sim_node pkgName (nodeColor cfg pkg) pkgId g g1 out Hg HN Hget)
      as [Hnode Hid].
    unfold CounterNet.printNode. rewrite (getId_known _ _ _ Hid).
    destruct (printImports cfg st pkgId (Imports pkg)
                (g1, out ++ [LNode pkgId pkgName (nodeColor cfg pkg)]))
      as [g3 out3] eqn:Himp.
    assert (Hg1 : regOk N g1) by apply Hnode.
    pose proof (printImports_sim N bound cfg st closed pkgName pkgId (Imports pkg)
                  g1 _ g3 out3 Hg1 Hid Himp) as Hwalk.
    assert (Hid3 : ids g3 !! pkgName = Some pkgId).
    { destruct Hwalk as (_ & Hsub & _). by eapply lookup_weaken. }
    assert (Hsim : sim N g out
              (LNode pkgName pkgName (nodeColor cfg pkg)
                 :: importLines cfg st pkgName (Imports pkg)) g3 out3).
    { exact (sim_app N _ _ _ _ _ _ [_] _ Hnode Hwalk). }
    simpl. destruct (networkSubgraphs cfg && _); intros [= <- <- <-];
      (split; [done|]); (split; [by eexists|]); [|done].
    by rewrite (idOf_lookup _ _ _ Hid3).
Qed.

(** The loop over [pkgs] in [CounterNet]. *)
Lemma mainLoopNet_sim (order : list (string * Package)) :
  forall (g g' : Registry) (out out' : list (Line Z)) (net net' : gmap string Z),
    regOk N g -> (forall entry, In entry order -> entry.1 ∈ N) ->
    foldl (CounterNet.renderPackage cfg st) (g, out, net) order = (g', out', net') ->
    sim N g out (flat_map (packageLinesNet cfg st) order) g' out'
    /\ (forall entry, In entry order -> is_Some (ids g' !! entry.1))
    /\ net' = networkOf (isNetwork cfg st) (idOf (ids g')) order net.
Proof.
  induction order as [|entry rest IH]; intros g g' out out' net net' Hg HN.
  - simpl. intros [= <- <- <-]. split; [by apply sim_nil|]. by split.
  - cbn [foldl flat_map].
    destruct (CounterNet.renderPackage cfg st (g, out, net) entry)
      as [[g1 out1] net1] eqn:Hstep.
    intros Hrest.
    destruct (renderPackageNet_sim entry g g1 out out1 net net1 Hg
                (HN _ (or_introl eq_refl)) Hstep) as (Hsim1 & Hsome1 & Hnet1).
    assert (Hg1 : regOk N g1) by apply Hsim1.
    destruct (IH g1 g' out1 out' net1 net' Hg1
                (fun e He => HN e (or_intror He)) Hrest) as (Hsim2 & Hsome2 & Hnet2).
    assert (Hsub : ids g1 ⊆ ids g') by apply Hsim2.
    split; [by eapply sim_app|]. split.
    + intros e [<-|He]; [|by apply Hsome2].
      destruct Hsome1 as [v Hv]. exists v. by eapply lookup_weaken.
    + rewrite Hnet2, Hnet1. unfold networkOf. simpl.
      by rewrite (idOf_mono _ _ _ Hsub Hsome1).
Qed.

(** One turn of the loop over [networkPackages] in [CounterNet]. *)
Lemma renderNetwork_sim (pkgName : string) (pkgId : Z) (g g' : Registry)
    (out out' : list (Line Z)) :
  regOk N g -> lastSegment pkgName ∈ N -> ids g !! pkgName = Some pkgId ->
  CounterNet.renderNetwork (g, out) (pkgName, pkgId) = (g', out') ->
  sim N g out (networkLines pkgName) g' out'.
Proof.
  intros Hg HN Hid. unfold CounterNet.renderNetwork, CounterNet.printNode.
  fold (lastSegment pkgName). set (name := lastSegment pkgName) in *.
  destruct (getId name g) as [nameId g2] eqn:Hget.
  destruct (getId_sound N bound name g g2 nameId Hg HN Hget) as (Hg2 & Hsub & Hname).
  rewrite (getId_known _ _ _ Hname). intros [= <- <-].
  assert (Hid2 : ids g2 !! pkgName = Some pkgId) by by eapply lookup_weaken.
  split; [done|]. split; [done|]. split.
  - unfold networkLines. fold name. repeat constructor; by eexists.
  - unfold networkLines, encode, printEdge, println, printSubgraphHead.
    fold name. simpl.
    rewrite (idOf_lookup _ _ _ Hid2), (idOf_lookup _ _ _ Hname).
    by rewrite <- !app_assoc.
Qed.

(** The loop over [networkPackages] in [CounterNet]. *)
Lemma networkLoop_sim (order : list (string * Z)) :
  forall (g g' : Registry) (out out' : list (Line Z)),
    regOk N g ->
    (forall k v, In (k, v) order -> lastSegment k ∈ N /\ ids g !! k = Some v) ->
    foldl CounterNet.renderNetwork (g, out) order = (g', out') ->
    sim N g out (flat_map networkLines (List.map fst order)) g' out'.
Proof.
  induction order as [|[k v] rest IH]; intros g g' out out' Hg Hall.
  - simpl. intros [= <- <-]. by apply sim_nil.
  - cbn [foldl flat_map List.map fst].
    destruct (CounterNet.renderNetwork (g, out) (k, v)) as [g1 out1] eqn:Hstep.
    intros Hrest.
    destruct (Hall k v (or_introl eq_refl)) as [HkN Hkv].
    pose proof (renderNetwork_sim k v g g1 out out1 Hg HkN Hkv Hstep) as Hsim1.
    assert (Hg1 : regOk N g1) by apply Hsim1.
    assert (Hsub : ids g ⊆ ids g1) by apply Hsim1.
    eapply sim_app; [exact Hsim1|]. apply IH; [done| |done].
    intros k' v' Hin. destruct (Hall k' v' (or_intror Hin)) as [H1 H2].
    split; [done|]. by eapply lookup_weaken.
Qed.

(** One turn of the loop over [pkgs] in [CounterIds]. *)
Lemma renderPackageIds_sim (entry : string * Package) (g g' : Registry)
    (out out' : list (Line Z)) :
  regOk N g -> entry.1 ∈ N ->
  CounterIds.renderPackage cfg st (g, out) entry = (g', out') ->
  sim N g out (packageLines cfg st entry) g' out'.
Proof.
  destruct entry as [pkgName pkg]. simpl. intros Hg HN.
  unfold CounterIds.renderPackage, packageLines. simpl.
  destruct (getId pkgName g) as [pkgId g1] eqn:Hget.
  destruct (isIgnored cfg (basePath st) pkg).
  - intros [= <- <-]. by apply (sim_getId N bound pkgName g g1 pkgId out).
  - destruct (sim_node pkgName (nodeColor cfg pkg) pkgId g g1 out Hg HN Hget)
      as [Hnode Hid].
    destruct (Goroot pkg).
    + by intros [= <- <-].
    + intros Himp. assert (Hg1 : regOk N g1) by apply Hnode.
      pose proof (printImports_sim N bound cfg st closed pkgName pkgId (Imports pkg)
                    g1 _ g' out' Hg1 Hid Himp) as Hwalk.
      exact (sim_app N _ _ _ _ _ _ [_] _ Hnode Hwalk).
Qed.

(** The loop over [pkgs] in [CounterIds]. *)
Lemma mainLoopIds_sim (order : list (string * Package)) :
  forall (g g' : Registry) (out out' : list (Line Z)),
    regOk N g -> (forall entry, In entry order -> entry.1 ∈ N) ->
    foldl (CounterIds.renderPackage cfg st) (g, out) order = (g', out') ->
    sim N g out (flat_map (packageLines cfg st) order) g' out'.
Proof.
  induction order as [|entry rest IH]; intros g g' out out' Hg HN.
  - simpl. intros [= <- <-]. by apply sim_nil.
  - cbn [foldl flat_map].
    destruct (CounterIds.renderPackage cfg st (g, out) entry) as [g1 out1] eqn:Hstep.
    intros Hrest.
    pose proof (renderPackageIds_sim entry g g1 out out1 Hg
                  (HN _ (or_introl eq_refl)) Hstep) as Hsim1.
    assert (Hg1 : regOk N g1) by apply Hsim1.
    eapply sim_app; [exact Hsim1|].
    apply IH; [done| |done]. intros e He. apply HN. by right.
Qed.

End SimulationLoops.

(** ** Renaming the identifiers of one run into those of another *)

Section Renaming.
Import Counter CounterView.
Variables ids1 ids2 : gmap string Z.
Hypothesis inj1 : forall k1 k2 v, ids1 !! k1 = Some v -> ids1 !! k2 = Some v -> k1 = k2.
Hypothesis inj2 : forall k1 k2 v, ids2 !! k1 = Some v -> ids2 !! k2 = Some v -> k1 = k2.

Lemma nameOf_lookup (k : string) (v : Z) : ids1 !! k = Some v -> nameOf ids1 v = Some k.
Proof.
  intros Hk. unfold nameOf.
  destruct (List.find _ _) as [[k' v']|] eqn:Hfind; simpl.
  - apply find_some in Hfind as [Hin Hv]. apply bool_decide_eq_true in Hv.
    simpl in Hv. subst v'. apply list_elem_of_In, elem_of_map_to_list in Hin.
    f_equal. by eapply inj1.
  - assert (Hin : In (k, v) (map_to_list ids1)).
    { by apply list_elem_of_In, elem_of_map_to_list. }
    pose proof (find_none _ _ Hfind (k, v) Hin) as Hno.
    simpl in Hno. by rewrite bool_decide_eq_true_2 in Hno.
Qed.

Lemma renaming_idOf (k : string) :
  is_Some (ids1 !! k) -> renaming ids1 ids2 (idOf ids1 k) = idOf ids2 k.
Proof.
  intros [v Hv]. rewrite (idOf_lookup _ _ _ Hv). unfold renaming.
  by rewrite (nameOf_lookup _ _ Hv).
Qed.

Lemma renaming_encode (l : Line string) :
  covered ids1 l -> lineMap (renaming ids1 ids2) (encode ids1 l) = encode ids2 l.
Proof.
  unfold covered, encode. intros Hcov. destruct l; simpl in *; try done.
  - apply Forall_cons in Hcov as [H1 _]. by rewrite renaming_idOf.
  - apply Forall_cons in Hcov as [H1 Hcov]. apply Forall_cons in Hcov as [H2 _].
    by rewrite !renaming_idOf.
Qed.

Lemma in_encoded_ids (abs : list (Line string)) (x : Z) :
  In x (flat_map lineIds (List.map (encode ids1) abs)) ->
  exists l k, In l abs /\ In k (lineIds l) /\ x = idOf ids1 k.
Proof.
  intros Hx. apply in_flat_map in Hx as (c & Hc & Hx).
  apply in_map_iff in Hc as (l & <- & Hl). exists l.
  destruct l; simpl in *; try done.
  - destruct Hx as [<-|[]]. eexists. eauto.
  - destruct Hx as [<-|[<-|[]]]; eexists; eauto.
Qed.

(** Two outputs that encode the same lines over names, in any order,
    under two registries without clashes, are the same up to a
    renaming of the identifiers. *)
Lemma encoded_same (abs1 abs2 : list (Line string)) :
  Forall (covered ids1) abs1 -> Forall (covered ids2) abs2 -> abs1 ≡ₚ abs2 ->
  sameUpToRenaming (List.map (encode ids1) abs1) (List.map (encode ids2) abs2).
Proof.
  intros Hcov1 Hcov2 Hperm. exists (renaming ids1 ids2). split.
  - assert (Hcov21 : Forall (covered ids2) abs1) by by rewrite Hperm.
    assert (Hpoint : forall x, In x (flat_map lineIds (List.map (encode ids1) abs1)) ->
              exists k v, ids1 !! k = Some x /\ ids2 !! k = Some v
                          /\ renaming ids1 ids2 x = v).
    { intros x Hx. apply in_encoded_ids in Hx as (l & k & Hl & Hk & ->).
      apply list_elem_of_In in Hl. apply list_elem_of_In in Hk.
      rewrite Forall_forall in Hcov1, Hcov21.
      specialize (Hcov1 l Hl). specialize (Hcov21 l Hl). unfold covered in *.
      rewrite Forall_forall in Hcov1, Hcov21.
      destruct (Hcov1 k Hk) as [v1 Hv1]. destruct (Hcov21 k Hk) as [v2 Hv2].
      exists k, v2. rewrite renaming_idOf by by eexists.
      by rewrite (idOf_lookup _ _ _ Hv1), (idOf_lookup _ _ _ Hv2). }
    intros x y Hx Hy Heq.
    destruct (Hpoint x Hx) as (kx & vx & Hx1 & Hx2 & Hrx).
    destruct (Hpoint y Hy) as (ky & vy & Hy1 & Hy2 & Hry).
    assert (kx = ky) as -> by (eapply inj2; [exact Hx2|congruence]).
    congruence.
  - rewrite map_map. rewrite <- Hperm.
    apply Permutation_refl'. apply map_ext_in.
    intros l Hl. apply renaming_encode.
    rewrite Forall_forall in Hcov1. by apply Hcov1, list_elem_of_In.
Qed.

End Renaming.

(** ** The renderers of the variants with integer identifiers *)

Lemma size_list_to_set_le (l : list string) :
  size (list_to_set l : gset string) <= length l.
Proof.
  induction l as [|x l IH].
  - rewrite list_to_set_nil, size_empty. simpl. lia.
  - rewrite list_to_set_cons, size_union_alt, size_singleton. simpl.
    assert (size (list_to_set l ∖ {[x]} : gset string) <= size (list_to_set l : gset string)).
    { apply subseteq_size. intros y. rewrite elem_of_difference. tauto. }
    lia.
Qed.

Section CounterRender.
Import Counter CounterView.
Variable cfg : Config.
Variable st : State.

Lemma namesOf_size : size (namesOf st) <= 2 * size (pkgs st).
Proof.
  unfold namesOf. etrans; [apply size_list_to_set_le|].
  rewrite length_app, length_map, !length_fmap, length_map_to_list. lia.
Qed.

Lemma namesOf_key (k : string) (p : Package) : pkgs st !! k = Some p -> k ∈ (namesOf st).
Proof.
  intros Hk. unfold namesOf. apply elem_of_list_to_set, elem_of_app. left.
  apply list_elem_of_fmap. exists (k, p). split; [done|]. by apply elem_of_map_to_list.
Qed.

Lemma namesOf_segment (k : string) (p : Package) :
  pkgs st !! k = Some p -> lastSegment k ∈ (namesOf st).
Proof.
  intros Hk. unfold namesOf. apply elem_of_list_to_set, elem_of_app. right.
  apply list_elem_of_In, in_map, list_elem_of_In.
  apply list_elem_of_fmap. exists (k, p). split; [done|]. by apply elem_of_map_to_list.
Qed.

Hypothesis bound : (2 * Z.of_nat (size (pkgs st)) < 2 ^ 63)%Z.

Lemma namesOf_bound : (Z.of_nat (size (namesOf st)) < 2 ^ 63)%Z.
Proof. pose proof namesOf_size. lia. Qed.

(** [CounterIds.render] encodes its lines over names under a registry
    without clashes. *)
Lemma renderIds_encoded (range : gmap string Package -> list (string * Package)) :
  range (pkgs st) ≡ₚ map_to_list (pkgs st) ->
  exists g, regOk (namesOf st) g
    /\ Forall (covered (ids g)) (absRender cfg st (range (pkgs st)))
    /\ CounterIds.render cfg st range =
         List.map (encode (ids g)) (absRender cfg st (range (pkgs st))).
Proof.
  intros Hperm. unfold CounterIds.render, absRender.
  set (boxed := subgraph cfg && negb (Strs.isEmpty (basePath st))).
  set (out1 := if boxed then printSubgraphHead (basePath st) (println LDigraph [])
               else println LDigraph []).
  destruct (foldl (CounterIds.renderPackage cfg st) (registry0, out1) (range (pkgs st)))
    as [g out2] eqn:Hloop.
  assert (Hkeys : forall entry, In entry (range (pkgs st)) -> entry.1 ∈ (namesOf st)).
  { intros [k p] Hin. apply list_elem_of_In in Hin. rewrite Hperm in Hin.
    apply elem_of_map_to_list in Hin. by eapply namesOf_key. }
  destruct (mainLoopIds_sim (namesOf st) namesOf_bound cfg st namesOf_key (range (pkgs st))
              registry0 g out1 out2 (regOk_registry0 _) Hkeys Hloop)
    as (Hg & _ & Hcov & ->).
  exists g. split; [done|]. split.
  - repeat rewrite Forall_app. repeat split; try done.
    + by repeat constructor.
    + destruct boxed; by repeat constructor.
    + destruct boxed; by repeat constructor.
    + by repeat constructor.
  - unfold out1, println, printSubgraphHead. rewrite !map_app.
    destruct boxed; simpl; by rewrite <- ?app_assoc.
Qed.

(** The same for [CounterNet.render]; the names of the network
    subgraphs are those of the packages that pass [isNetwork]. *)
Lemma renderNet_encoded (s : Schedule Z) :
  validSchedule s ->
  exists g names, regOk (namesOf st) g
    /\ names ≡ₚ (List.filter (isNetwork cfg st) (map_to_list (pkgs st))).*1
    /\ Forall (covered (ids g)) (absRenderNet cfg st (rangePkgs s (pkgs st)) names)
    /\ CounterNet.render cfg st s =
         List.map (encode (ids g)) (absRenderNet cfg st (rangePkgs s (pkgs st)) names).
Proof.
  intros [Hpkgs Hnet]. unfold CounterNet.render, absRenderNet.
  set (boxed := subgraph cfg && negb (Strs.isEmpty (basePath st))).
  set (out1 := if boxed then printSubgraphHead (basePath st) (println LDigraph [])
               else println LDigraph []).
  set (order := rangePkgs s (pkgs st)).
  destruct (foldl (CounterNet.renderPackage cfg st) (registry0, out1, ∅) order)
    as [[g2 out2] net] eqn:Hloop.
  assert (Hkeys : forall entry, In entry order -> entry.1 ∈ (namesOf st)).
  { intros [k p] Hin. apply list_elem_of_In in Hin. unfold order in Hin.
    rewrite Hpkgs in Hin. apply elem_of_map_to_list in Hin. by eapply namesOf_key. }
  destruct (mainLoopNet_sim (namesOf st) namesOf_bound cfg st namesOf_key order
              registry0 g2 out1 out2 ∅ net (regOk_registry0 _) Hkeys Hloop)
    as (Hsim1 & Hsome & Hnetof).
  set (out3 := if boxed then println LClose out2 else out2).
  destruct (foldl CounterNet.renderNetwork (g2, out3) (rangeNet s net))
    as [g4 out4] eqn:Hloop2.
  assert (Hentries : rangeNet s net ≡ₚ
            (fun entry : string * Package => (entry.1, idOf (ids g2) entry.1))
              <$> List.filter (isNetwork cfg st) (map_to_list (pkgs st))).
  { rewrite Hnet, Hnetof. apply networkOf_entries, Hpkgs. }
  assert (Hall : forall k v, In (k, v) (rangeNet s net) ->
            lastSegment k ∈ (namesOf st) /\ ids g2 !! k = Some v).
  { intros k v Hin. apply list_elem_of_In in Hin. rewrite Hentries in Hin.
    apply list_elem_of_fmap in Hin as ([k' p] & [= -> ->] & Hin). simpl.
    rewrite filter_bool_filter in Hin. apply list_elem_of_filter in Hin as [_ Hin].
    assert (Hlook : pkgs st !! k' = Some p) by by apply elem_of_map_to_list.
    split; [by eapply namesOf_segment|].
    assert (Hin' : In (k', p) order).
    { apply list_elem_of_In. unfold order. rewrite Hpkgs. by apply elem_of_map_to_list. }
    destruct (Hsome _ Hin') as [v Hv]. simpl in Hv.
    by rewrite (idOf_lookup _ _ _ Hv). }
  assert (Hg2 : regOk (namesOf st) g2) by apply Hsim1.
  pose proof (networkLoop_sim (namesOf st) namesOf_bound (rangeNet s net)
                g2 g4 out3 out4 Hg2 Hall Hloop2) as Hsim2.
  exists g4, (List.map fst (rangeNet s net)).
  split; [apply Hsim2|]. split.
  { rewrite Hentries. change (List.map fst) with (fmap (M := list) (@fst string Z)).
    rewrite <- list_fmap_compose. done. }
  destruct Hsim1 as (_ & _ & Hcov1 & Hout2).
  destruct Hsim2 as (Hg4 & Hsub & Hcov2 & ->).
  destruct (encode_all_mono _ _ _ Hsub Hcov1) as [Henc Hcov1'].
  split.
  - repeat rewrite Forall_app. repeat split; try done.
    + by repeat constructor.
    + destruct boxed; by repeat constructor.
    + destruct boxed; by repeat constructor.
    + by repeat constructor.
  - unfold out3, println. rewrite Hout2. unfold out1, println, printSubgraphHead.
    rewrite !map_app, Henc.
    destruct boxed; simpl; by rewrite <- ?app_assoc.
Qed.

End CounterRender.

Section CounterResolve.
Variable cfg : Config.
Variable build_Import : Provider.
Variable root : string.

Lemma processPackageIds_more (fuel : nat) :
  forall (pkgName : string) (st : State),
    returned (CounterIds.processPackage cfg build_Import fuel root pkgName st) ->
    CounterIds.processPackage cfg build_Import (S fuel) root pkgName st =
    CounterIds.processPackage cfg build_Import fuel root pkgName st.
Proof.
  induction fuel as [|fuel IH]; intros pkgName st; [done|].
  cbn [CounterIds.processPackage].
  destruct (isSet (ignored cfg) pkgName); [done|].
  destruct (build_Import pkgName root) as [pkg|cause]; [|done].
  cbn [basePath pkgs imported].
  destruct (Counter.isIgnored cfg (basePath st) pkg); [done|].
  destruct (Goroot pkg); [done|].
  apply walkImports_more. intros imp st'. apply IH.
Qed.

Lemma processPackageIds_fuel (fuel1 fuel2 : nat) (pkgName : string) (st : State) :
  returned (CounterIds.processPackage cfg build_Import fuel1 root pkgName st) ->
  returned (CounterIds.processPackage cfg build_Import fuel2 root pkgName st) ->
  CounterIds.processPackage cfg build_Import fuel1 root pkgName st =
  CounterIds.processPackage cfg build_Import fuel2 root pkgName st.
Proof.
  apply (fuel_agree
    (fun fuel => CounterIds.processPackage cfg build_Import fuel root pkgName st)).
  intros fuel. apply processPackageIds_more.
Qed.

Lemma processPackageNet_more (fuel : nat) :
  forall (pkgName : string) (st : State),
    returned (CounterNet.processPackage cfg build_Import fuel root pkgName st) ->
    CounterNet.processPackage cfg build_Import (S fuel) root pkgName st =
    CounterNet.processPackage cfg build_Import fuel root pkgName st.
Proof.
  induction fuel as [|fuel IH]; intros pkgName st; [done|].
  cbn [CounterNet.processPackage].
  destruct (isSet (ignored cfg) pkgName); [done|].
  destruct (build_Import pkgName root) as [pkg|cause]; [|done].
  cbn [basePath pkgs imported].
  destruct (Counter.isIgnored cfg (basePath st) pkg); [done|].
  destruct (Goroot pkg); [done|].
  apply walkImports_more. intros imp st'. apply IH.
Qed.

Lemma processPackageNet_fuel (fuel1 fuel2 : nat) (pkgName : string) (st : State) :
  returned (CounterNet.processPackage cfg build_Import fuel1 root pkgName st) ->
  returned (CounterNet.processPackage cfg build_Import fuel2 root pkgName st) ->
  CounterNet.processPackage cfg build_Import fuel1 root pkgName st =
  CounterNet.processPackage cfg build_Import fuel2 root pkgName st.
Proof.
  apply (fuel_agree
    (fun fuel => CounterNet.processPackage cfg build_Import fuel root pkgName st)).
  intros fuel. apply processPackageNet_more.
Qed.

End CounterResolve.

(** ** Two runs on the same input *)

Lemma sameUpToRenaming_nil : CounterView.sameUpToRenaming [] [].
Proof. exists (fun z => z). split; [by intros x y []|done]. Qed.

Lemma render_Permutation (cfg : Config) (st : State) (s1 s2 : Schedule string) :
  validSchedule s1 -> validSchedule s2 ->
  PathIds.render cfg st s1 ≡ₚ PathIds.render cfg st s2.
Proof.
  intros [Hp1 Hn1] [Hp2 Hn2]. rewrite !render_lines.
  assert (Hord : rangePkgs s1 (pkgs st) ≡ₚ rangePkgs s2 (pkgs st)) by by rewrite Hp1, Hp2.
  rewrite (networkOf_Permutation _ _ _ _ Hord).
  apply Permutation_app_head, Permutation_app_head, Permutation_app.
  - by apply Permutation_flat_map.
  - apply Permutation_app_head, Permutation_app_tail, Permutation_flat_map.
    by rewrite Hn1, Hn2.
Qed.

Lemma renderIds_same (cfg : Config) (st : State)
    (range1 range2 : gmap string Package -> list (string * Package)) :
  range1 (pkgs st) ≡ₚ map_to_list (pkgs st) ->
  range2 (pkgs st) ≡ₚ map_to_list (pkgs st) ->
  (2 * Z.of_nat (size (pkgs st)) < 2 ^ 63)%Z ->
  CounterView.sameUpToRenaming (CounterIds.render cfg st range1)
                               (CounterIds.render cfg st range2).
Proof.
  intros H1 H2 Hbound.
  destruct (renderIds_encoded cfg st Hbound range1 H1) as (g1 & Hg1 & Hcov1 & ->).
  destruct (renderIds_encoded cfg st Hbound range2 H2) as (g2 & Hg2 & Hcov2 & ->).
  apply encoded_same; try done; try apply Hg1; try apply Hg2.
  unfold CounterView.absRender.
  apply Permutation_app_head, Permutation_app_head, Permutation_app_tail.
  apply Permutation_flat_map. by rewrite H1, H2.
Qed.

Lemma renderNet_same (cfg : Config) (st : State) (s1 s2 : Schedule Z) :
  validSchedule s1 -> validSchedule s2 ->
  (2 * Z.of_nat (size (pkgs st)) < 2 ^ 63)%Z ->
  CounterView.sameUpToRenaming (CounterNet.render cfg st s1) (CounterNet.render cfg st s2).
Proof.
  intros H1 H2 Hbound.
  destruct (renderNet_encoded cfg st Hbound s1 H1) as (g1 & n1 & Hg1 & Hn1 & Hcov1 & ->).
  destruct (renderNet_encoded cfg st Hbound s2 H2) as (g2 & n2 & Hg2 & Hn2 & Hcov2 & ->).
  apply encoded_same; try done; try apply Hg1; try apply Hg2.
  unfold CounterView.absRenderNet. destruct H1 as [Hp1 _]. destruct H2 as [Hp2 _].
  apply Permutation_app_head, Permutation_app_head, Permutation_app.
  - apply Permutation_flat_map. by rewrite Hp1, Hp2.
  - apply Permutation_app_head, Permutation_app_tail, Permutation_flat_map.
    by rewrite Hn1, Hn2.
Qed.

Lemma render_sameUpToGroupOrder (cfg : Config) (st : State) (s1 s2 : Schedule string) :
  validSchedule s1 -> validSchedule s2 ->
  PathView.sameUpToGroupOrder cfg st (PathIds.render cfg st s1) (PathIds.render cfg st s2).
Proof.
  intros [Hp1 Hn1] [Hp2 Hn2].
  exists (rangePkgs s1 (pkgs st)), (rangePkgs s2 (pkgs st)),
    (rangeNet s1 (networkOf (PathView.isNetwork cfg st) id (rangePkgs s1 (pkgs st)) ∅)),
    (rangeNet s2 (networkOf (PathView.isNetwork cfg st) id (rangePkgs s2 (pkgs st)) ∅)).
  split; [apply Hp1|]. split; [apply Hp2|].
  split; [rewrite Hn1; exact (networkOf_entries _ id _ _ (Hp1 _))|].
  split; [rewrite Hn2; exact (networkOf_entries _ id _ _ (Hp2 _))|].
  split; apply render_lines.
Qed.

Lemma mainPath_agree (u : Strs.Unicode) (build_Import : Provider) (getwd : GetwdResult)
    (flags : Flags) (args : list string) (s1 s2 : Schedule string) (fuel1 fuel2 : nat)
    (p1 p2 : Process string) :
  validSchedule s1 -> validSchedule s2 ->
  PathIds.main u build_Import getwd flags args s1 fuel1 = Some p1 ->
  PathIds.main u build_Import getwd flags args s2 fuel2 = Some p2 ->
  fatal p1 = fatal p2
  /\ ((fatal p1 <> None /\ stdout p1 = [] /\ stdout p2 = [])
      \/ exists cwd arg st,
           getwd = GetwdOk cwd /\ args = [arg]
           /\ PathIds.processPackage (configure u flags) build_Import fuel1 cwd arg state0
              = Done st
           /\ PathView.sameUpToGroupOrder (configure u flags) st (stdout p1) (stdout p2))
  /\ (s1 = s2 -> stdout p1 = stdout p2).
Proof.
  intros Hv1 Hv2. unfold PathIds.main.
  destruct args as [|arg [|arg' rest]];
    [intros [= <-] [= <-]; split; [done|split; [by left|done]]|
    |intros [= <-] [= <-]; split; [done|split; [by left|done]]].
  destruct getwd as [cwd|cause];
    [|intros [= <-] [= <-]; split; [done|split; [by left|done]]].
  pose proof (processPackage_fuel (configure u flags) build_Import cwd fuel1 fuel2 arg state0)
    as Hag. revert Hag.
  destruct (PathIds.processPackage _ _ fuel1 _ _ _) as [st1|e1 st1|st1] eqn:Hrun;
    destruct (PathIds.processPackage _ _ fuel2 _ _ _) as [st2|e2 st2|st2];
    intros Hag; try done; specialize (Hag I I); try done;
    injection Hag as <-; intros [= <-] [= <-]; simpl.
  - split; [done|]. split.
    + right. exists cwd, arg, st1. repeat split; try done.
      by apply render_sameUpToGroupOrder.
    + by intros ->.
  - subst. split; [done|]. split; [by left|done].
Qed.

Lemma mainNet_agree (u : Strs.Unicode) (build_Import : Provider) (getwd : GetwdResult) (flags : Flags)
    (args : list string) (s1 s2 : Schedule Z) (fuel1 fuel2 : nat) (p1 p2 : Process Z) :
  validSchedule s1 -> validSchedule s2 ->
  CounterNet.main u build_Import getwd flags args s1 fuel1 = Some p1 ->
  CounterNet.main u build_Import getwd flags args s2 fuel2 = Some p2 ->
  (forall cwd arg st,
     getwd = GetwdOk cwd -> args = [arg] ->
     CounterNet.processPackage (configure u flags) build_Import fuel1 cwd arg state0 = Done st ->
     (2 * Z.of_nat (size (pkgs st)) < 2 ^ 63)%Z) ->
  fatal p1 = fatal p2 /\ CounterView.sameUpToRenaming (stdout p1) (stdout p2).
Proof.
  intros Hv1 Hv2. unfold CounterNet.main.
  destruct args as [|arg [|arg' rest]];
    [intros [= <-] [= <-] _; split; [done|apply sameUpToRenaming_nil]|
    |intros [= <-] [= <-] _; split; [done|apply sameUpToRenaming_nil]].
  destruct getwd as [cwd|cause];
    [|intros [= <-] [= <-] _; split; [done|apply sameUpToRenaming_nil]].
  pose proof (processPackageNet_fuel (configure u flags) build_Import cwd fuel1 fuel2 arg state0)
    as Hag. revert Hag.
  destruct (CounterNet.processPackage _ _ fuel1 _ _ _) as [st1|e1 st1|st1] eqn:Hrun;
    destruct (CounterNet.processPackage _ _ fuel2 _ _ _) as [st2|e2 st2|st2];
    intros Hag; try done; specialize (Hag I I); try done;
    injection Hag as <-; intros [= <-] [= <-] Hbound; simpl.
  - split; [done|]. apply renderNet_same; try done. by eapply Hbound.
  - subst. split; [done|apply sameUpToRenaming_nil].
Qed.

Lemma mainIds_agree (build_Import : Provider) (getwd : GetwdResult)
    (flags : CounterIds.Flags) (args : list string)
    (range1 range2 : gmap string Package -> list (string * Package))
    (fuel1 fuel2 : nat) (p1 p2 : Process Z) :
  (forall m, range1 m ≡ₚ map_to_list m) -> (forall m, range2 m ≡ₚ map_to_list m) ->
  CounterIds.main build_Import getwd flags args range1 fuel1 = Some p1 ->
  CounterIds.main build_Import getwd flags args range2 fuel2 = Some p2 ->
  (forall cwd arg st,
     getwd = GetwdOk cwd -> args = [arg] ->
     CounterIds.processPackage (CounterIds.configure flags) build_Import fuel1 cwd arg
       (CounterIds.stateOfFlags flags) = Done st ->
     (2 * Z.of_nat (size (pkgs st)) < 2 ^ 63)%Z) ->
  fatal p1 = fatal p2 /\ CounterView.sameUpToRenaming (stdout p1) (stdout p2).
Proof.
  intros Hv1 Hv2. unfold CounterIds.main.
  destruct args as [|arg [|arg' rest]];
    [intros [= <-] [= <-] _; split; [done|apply sameUpToRenaming_nil]|
    |intros [= <-] [= <-] _; split; [done|apply sameUpToRenaming_nil]].
  destruct getwd as [cwd|cause];
    [|intros [= <-] [= <-] _; split; [done|apply sameUpToRenaming_nil]].
  pose proof (processPackageIds_fuel (CounterIds.configure flags) build_Import cwd
                fuel1 fuel2 arg (CounterIds.stateOfFlags flags)) as Hag.
  revert Hag.
  destruct (CounterIds.processPackage _ _ fuel1 _ _ _) as [st1|e1 st1|st1] eqn:Hrun;
    destruct (CounterIds.processPackage _ _ fuel2 _ _ _) as [st2|e2 st2|st2];
    intros Hag; try done; specialize (Hag I I); try done;
    injection Hag as <-; intros [= <-] [= <-] Hbound; simpl.
  - split; [done|]. apply renderIds_same; try done. by eapply Hbound.
  - subst. split; [done|apply sameUpToRenaming_nil].
Qed.

(** C8, as the code has it: two runs on the same flags, arguments and
    answers of [build.Import] end the same way.  With path identifiers,
    two runs whose loops visit the maps in the same order print the same
    text, byte for byte; when the orders differ, the two outputs still
    have the header, the box of the base path and the closing braces in
    the same places, and between them the same groups (the node of a
    package followed by its edges, in the order of its imports) and the
    same blocks of the network subgraphs, each group and block whole:
    only the order of the groups and the order of the blocks follow the
    order in which the loops visit their maps.  With integer
    identifiers, in either variant, the lines are the same up to their
    order and a renaming of the identifiers that keeps distinct ones
    distinct, as long as the counter cannot overflow. *)
Theorem runs_agree_up_to_order (u : Strs.Unicode) (build_Import : Provider)
    (getwd : GetwdResult) (args : list string) (fuel1 fuel2 : nat) :
  (forall (flags : Flags) (s1 s2 : Schedule string) (p1 p2 : Process string),
     validSchedule s1 -> validSchedule s2 ->
     PathIds.main u build_Import getwd flags args s1 fuel1 = Some p1 ->
     PathIds.main u build_Import getwd flags args s2 fuel2 = Some p2 ->
     fatal p1 = fatal p2
     /\ ((fatal p1 <> None /\ stdout p1 = [] /\ stdout p2 = [])
         \/ exists cwd arg st,
              getwd = GetwdOk cwd /\ args = [arg]
              /\ PathIds.processPackage (configure u flags) build_Import fuel1 cwd arg
                   state0 = Done st
              /\ PathView.sameUpToGroupOrder (configure u flags) st
                   (stdout p1) (stdout p2))
     /\ (s1 = s2 ->
         outputText PathIds.showId (stdout p1) = outputText PathIds.showId (stdout p2)))
  /\ (forall (flags : Flags) (s1 s2 : Schedule Z) (p1 p2 : Process Z),
        validSchedule s1 -> validSchedule s2 ->
        CounterNet.main u build_Import getwd flags args s1 fuel1 = Some p1 ->
        CounterNet.main u build_Import getwd flags args s2 fuel2 = Some p2 ->
        (forall cwd arg st,
           getwd = GetwdOk cwd -> args = [arg] ->
           CounterNet.processPackage (configure u flags) build_Import fuel1 cwd arg state0
             = Done st ->
           (2 * Z.of_nat (size (pkgs st)) < 2 ^ 63)%Z) ->
        fatal p1 = fatal p2 /\ CounterView.sameUpToRenaming (stdout p1) (stdout p2))
  /\ (forall (flags : CounterIds.Flags)
             (range1 range2 : gmap string Package -> list (string * Package))
             (p1 p2 : Process Z),
        (forall m, range1 m ≡ₚ map_to_list m) ->
        (forall m, range2 m ≡ₚ map_to_list m) ->
        CounterIds.main build_Import getwd flags args range1 fuel1 = Some p1 ->
        CounterIds.main build_Import getwd flags args range2 fuel2 = Some p2 ->
        (forall cwd arg st,
           getwd = GetwdOk cwd -> args = [arg] ->
           CounterIds.processPackage (CounterIds.configure flags) build_Import fuel1 cwd arg
             (CounterIds.stateOfFlags flags) = Done st ->
           (2 * Z.of_nat (size (pkgs st)) < 2 ^ 63)%Z) ->
        fatal p1 = fatal p2 /\ CounterView.sameUpToRenaming (stdout p1) (stdout p2)).
Proof.
  split; [|split].
  - intros flags s1 s2 p1 p2 Hv1 Hv2 H1 H2.
    destruct (mainPath_agree _ _ _ _ _ _ _ _ _ _ _ Hv1 Hv2 H1 H2) as (Hfatal & Hout & Hsame).
    split; [done|]. split; [done|]. intros Heq. by rewrite (Hsame Heq).
  - intros flags s1 s2 p1 p2 Hv1 Hv2 H1 H2 Hb.
    exact (mainNet_agree _ _ _ _ _ _ _ _ _ _ _ Hv1 Hv2 H1 H2 Hb).
  - intros flags r1 r2 p1 p2 Hv1 Hv2 H1 H2 Hb.
    exact (mainIds_agree _ _ _ _ _ _ _ _ _ _ Hv1 Hv2 H1 H2 Hb).
Qed.

(** ** The properties on small import graphs *)

Lemma forward_valid {Id : Type} : validSchedule (@Examples.forward Id).
Proof. by split. Qed.

Lemma backward_valid {Id : Type} : validSchedule (@Examples.backward Id).
Proof. split; intros m; simpl; symmetry; apply Permutation_rev. Qed.

Lemma isIgnored_included_wins_witness :
  isSet (ignored (configure Examples.unicode Examples.allRules)) "vendor/special/x" = true
  /\ hasPrefixes "vendor/special/x" (ignoredPrefixes (configure Examples.unicode Examples.allRules)) = true
  /\ PathIds.isNotOfBasepath (configure Examples.unicode Examples.allRules) "vendor/special/x" "github.com/x"
     = true
  /\ PathIds.isIgnored (configure Examples.unicode Examples.allRules) "github.com/x" Examples.specialPkg
     = false.
Proof.
  split; [reflexivity|]. split; [reflexivity|]. split; [reflexivity|].
  apply isIgnored_included_wins. exists "vendor/special".
  split; [by left | reflexivity].
Defined.

Lemma resolution_failure_is_fatal_witness :
  let o := PathIds.processPackage (configure Examples.unicode Examples.noFlags) Examples.broken 3
             Examples.src "x/app" state0 in
  In "x/gone" (imported (stateOf o))
  /\ Examples.broken "x/gone" Examples.src = ImportErr "cannot find package"
  /\ PathIds.main Examples.unicode Examples.broken (GetwdOk Examples.src) Examples.noFlags ["x/app"]
       Examples.forward 3
     = Some {| stdout := [];
               fatal := Some "failed to import x/gone: cannot find package" |}.
Proof.
  intros o.
  assert (Hin : In "x/gone" (imported (stateOf o))) by (by left).
  assert (Herr : Examples.broken "x/gone" Examples.src = ImportErr "cannot find package")
    by reflexivity.
  split; [exact Hin|]. split; [exact Herr|].
  destruct (resolution_failure_is_fatal Examples.unicode Examples.broken Examples.noFlags
              Examples.src
              "x/app" Examples.forward 3) as [Hfail _].
  exact (proj2 (Hfail "x/gone" "cannot find package" Hin Herr)).
Defined.

Lemma cycle_canonical (pkgName : string) (pkg : Package) :
  Examples.cycle pkgName Examples.src = ImportOk pkg ->
  ImportPath pkg = pkgName /\ pkgName ∈ Examples.knownNames.
Proof.
  unfold Examples.cycle, Examples.knownNames.
  destruct (String.eqb_spec pkgName "x/app") as [->|_].
  { intros [= <-]. split; [done|]. set_solver. }
  destruct (String.eqb_spec pkgName "x/lib") as [->|_].
  { intros [= <-]. split; [done|]. set_solver. }
  discriminate.
Qed.

Lemma resolution_terminates_witness :
  (forall pkgName pkg,
     Examples.cycle pkgName Examples.src = ImportOk pkg ->
     ImportPath pkg = pkgName /\ pkgName ∈ Examples.knownNames)
  /\ exists fuel,
       fuel = S (size Examples.knownNames)
       /\ returned (PathIds.processPackage (configure Examples.unicode Examples.noFlags) Examples.cycle fuel
                      Examples.src "x/app" state0).
Proof.
  split; [exact cycle_canonical|].
  exact (resolution_terminates (configure Examples.unicode Examples.noFlags) Examples.cycle Examples.src
           (fun n p H => proj1 (cycle_canonical n p H)) Examples.knownNames
           (fun n p H => proj2 (cycle_canonical n p H)) "x/app").
Defined.

Lemma output_depends_on_map_order :
  validSchedule (@Examples.forward string) /\ validSchedule (@Examples.backward string)
  /\ exists p1 p2,
       PathIds.main Examples.unicode Examples.twoPackages (GetwdOk Examples.src) Examples.noFlags ["x/app"]
         Examples.forward 3 = Some p1
       /\ PathIds.main Examples.unicode Examples.twoPackages (GetwdOk Examples.src) Examples.noFlags ["x/app"]
            Examples.backward 3 = Some p2
       /\ outputText PathIds.showId (stdout p1) <> outputText PathIds.showId (stdout p2).
Proof.
  split; [apply forward_valid|]. split; [apply backward_valid|].
  eexists _, _. split; [vm_compute; reflexivity|]. split; [vm_compute; reflexivity|].
  vm_compute. discriminate.
Qed.

(** C7, where the code departs from it: the entries of [-i] are put in
    lower case, the import paths are not, and the two are compared as
    they stand.  With [-i Foo,bar] the exact ignore set holds [foo] and
    not [Foo]; the package [Foo] is resolved, gets its node, and the
    edge from [app] to it is printed.  The variant of [main.go], which
    splits the list and leaves the case alone, ignores [Foo] on the same
    command line. *)
Theorem mixed_case_not_ignored (u : Strs.Unicode) :
  sanitizeCSV u "Foo,bar" = ["foo"; "bar"]
  /\ isSet (ignored (configure u Examples.ignoreFooBar)) "foo" = true
  /\ isSet (ignored (configure u Examples.ignoreFooBar)) "Foo" = false
  /\ PathIds.main u Examples.mixedCase (GetwdOk Examples.src) Examples.ignoreFooBar ["app"]
       Examples.forward 3
     = Some {| stdout := [ LDigraph;
                           LNode ":app" "app" "paleturquoise";
                           LEdge ":app" ":Foo";
                           LNode ":Foo" "Foo" "paleturquoise";
                           LClose ];
               fatal := None |}
  /\ CounterIds.main Examples.mixedCase (GetwdOk Examples.src) Examples.ignoreFooBarIds
       ["app"] map_to_list 3
     = Some {| stdout := [ LDigraph; LNode 0%Z "app" "paleturquoise"; LClose ];
               fatal := None |}.
Proof. repeat split. Qed.

Lemma identifiers_namespaced_witness :
  let cfg := configure Examples.unicode Examples.ignoreFooBar in
  let st := Examples.mixedCaseState in
  basePath st = EmptyString
  /\ Forall (fun l : Line string =>
        Forall (fun id => exists name, id = String ":"%char name) (lineIds l))
        (PathIds.render cfg st Examples.forward).
Proof.
  intros cfg st.
  assert (Hbp : basePath st = EmptyString) by reflexivity.
  split; [exact Hbp|].
  exact (proj2 (identifiers_namespaced cfg st Examples.forward) Hbp).
Defined.

(** * Further properties *)

(** ** Splitting and joining *)

Lemma Split_not_nil (s : string) (sep : ascii) : Strs.Split s sep <> [].
Proof.
  destruct s as [|c rest]; simpl; [done|].
  destruct (Ascii.eqb c sep); [done|]. by destruct (Strs.Split rest sep).
Qed.

Lemma concat_cons (sep h : string) (t : list string) :
  t <> [] -> String.concat sep (h :: t) = h +:+ sep +:+ String.concat sep t.
Proof. by destruct t. Qed.

Lemma append_assoc_s (a b c : string) : (a +:+ b) +:+ c = a +:+ (b +:+ c).
Proof.
  induction a as [|ch a IH]; [done|].
  change (String ch ((a +:+ b) +:+ c) = String ch (a +:+ b +:+ c)). by f_equal.
Qed.

Lemma append_empty_r (a : string) : a +:+ EmptyString = a.
Proof.
  induction a as [|ch a IH]; [done|].
  change (String ch (a +:+ EmptyString) = String ch a). by f_equal.
Qed.

Lemma Join_Split (s : string) (sep : ascii) :
  Strs.Join (Strs.Split s sep) (String sep EmptyString) = s.
Proof.
  unfold Strs.Join. induction s as [|c rest IH]; [done|]. simpl.
  destruct (Ascii.eqb_spec c sep) as [->|Hne].
  - rewrite concat_cons by apply Split_not_nil. simpl. by rewrite IH.
  - destruct (Strs.Split rest sep) as [|h t] eqn:Hsplit.
    + by destruct (Split_not_nil rest sep).
    + destruct t as [|h' t']; simpl in *; by rewrite <- IH.
Qed.

Lemma Split_length (s : string) (sep : ascii) :
  length (Strs.Split s sep) = S (countByte sep s).
Proof.
  induction s as [|c rest IH]; [done|]. simpl.
  destruct (Ascii.eqb c sep); simpl; [by rewrite IH|].
  destruct (Strs.Split rest sep) as [|h t] eqn:Hsplit; simpl in *; lia.
Qed.

Lemma concat_dropLast_last (sep : string) (l : list string) :
  (2 <= length l)%nat ->
  String.concat sep l =
    String.concat sep (Strs.dropLast l) +:+ sep +:+ Strs.lastOf l.
Proof.
  unfold Strs.dropLast, Strs.lastOf.
  induction l as [|a l IH]; [simpl; lia|]. intros Hlen.
  destruct l as [|b l]; [simpl in Hlen; lia|].
  destruct l as [|c l]; [done|].
  change (List.removelast (a :: b :: c :: l)) with (a :: List.removelast (b :: c :: l)).
  change (List.last (a :: b :: c :: l) EmptyString)
    with (List.last (b :: c :: l) EmptyString).
  rewrite (concat_cons sep a (b :: c :: l)) by done.
  rewrite (concat_cons sep a (List.removelast (b :: c :: l))) by done.
  rewrite IH by (simpl; lia). by rewrite !append_assoc_s.
Qed.

Lemma prefix_append (a b : string) : String.prefix a (a +:+ b) = true.
Proof.
  induction a as [|ch a IH]; simpl; [by destruct b|].
  by destruct (ascii_dec ch ch).
Qed.

Lemma prefix_empty (s : string) : String.prefix EmptyString s = true.
Proof. by destruct s. Qed.

Lemma parentPath_cases (importPath : string) :
  let last := Strs.lastOf (Strs.Split importPath "/"%char) in
  (countByte "/"%char importPath = 0
   /\ parentPath importPath = EmptyString /\ last = importPath)
  \/ ((0 < countByte "/"%char importPath)%nat
      /\ importPath = parentPath importPath +:+ "/" +:+ last).
Proof.
  intros last. unfold last, parentPath, Strs.Join.
  pose proof (Split_length importPath "/"%char) as Hlen.
  pose proof (Join_Split importPath "/"%char) as Hjoin. unfold Strs.Join in Hjoin.
  destruct (countByte "/"%char importPath) as [|n].
  - left. destruct (Strs.Split importPath "/"%char) as [|a [|b l]]; simpl in *; try lia.
    by subst.
  - right. split; [lia|].
    rewrite <- Hjoin at 1. apply concat_dropLast_last. lia.
Qed.

(** X1: an import path is its parent, a slash and its last segment;
    without a slash the parent is empty and the last segment is the
    whole path. *)
Theorem parentPath_lastSegment (importPath : string) :
  let last := Strs.lastOf (Strs.Split importPath "/"%char) in
  (countByte "/"%char importPath = 0
   /\ parentPath importPath = EmptyString /\ last = importPath)
  \/ ((0 < countByte "/"%char importPath)%nat
      /\ importPath = parentPath importPath +:+ "/" +:+ last).
Proof. exact (parentPath_cases importPath). Qed.

(** X2: the package that gives the base path lies inside it: the
    parent of an import path is a prefix of the path, so the base path
    rule of [isIgnored] does not fire on it, in any variant. *)
Theorem parentPath_is_prefix (cfg : Config) (importPath : string) :
  Strs.HasPrefix importPath (parentPath importPath) = true
  /\ PathIds.isNotOfBasepath cfg importPath (parentPath importPath) = false
  /\ Counter.isNotOfBasepath importPath (parentPath importPath) = false.
Proof.
  assert (H : Strs.HasPrefix importPath (parentPath importPath) = true).
  { unfold Strs.HasPrefix.
    destruct (parentPath_cases importPath) as [(_ & Hp & _)|[_ Hp]].
    - rewrite Hp. apply prefix_empty.
    - set (par := parentPath importPath) in *. rewrite Hp. apply prefix_append. }
  split; [done|]. unfold PathIds.isNotOfBasepath, Counter.isNotOfBasepath.
  rewrite H. simpl. by rewrite !andb_false_r.
Qed.


(** ** Cleaning the comma separated lists *)

Lemma lower_ascii_idem (c : ascii) : Strs.lower_ascii (Strs.lower_ascii c) = Strs.lower_ascii c.
Proof. destruct c as [[] [] [] [] [] [] [] []]; reflexivity. Qed.

Lemma isSpace_lower_ascii (c : ascii) : Strs.isSpace (Strs.lower_ascii c) = Strs.isSpace c.
Proof. destruct c as [[] [] [] [] [] [] [] []]; reflexivity. Qed.

Lemma toLowerASCII_idem (s : string) :
  Strs.toLowerASCII (Strs.toLowerASCII s) = Strs.toLowerASCII s.
Proof.
  induction s as [|c s IH]; [done|]. simpl. by rewrite lower_ascii_idem, IH.
Qed.

Lemma trimLeft_toLowerASCII (s : string) :
  Strs.trimLeft (Strs.toLowerASCII s) = Strs.toLowerASCII (Strs.trimLeft s).
Proof.
  induction s as [|c s IH]; [done|]. simpl. rewrite isSpace_lower_ascii.
  by destruct (Strs.isSpace c).
Qed.

Lemma trimRight_toLowerASCII (s : string) :
  Strs.trimRight (Strs.toLowerASCII s) = Strs.toLowerASCII (Strs.trimRight s).
Proof.
  induction s as [|c s IH]; [done|]. simpl. rewrite IH, isSpace_lower_ascii.
  destruct (Strs.trimRight s); simpl; [|done]. by destruct (Strs.isSpace c).
Qed.

(** A string that is empty or starts with a byte that is not white
    space. *)
Lemma trimLeft_fixed (s : string) :
  Strs.trimLeft (Strs.trimLeft s) = Strs.trimLeft s.
Proof.
  induction s as [|c s IH]; [done|]. simpl.
  destruct (Strs.isSpace c) eqn:Hc; [done|]. simpl. by rewrite Hc.
Qed.

Lemma trimRight_fixed (s : string) :
  Strs.trimRight (Strs.trimRight s) = Strs.trimRight s.
Proof.
  induction s as [|c s IH]; [done|]. simpl.
  destruct (Strs.trimRight s) as [|d r] eqn:Hr.
  - destruct (Strs.isSpace c) eqn:Hc; [done|]. simpl. by rewrite Hc.
  - simpl in *. by rewrite IH.
Qed.

Lemma trimLeft_trimRight (s : string) :
  Strs.trimLeft s = s -> Strs.trimLeft (Strs.trimRight s) = Strs.trimRight s.
Proof.
  destruct s as [|c s]; [done|]. simpl.
  destruct (Strs.isSpace c) eqn:Hc.
  - intros Heq. exfalso.
    assert (Hlen : (String.length (Strs.trimLeft s) <= String.length s)%nat).
    { clear. induction s as [|d s IH]; simpl; [lia|].
      destruct (Strs.isSpace d); simpl; lia. }
    rewrite Heq in Hlen. simpl in Hlen. lia.
  - intros _. destruct (Strs.trimRight s); simpl; by rewrite Hc.
Qed.

Lemma trimSpaceASCII_idem (s : string) :
  Strs.trimSpaceASCII (Strs.trimSpaceASCII s) = Strs.trimSpaceASCII s.
Proof.
  unfold Strs.trimSpaceASCII.
  rewrite (trimLeft_trimRight (Strs.trimLeft s)) by apply trimLeft_fixed.
  apply trimRight_fixed.
Qed.

(** The ASCII strings are closed under the three operations of
    [sanitizeCSV]. *)
Lemma isASCII_lower_ascii (c : ascii) :
  (nat_of_ascii (Strs.lower_ascii c) <? 128)%nat = (nat_of_ascii c <? 128)%nat.
Proof. destruct c as [[] [] [] [] [] [] [] []]; reflexivity. Qed.

Lemma isASCII_toLowerASCII (s : string) :
  Strs.isASCII (Strs.toLowerASCII s) = Strs.isASCII s.
Proof.
  induction s as [|c s IH]; [done|]. simpl. by rewrite isASCII_lower_ascii, IH.
Qed.

Lemma isASCII_trimLeft (s : string) :
  Strs.isASCII s = true -> Strs.isASCII (Strs.trimLeft s) = true.
Proof.
  induction s as [|c s IH]; [done|]. simpl. intros H.
  destruct (Strs.isSpace c); [|done]. apply andb_true_iff in H as [_ H]. auto.
Qed.

Lemma isASCII_trimRight (s : string) :
  Strs.isASCII s = true -> Strs.isASCII (Strs.trimRight s) = true.
Proof.
  induction s as [|c s IH]; [done|]. simpl. intros H.
  apply andb_true_iff in H as [Hc H]. specialize (IH H).
  destruct (Strs.trimRight s) as [|d r].
  - destruct (Strs.isSpace c); [done|]. simpl. by rewrite Hc.
  - change (((nat_of_ascii c <? 128)%nat && Strs.isASCII (String d r)) = true).
    by rewrite Hc, IH.
Qed.

Lemma isASCII_Split (s : string) (sep : ascii) :
  Strs.isASCII s = true -> forall v, In v (Strs.Split s sep) -> Strs.isASCII v = true.
Proof.
  induction s as [|c s IH]; simpl.
  - intros _ v [<-|[]]. done.
  - intros H. apply andb_true_iff in H as [Hc H]. specialize (IH H).
    destruct (Ascii.eqb c sep).
    + intros v [<-|Hv]; [done|]. by apply IH.
    + destruct (Strs.Split s sep) as [|h t].
      * intros v [<-|[]]. simpl. by rewrite Hc.
      * intros v [<-|Hv].
        -- simpl. rewrite Hc. apply IH. by left.
        -- apply IH. by right.
Qed.

(** On an ASCII entry [sanitizeCSV] is computed, and cleaning the
    result again changes nothing. *)
Lemma normalise_ascii (u : Strs.Unicode) (v : string) :
  Strs.isASCII v = true ->
  Strs.ToLower u (Strs.TrimSpace u v) = Strs.toLowerASCII (Strs.trimSpaceASCII v)
  /\ Strs.isASCII (Strs.toLowerASCII (Strs.trimSpaceASCII v)) = true.
Proof.
  intros Hv.
  assert (Htrim : Strs.isASCII (Strs.trimSpaceASCII v) = true).
  { unfold Strs.trimSpaceASCII. by apply isASCII_trimRight, isASCII_trimLeft. }
  unfold Strs.ToLower, Strs.TrimSpace. rewrite Hv, Htrim.
  split; [done|]. by rewrite isASCII_toLowerASCII.
Qed.

Lemma normalise_idem (u : Strs.Unicode) (v : string) :
  Strs.isASCII v = true ->
  Strs.ToLower u (Strs.TrimSpace u (Strs.ToLower u (Strs.TrimSpace u v))) =
  Strs.ToLower u (Strs.TrimSpace u v).
Proof.
  intros Hv. destruct (normalise_ascii u v Hv) as [-> Hclean].
  destruct (normalise_ascii u _ Hclean) as [-> _].
  unfold Strs.trimSpaceASCII at 1.
  rewrite trimLeft_toLowerASCII, trimRight_toLowerASCII.
  fold (Strs.trimSpaceASCII (Strs.trimSpaceASCII v)).
  by rewrite toLowerASCII_idem, trimSpaceASCII_idem.
Qed.

(** X3: [sanitizeCSV] gives one entry more than the list has commas, an
    empty list giving the one empty entry.  On a list of ASCII bytes the
    entries are ASCII again and cleaning an entry a second time changes
    nothing: it has no capital letter and no white space at either
    end. *)
Theorem sanitizeCSV_entries (u : Strs.Unicode) (csv : string) :
  length (sanitizeCSV u csv) = S (countByte ","%char csv)
  /\ sanitizeCSV u EmptyString = [EmptyString]
  /\ (Strs.isASCII csv = true ->
      Forall (fun entry => Strs.isASCII entry = true
                /\ Strs.ToLower u (Strs.TrimSpace u entry) = entry)
             (sanitizeCSV u csv)).
Proof.
  unfold sanitizeCSV. split; [|split].
  - by rewrite length_map, Split_length.
  - reflexivity.
  - intros Hcsv. apply Forall_forall. intros entry Hin.
    apply list_elem_of_In, in_map_iff in Hin. destruct Hin as (v & <- & Hv).
    pose proof (isASCII_Split csv ","%char Hcsv v Hv) as Hascii.
    split; [|by apply normalise_idem].
    destruct (normalise_ascii u v Hascii) as [-> Hclean]. exact Hclean.
Qed.

Lemma Split_trailing (s : string) (sep : ascii) :
  exists l, l <> [] /\
    Strs.Split (s +:+ String sep EmptyString) sep = l ++ [EmptyString].
Proof.
  induction s as [|c s (l & Hl & IH)].
  - exists [EmptyString]. split; [done|]. simpl. by rewrite Ascii.eqb_refl.
  - change (String c s +:+ String sep EmptyString)
      with (String c (s +:+ String sep EmptyString)).
    simpl. rewrite IH. destruct (Ascii.eqb c sep).
    + by exists (EmptyString :: l).
    + destruct l as [|h t]; [done|]. by exists (String c h :: t).
Qed.

Lemma sanitizeCSV_trailing (u : Strs.Unicode) (csv : string) :
  In EmptyString (sanitizeCSV u (csv +:+ ",")).
Proof.
  unfold sanitizeCSV. destruct (Split_trailing csv ","%char) as (l & _ & ->).
  rewrite map_app. apply in_or_app. right. by left.
Qed.

Lemma append_not_empty (a : string) (c : ascii) :
  Strs.isEmpty (a +:+ String c EmptyString) = false.
Proof. by destruct a. Qed.

(** X4: an empty entry is a prefix of every path.  A list of ignored
    prefixes that ends in a comma therefore ignores every package that
    is not always included, and a list of always included prefixes that
    ends in a comma lets no package be ignored. *)
Theorem trailing_comma_matches_all (u : Strs.Unicode) (flags : Flags) (csv : string)
    (bp : string) (pkg : Package) :
  (forall s, hasPrefixes s (sanitizeCSV u (csv +:+ ",")) = true)
  /\ (flag_p flags = csv +:+ "," -> flag_n flags = EmptyString ->
      PathIds.isIgnored (configure u flags) bp pkg = true
      /\ Counter.isIgnored (configure u flags) bp pkg = true)
  /\ (flag_n flags = csv +:+ "," ->
      PathIds.isIgnored (configure u flags) bp pkg = false
      /\ Counter.isIgnored (configure u flags) bp pkg = false).
Proof.
  assert (Hall : forall s, hasPrefixes s (sanitizeCSV u (csv +:+ ",")) = true).
  { intros s. apply hasPrefixes_true. exists EmptyString.
    split; [apply sanitizeCSV_trailing|]. apply prefix_empty. }
  split; [exact Hall|]. split.
  - intros Hp Hn.
    unfold PathIds.isIgnored, Counter.isIgnored, configure. simpl.
    rewrite Hp, Hn, append_not_empty. simpl. rewrite Hall.
    by rewrite !orb_true_r.
  - intros Hn.
    unfold PathIds.isIgnored, Counter.isIgnored, configure. simpl.
    rewrite Hn, append_not_empty. by rewrite Hall.
Qed.

Lemma isSet_ignored0 (k : string) : isSet ignored0 k = true <-> k = "C".
Proof.
  unfold isSet, ignored0. destruct (decide (k = "C")) as [->|Hne].
  - by rewrite lookup_singleton_eq.
  - rewrite lookup_singleton_ne by done. simpl. split; [done|]. intros. done.
Qed.

(** X5: after the flags are read the exact ignore set holds the name C
    and the entries of [-i], cleaned in the two later variants and as
    they were typed in [main.go], and nothing else. *)
Theorem configure_ignored_iff (u : Strs.Unicode) (flags : Flags)
    (flagsIds : CounterIds.Flags) (k : string) :
  (isSet (ignored (configure u flags)) k = true <->
   k = "C" \/ (flag_i flags <> EmptyString /\ In k (sanitizeCSV u (flag_i flags))))
  /\ (isSet (ignored (CounterIds.configure flagsIds)) k = true <->
      k = "C" \/ (CounterIds.flag_i flagsIds <> EmptyString
                  /\ In k (Strs.Split (CounterIds.flag_i flagsIds) ","%char))).
Proof.
  split.
  - unfold configure. simpl. destruct (Strs.isEmpty (flag_i flags)) eqn:He.
    + apply isEmpty_true in He. rewrite isSet_ignored0. tauto.
    + apply isEmpty_false in He. rewrite isSet_setAll, isSet_ignored0. tauto.
  - unfold CounterIds.configure. simpl.
    destruct (Strs.isEmpty (CounterIds.flag_i flagsIds)) eqn:He.
    + apply isEmpty_true in He. rewrite isSet_ignored0. tauto.
    + apply isEmpty_false in He. rewrite isSet_setAll, isSet_ignored0. tauto.
Qed.


Lemma sanitizeCSV_ascii (u1 u2 : Strs.Unicode) (csv : string) :
  Strs.isASCII csv = true -> sanitizeCSV u1 csv = sanitizeCSV u2 csv.
Proof.
  intros Hcsv. unfold sanitizeCSV. apply map_ext_in. intros v Hv.
  pose proof (isASCII_Split csv ","%char Hcsv v Hv) as Hascii.
  destruct (normalise_ascii u1 v Hascii) as [-> _].
  by destruct (normalise_ascii u2 v Hascii) as [-> _].
Qed.

(** X25: on a command line whose lists are ASCII the flags are read
    without the Unicode tables: whatever [strings.ToLower] and
    [strings.TrimSpace] do on other strings, the configuration is the
    same, each entry being trimmed of ASCII white space and its letters
    A to Z put in lower case. *)
Theorem configure_ascii (u1 u2 : Strs.Unicode) (flags : Flags) :
  Strs.isASCII (flag_p flags) = true ->
  Strs.isASCII (flag_i flags) = true ->
  Strs.isASCII (flag_n flags) = true ->
  configure u1 flags = configure u2 flags
  /\ sanitizeCSV u1 (flag_i flags) =
       List.map (fun v => Strs.toLowerASCII (Strs.trimSpaceASCII v))
         (Strs.Split (flag_i flags) ","%char).
Proof.
  intros Hp Hi Hn. split.
  - unfold configure.
    by rewrite (sanitizeCSV_ascii u1 u2 _ Hp), (sanitizeCSV_ascii u1 u2 _ Hi),
      (sanitizeCSV_ascii u1 u2 _ Hn).
  - unfold sanitizeCSV. apply map_ext_in. intros v Hv.
    by destruct (normalise_ascii u1 v (isASCII_Split _ _ Hi v Hv)) as [-> _].
Qed.

(** ** Handing out integer identifiers *)

Lemma registerAll_consecutive (N : gset string) (names : list string) :
  (Z.of_nat (size N) < 2 ^ 63)%Z ->
  forall g,
    CounterView.regOk N g -> NoDup names ->
    (forall name, In name names -> name ∈ N /\ Counter.ids g !! name = None) ->
    let g' := registerAll names g in
    CounterView.regOk N g'
    /\ Counter.ids g ⊆ Counter.ids g'
    /\ Counter.nextId g' = (Counter.nextId g + Z.of_nat (length names))%Z
    /\ (forall i name, names !! i = Some name ->
          Counter.ids g' !! name = Some (Counter.nextId g + Z.of_nat i)%Z).
Proof.
  intros Hbound. induction names as [|name rest IH]; intros g Hg Hnodup Hnew.
  - simpl. split; [done|]. split; [done|]. split; [lia|]. by intros i name.
  - apply NoDup_cons in Hnodup as [Hnotin Hnodup].
    destruct (Hnew name (or_introl eq_refl)) as [HN Hnone].
    unfold registerAll. cbn [foldl]. fold (registerAll rest (Counter.getId name g).2).
    destruct (Counter.getId name g) as [id g1] eqn:Hget. cbn [snd].
    destruct (getId_sound N Hbound name g g1 id Hg HN Hget) as (Hg1 & Hsub & Hid).
    assert (Hfresh : id = Counter.nextId g /\ Counter.nextId g1 = (Counter.nextId g + 1)%Z).
    { unfold Counter.getId in Hget. rewrite Hnone in Hget. injection Hget as <- <-.
      split; [done|]. simpl.
      destruct Hg as [Hnext _ _ _]. destruct Hg1 as [Hnext1 _ _ _]. simpl in Hnext1.
      rewrite map_size_insert_None in Hnext1 by done. lia. }
    destruct Hfresh as [-> Hnext1].
    assert (Hnew1 : forall n, In n rest -> n ∈ N /\ Counter.ids g1 !! n = None).
    { intros n Hn. destruct (Hnew n (or_intror Hn)) as [HnN Hnnone]. split; [done|].
      unfold Counter.getId in Hget. rewrite Hnone in Hget. injection Hget as <-.
      simpl. rewrite lookup_insert_ne; [done|].
      intros ->. by apply Hnotin, list_elem_of_In. }
    destruct (IH g1 Hg1 Hnodup Hnew1) as (Hg' & Hsub' & Hnext' & Hpos).
    split; [done|]. split; [by etrans|]. split.
    + rewrite Hnext', Hnext1. simpl length. lia.
    + intros [|i] n Hlook; simpl in Hlook.
      * injection Hlook as <-. rewrite Z.add_0_r. by eapply lookup_weaken.
      * rewrite (Hpos i n Hlook), Hnext1. f_equal. lia.
Qed.

(** X6: identifiers are handed out from 0 upwards in the order in which
    names are first asked for: from the empty registry, the name at
    position [i] of a list without repetition gets the identifier [i],
    no other name gets one, and the counter ends at the length of the
    list, as long as that stays below the range of [int]. *)
Theorem getId_consecutive (names : list string) :
  NoDup names ->
  (Z.of_nat (length names) < 2 ^ 63)%Z ->
  let g := registerAll names Counter.registry0 in
  (forall i name, names !! i = Some name -> Counter.ids g !! name = Some (Z.of_nat i))
  /\ (forall name, is_Some (Counter.ids g !! name) -> In name names)
  /\ Counter.nextId g = Z.of_nat (length names).
Proof.
  intros Hnodup Hlen g.
  assert (Hbound : (Z.of_nat (size (list_to_set names : gset string)) < 2 ^ 63)%Z).
  { pose proof (size_list_to_set_le names). lia. }
  destruct (registerAll_consecutive (list_to_set names) names Hbound Counter.registry0
              (regOk_registry0 _) Hnodup) as (Hg & _ & Hnext & Hpos).
  { intros name Hin. split; [|apply lookup_empty].
    by apply elem_of_list_to_set, list_elem_of_In. }
  split; [|split].
  - intros i name Hlook. unfold g. rewrite (Hpos i name Hlook). simpl. f_equal.
  - intros name Hsome. destruct Hg as [_ Hdom _ _].
    apply elem_of_dom in Hsome. apply Hdom in Hsome.
    apply elem_of_list_to_set in Hsome. by apply list_elem_of_In.
  - unfold g. rewrite Hnext. simpl. lia.
Qed.

(** X7: a name that has an identifier keeps it: asking for it again
    returns the same identifier and leaves the registry as it is, and
    asking for any other name does not change it. *)
Theorem getId_keeps (name other : string) (g : Counter.Registry) (id : Z) :
  Counter.ids g !! name = Some id ->
  Counter.getId name g = (id, g)
  /\ Counter.ids (Counter.getId other g).2 !! name = Some id
  /\ Counter.getId name (Counter.getId name g).2 = (id, g).
Proof.
  intros Hid. assert (Hsame : Counter.getId name g = (id, g)).
  { unfold Counter.getId. by rewrite Hid. }
  split; [done|]. split; [|by rewrite Hsame].
  unfold Counter.getId. destruct (Counter.ids g !! other) eqn:Hother; simpl; [done|].
  rewrite lookup_insert_ne; [done|]. intros ->. congruence.
Qed.


(** ** What the graph builder leaves in [pkgs] *)

Lemma isIgnored_false_fixed (cfg : Config) (bp : string) (p : Package) :
  PathIds.isIgnored cfg bp p = false -> passesFixedRules cfg p.
Proof.
  unfold PathIds.isIgnored, passesFixedRules.
  destruct (hasPrefixes (ImportPath p) (includedPackages cfg)); [by left|].
  simpl. intros H. right.
  apply orb_false_iff in H as [H _]. apply orb_false_iff in H as [H H3].
  apply orb_false_iff in H as [H1 H2]. done.
Qed.

Lemma isIgnored_fixed_iff (cfg : Config) (bp : string) (p : Package) :
  passesFixedRules cfg p ->
  PathIds.isIgnored cfg bp p =
    negb (hasPrefixes (ImportPath p) (includedPackages cfg))
    && filterByBasePath cfg && negb (Strs.HasPrefix (ImportPath p) bp).
Proof.
  unfold PathIds.isIgnored, PathIds.isNotOfBasepath.
  intros [->|(-> & -> & ->)]; [done|]. simpl. by rewrite andb_assoc.
Qed.

Section PathInvariant.
Variable cfg : Config.
Variable build_Import : Provider.
Variable root : string.

Lemma processPackage_resolvedOk (fuel : nat) :
  forall pkgName st,
    resolvedOk cfg build_Import root st ->
    resolvedOk cfg build_Import root
      (stateOf (PathIds.processPackage cfg build_Import fuel root pkgName st)).
Proof.
  induction fuel as [|fuel IH]; intros pkgName st Hst; [done|].
  cbn [PathIds.processPackage].
  destruct (isSet (ignored cfg) pkgName); [done|].
  set (st1 := {| pkgs := pkgs st; basePath := basePath st;
                 imported := pkgName :: imported st |}).
  assert (H1 : resolvedOk cfg build_Import root st1).
  { intros k p Hk. destruct (Hst k p Hk) as (Hkey & (name & Hin & Hres) & Hfix).
    split; [done|]. split; [|done]. exists name. split; [by right|done]. }
  destruct (build_Import pkgName root) as [pkg|cause] eqn:Hres; [|exact H1].
  destruct (PathIds.isIgnored cfg (basePath st1) pkg) eqn:Hign; [exact H1|].
  match goal with |- context [walkImports _ _ ?s] => set (st2 := s) end.
  assert (H2 : resolvedOk cfg build_Import root st2).
  { intros k p Hk. unfold st2 in Hk. cbn [pkgs] in Hk.
    destruct (decide (ImportPath pkg = k)) as [<-|Hne].
    - rewrite lookup_insert_eq in Hk. injection Hk as <-.
      split; [done|]. split; [exists pkgName; split; [by left|done]|].
      by eapply isIgnored_false_fixed.
    - rewrite lookup_insert_ne in Hk by done. by apply H1. }
  destruct (Goroot pkg); [exact H2|].
  assert (Hg : good (resolvedOk cfg build_Import root)
                    (fun _ => resolvedOk cfg build_Import root)
                    (resolvedOk cfg build_Import root)
                    (walkImports (PathIds.processPackage cfg build_Import fuel root)
                       (Imports pkg) st2)).
  { apply walkImports_good; [|done]. intros imp st' Hst' _.
    specialize (IH imp st' Hst').
    by destruct (PathIds.processPackage cfg build_Import fuel root imp st'). }
  by destruct (walkImports _ _ _).
Qed.

(** X8: whatever the fuel and however the resolution from the empty
    state ends, every entry of [pkgs] is keyed by the import path of its
    package, is the answer of [build.Import] to a name that was handed
    to it, and passes the ignore rules that do not look at the base
    path: it starts with an always included prefix, or it is neither in
    the exact ignore set, nor a standard package with [-s], nor under an
    ignored prefix. *)
Theorem resolved_packages (fuel : nat) (pkgName k : string) (p : Package) :
  let st := stateOf (PathIds.processPackage cfg build_Import fuel root pkgName state0) in
  pkgs st !! k = Some p ->
  ImportPath p = k
  /\ (exists name, In name (imported st) /\ build_Import name root = ImportOk p)
  /\ (hasPrefixes k (includedPackages cfg) = true
      \/ (isSet (ignored cfg) k = false
          /\ (Goroot p && ignoreStdlib cfg) = false
          /\ hasPrefixes k (ignoredPrefixes cfg) = false)).
Proof.
  intros st Hk.
  assert (H0 : resolvedOk cfg build_Import root state0).
  { intros k' p' H. simpl in H. by rewrite lookup_empty in H. }
  destruct (processPackage_resolvedOk fuel pkgName state0 H0 k p Hk)
    as (Hkey & Hname & Hfix).
  split; [done|]. split; [done|]. unfold passesFixedRules in Hfix. by rewrite Hkey in Hfix.
Qed.

(** X9: the renderer leaves out a resolved package only through the
    base path: at whatever base path, [isIgnored] holds of an entry of
    [pkgs] exactly when [-b] is on, the path does not start with the
    base path and no always included prefix matches it. *)
Theorem resolved_ignored_only_by_basePath (fuel : nat) (pkgName k bp : string)
    (p : Package) :
  let st := stateOf (PathIds.processPackage cfg build_Import fuel root pkgName state0) in
  pkgs st !! k = Some p ->
  (PathIds.isIgnored cfg bp p = true <->
   filterByBasePath cfg = true /\ Strs.HasPrefix k bp = false
   /\ hasPrefixes k (includedPackages cfg) = false).
Proof.
  intros st Hk.
  assert (H0 : resolvedOk cfg build_Import root state0).
  { intros k' p' H. simpl in H. by rewrite lookup_empty in H. }
  destruct (processPackage_resolvedOk fuel pkgName state0 H0 k p Hk)
    as (Hkey & _ & Hfix).
  rewrite (isIgnored_fixed_iff cfg bp p Hfix), Hkey.
  rewrite !andb_true_iff, !negb_true_iff. tauto.
Qed.

End PathInvariant.


(** ** The exact ignore set *)

Lemma resolvedOk_state0 (cfg : Config) (build_Import : Provider) (root : string) :
  resolvedOk cfg build_Import root state0.
Proof. intros k p H. simpl in H. by rewrite lookup_empty in H. Qed.

(** C3, as the code has it: a call of [processPackage] on a name of the
    exact ignore set returns at once and leaves the state as it was:
    nothing is put in [pkgs] and [build.Import] is not called.  The set
    holds the name C whatever the flags.  Over a whole resolution the
    name can still become a key of [pkgs], but only when it starts with
    an always included prefix: a package whose import path is the name
    is ignored by [isIgnored] exactly when no such prefix matches.  A
    call under another name that is not in the set hands that name to
    [build.Import], and puts the package found in [pkgs] when
    [isIgnored] lets it through and leaves [pkgs] alone when it does
    not. *)
Theorem exact_ignore_short_circuit (u : Strs.Unicode) (cfg : Config)
    (build_Import : Provider) (root pkgName : string) :
  isSet (ignored cfg) pkgName = true ->
  (forall fuel st,
     PathIds.processPackage cfg build_Import (S fuel) root pkgName st = Done st)
  /\ (forall flags, isSet (ignored (configure u flags)) "C" = true)
  /\ (forall fuel start,
        let st := stateOf (PathIds.processPackage cfg build_Import fuel root start state0) in
        is_Some (pkgs st !! pkgName) ->
        hasPrefixes pkgName (includedPackages cfg) = true)
  /\ (forall bp pkg,
        ImportPath pkg = pkgName ->
        PathIds.isIgnored cfg bp pkg = negb (hasPrefixes pkgName (includedPackages cfg)))
  /\ (forall fuel st other pkg,
        isSet (ignored cfg) other = false ->
        build_Import other root = ImportOk pkg ->
        let st' := stateOf (PathIds.processPackage cfg build_Import (S fuel) root other st) in
        In other (imported st')
        /\ (PathIds.isIgnored cfg (basePath st) pkg = false ->
            ImportPath pkg ∈ dom (pkgs st'))
        /\ (PathIds.isIgnored cfg (basePath st) pkg = true -> pkgs st' = pkgs st)).
Proof.
  intros Hign. split; [|split; [|split; [|split]]].
  - intros fuel st. simpl. by rewrite Hign.
  - apply configure_ignores_C.
  - intros fuel start st [p Hp].
    destruct (processPackage_resolvedOk cfg build_Import root fuel start state0
                (resolvedOk_state0 cfg build_Import root) pkgName p Hp)
      as (Hkey & _ & [Hinc|(Hno & _)]).
    + by rewrite <- Hkey.
    + rewrite Hkey in Hno. congruence.
  - intros bp pkg Hpath. unfold PathIds.isIgnored. rewrite Hpath, Hign. simpl.
    by rewrite andb_true_r.
  - intros fuel st other pkg Hnot Hother st'. unfold st'.
    cbn [PathIds.processPackage]. rewrite Hnot, Hother. cbn [basePath].
    destruct (PathIds.isIgnored cfg (basePath st) pkg) eqn:Hpkg.
    + simpl. split; [by left|]. split; [done|done].
    + match goal with |- context [walkImports ?r ?i ?s] => set (st2 := s) end.
      assert (Hin : ImportPath pkg ∈ dom (pkgs st2) /\ In other (imported st2)).
      { simpl. split; [|by left]. rewrite dom_insert. set_solver. }
      assert (Hend : forall st3, extends st2 st3 ->
                In other (imported st3) /\ ImportPath pkg ∈ dom (pkgs st3)).
      { intros st3 [Hdom _ [l Hl]]. destruct Hin as [Hin1 Hin2]. split.
        - rewrite Hl. apply in_or_app. by right.
        - by apply Hdom. }
      destruct (Goroot pkg).
      * destruct (Hend st2 (extends_refl st2)) as [H1 H2]. split; [done|]. split; done.
      * destruct (Hend _ (processPackage_walk_extends cfg build_Import root fuel
                            (Imports pkg) st2)) as [H1 H2].
        split; [done|]. split; done.
Qed.

(** ** A package found under a name that is not its import path *)

(** When the package found under [name] has another import path and
    lists [name] first among its imports, a call on [name] never
    returns: [pkgs] gets the import path as key, the test before the
    recursive call looks for [name]. *)
Lemma alias_never_returns (cfg : Config) (build_Import : Provider) (root name : string)
    (pkg : Package) (rest : list string) :
  isSet (ignored cfg) name = false ->
  build_Import name root = ImportOk pkg ->
  (forall bp, PathIds.isIgnored cfg bp pkg = false) ->
  Goroot pkg = false ->
  ImportPath pkg <> name ->
  Imports pkg = name :: rest ->
  forall fuel st, pkgs st !! name = None ->
    ~ returned (PathIds.processPackage cfg build_Import fuel root name st).
Proof.
  intros Hnot Hres Hign Hstd Hne Himps.
  induction fuel as [|fuel IH]; intros st Hnone; [by intros []|].
  cbn [PathIds.processPackage]. rewrite Hnot, Hres, Hign, Hstd, Himps.
  cbn [walkImports pkgs].
  rewrite lookup_insert_ne by done. rewrite Hnone.
  match goal with |- context [PathIds.processPackage _ _ fuel _ _ ?s] =>
    specialize (IH s) end.
  destruct (PathIds.processPackage _ _ fuel _ _ _); simpl in *.
  - intros _. apply IH; [by rewrite lookup_insert_ne | done].
  - intros _. apply IH; [by rewrite lookup_insert_ne | done].
  - by intros [].
Qed.

(** C4, where the code departs from it: [pkgs] is keyed by the import
    path of the package found, the test that guards the recursion looks
    up the import string.  When [build.Import] finds under the name [a]
    a package whose import path is [v/a] and which imports [a], or finds
    under the relative name [./lib] the package [x/lib] which imports
    [./lib], the string is never a key and the resolution does not
    return, whatever the depth allowed. *)
Theorem alias_cycle_never_returns :
  (~ exists fuel,
       returned (PathIds.processPackage (configure Examples.unicode Examples.noFlags)
                   Examples.selfAlias fuel Examples.src "a" state0))
  /\ (~ exists fuel,
         returned (PathIds.processPackage (configure Examples.unicode Examples.noFlags)
                     MoreExamples.relativeSelf fuel Examples.src "./lib" state0)).
Proof.
  split; intros [fuel Hret]; revert Hret.
  - apply (alias_never_returns _ _ _ _ (Examples.pkg "v/a" ["a"]) []); try done.
  - apply (alias_never_returns _ _ _ _ (Examples.pkg "x/lib" ["./lib"]) []); try done.
Qed.


(** ** The resolved set is closed under imports *)

Section PathClosure.
Variable cfg : Config.
Variable build_Import : Provider.
Variable root : string.

Lemma handled_mono (st st' : State) (imp : string) :
  extends st st' ->
  handled cfg build_Import root st imp -> handled cfg build_Import root st' imp.
Proof.
  intros [Hdom Hbp _] [Hin|[Hign|(q & Hres & Hq)]].
  - left. by apply Hdom.
  - right. by left.
  - right. right. exists q. split; [done|].
    destruct Hq as [Hin|[Hq|Hq]]; [left; by apply Hdom|right; by left|].
    destruct (basePath st) as [|c bp] eqn:Hcur; [right; by left|].
    right. right. by rewrite Hbp.
Qed.

Lemma closedPkg_mono (st st' : State) (p : Package) :
  extends st st' ->
  closedPkg cfg build_Import root st p -> closedPkg cfg build_Import root st' p.
Proof. intros Hext Hp Hroot imp Hin. eapply handled_mono; [done|]. by apply Hp. Qed.

Lemma walkImports_settled (rec : string -> State -> Outcome) (imps : list string) :
  (forall imp st st', rec imp st = Done st' -> settled cfg build_Import root imp st st') ->
  forall st st', walkImports rec imps st = Done st' ->
    extends st st'
    /\ (forall imp, In imp imps -> handled cfg build_Import root st' imp)
    /\ forall k p, pkgs st' !! k = Some p ->
         pkgs st !! k = Some p \/ closedPkg cfg build_Import root st' p.
Proof.
  intros Hrec. induction imps as [|imp rest IH]; intros st st'; simpl.
  - intros [= <-]. split; [apply extends_refl|]. split; [by intros imp []|]. by left.
  - destruct (pkgs st !! imp) as [q|] eqn:Hlook.
    + intros Hwalk. destruct (IH st st' Hwalk) as (Hext & Hrest & Hnew).
      split; [done|]. split; [|done].
      intros i [<-|Hi]; [|by apply Hrest].
      left. apply Hext. apply elem_of_dom. by eexists.
    + destruct (rec imp st) as [st1|err st1|st1] eqn:Hcall; [|done|done].
      intros Hwalk. destruct (Hrec imp st st1 Hcall) as (Hext1 & Himp & Hnew1).
      destruct (IH st1 st' Hwalk) as (Hext & Hrest & Hnew).
      split; [by eapply extends_trans|]. split.
      * intros i [<-|Hi]; [|by apply Hrest]. by eapply handled_mono.
      * intros k p Hk. destruct (Hnew k p Hk) as [Hold|Hclosed]; [|by right].
        destruct (Hnew1 k p Hold) as [Hold1|Hclosed1]; [by left|].
        right. by eapply closedPkg_mono.
Qed.

Lemma processPackage_settled (fuel : nat) :
  forall pkgName st st',
    PathIds.processPackage cfg build_Import fuel root pkgName st = Done st' ->
    settled cfg build_Import root pkgName st st'.
Proof.
  induction fuel as [|fuel IH]; intros pkgName st st'; [done|].
  intros Hrun.
  pose proof (processPackage_extends cfg build_Import root (S fuel) pkgName st) as Hext.
  rewrite Hrun in Hext. simpl in Hext.
  revert Hrun. cbn [PathIds.processPackage].
  destruct (isSet (ignored cfg) pkgName) eqn:Hset.
  { intros [= <-]. split; [done|]. split; [right; by left|]. by left. }
  destruct (build_Import pkgName root) as [pkg|cause] eqn:Hres; [|done].
  cbn [basePath pkgs imported].
  destruct (PathIds.isIgnored cfg (basePath st) pkg) eqn:Hign.
  { intros [= <-]. split; [done|]. split; [|by left].
    right. right. exists pkg. split; [done|]. right. by right. }
  match goal with |- context [walkImports _ _ ?s] => set (st2 := s) end.
  assert (Hold : forall k p, pkgs st2 !! k = Some p -> pkgs st !! k = Some p \/ p = pkg).
  { intros k p Hk. unfold st2 in Hk. cbn [pkgs] in Hk.
    destruct (decide (ImportPath pkg = k)) as [<-|Hne].
    - rewrite lookup_insert_eq in Hk. injection Hk as <-. by right.
    - rewrite lookup_insert_ne in Hk by done. by left. }
  assert (Hself2 : ImportPath pkg ∈ dom (pkgs st2)).
  { unfold st2. cbn [pkgs]. rewrite dom_insert. apply elem_of_union. left.
    by apply elem_of_singleton. }
  destruct (Goroot pkg) eqn:Hstd.
  - intros [= <-]. split; [done|]. split.
    + right. right. exists pkg. split; [done|]. by left.
    + intros k p Hk. destruct (Hold k p Hk) as [Hk'| ->]; [by left|].
      right. intros Hno. congruence.
  - intros Hwalk.
    destruct (walkImports_settled _ (Imports pkg) (IH) st2 st' Hwalk)
      as (Hext2 & Himps & Hnew).
    split; [done|]. split.
    + right. right. exists pkg. split; [done|]. left. by apply Hext2.
    + intros k p Hk. destruct (Hnew k p Hk) as [Hk2|Hclosed]; [|by right].
      destruct (Hold k p Hk2) as [Hk'| ->]; [by left|].
      right. intros _. exact Himps.
Qed.

(** X10: when the resolution from the empty state returns without
    error, [pkgs] is closed under imports up to the ignore rules: every
    import string of every package in [pkgs] that is not a standard
    package is itself a key of [pkgs], or is in the exact ignore set, or
    names a package that is in [pkgs] under its import path or that
    [isIgnored] rejects, with no base path or with the final one. *)
Theorem resolved_set_closed (fuel : nat) (pkgName : string) (st : State)
    (k imp : string) (p : Package) :
  PathIds.processPackage cfg build_Import fuel root pkgName state0 = Done st ->
  pkgs st !! k = Some p -> Goroot p = false -> In imp (Imports p) ->
  imp ∈ dom (pkgs st)
  \/ isSet (ignored cfg) imp = true
  \/ exists q, build_Import imp root = ImportOk q
       /\ (ImportPath q ∈ dom (pkgs st)
           \/ PathIds.isIgnored cfg EmptyString q = true
           \/ PathIds.isIgnored cfg (basePath st) q = true).
Proof.
  intros Hrun Hk Hstd Himp.
  destruct (processPackage_settled fuel pkgName state0 st Hrun) as (_ & _ & Hnew).
  destruct (Hnew k p Hk) as [Hold|Hclosed].
  - simpl in Hold. by rewrite lookup_empty in Hold.
  - by apply Hclosed.
Qed.

End PathClosure.


(** ** Resolving again *)

Lemma walkImports_known (rec : string -> State -> Outcome) (imps : list string)
    (st : State) :
  (forall imp, In imp imps -> is_Some (pkgs st !! imp)) ->
  walkImports rec imps st = Done st.
Proof.
  induction imps as [|imp rest IH]; intros Hall; simpl; [done|].
  destruct (Hall imp (or_introl eq_refl)) as [q ->].
  apply IH. intros i Hi. apply Hall. by right.
Qed.

(** X11: resolving a package again changes nothing but the list of
    calls to [build.Import]: when the package found under the name is
    already in [pkgs] under its import path, the base path is set, and
    the package is a standard one or all its imports are keys of [pkgs],
    the call returns with [pkgs] and the base path as they were, having
    called [build.Import] once. *)
Theorem revisit_keeps_state (cfg : Config) (build_Import : Provider) (fuel : nat)
    (root pkgName : string) (st : State) (pkg : Package) :
  isSet (ignored cfg) pkgName = false ->
  build_Import pkgName root = ImportOk pkg ->
  PathIds.isIgnored cfg (basePath st) pkg = false ->
  pkgs st !! ImportPath pkg = Some pkg ->
  basePath st <> EmptyString ->
  (Goroot pkg = true \/ forall imp, In imp (Imports pkg) -> is_Some (pkgs st !! imp)) ->
  PathIds.processPackage cfg build_Import (S fuel) root pkgName st =
    Done {| pkgs := pkgs st; basePath := basePath st;
            imported := pkgName :: imported st |}.
Proof.
  intros Hset Hres Hign Hin Hbp Himps.
  cbn [PathIds.processPackage]. rewrite Hset, Hres. cbn [basePath pkgs imported].
  rewrite Hign. apply isEmpty_false in Hbp. rewrite Hbp.
  rewrite (insert_id _ _ _ Hin).
  destruct (Goroot pkg) eqn:Hstd; [done|].
  destruct Himps as [Hno|Himps]; [done|].
  by apply walkImports_known.
Qed.

(** ** The lines of the renderer with path identifiers *)

Section PathLines.
Import PathIds PathView.
Variable cfg : Config.
Variable st : State.

Lemma importLines_no_node (pkgName : string) (imps : list string) :
  List.filter isNode (importLines cfg st pkgName imps) = [].
Proof.
  unfold importLines. induction imps as [|imp rest IH]; [done|]. simpl.
  rewrite List.filter_app, IH, app_nil_r.
  destruct (pkgs st !! imp) as [q|]; [|done].
  by destruct (isIgnored cfg (basePath st) q).
Qed.

Lemma packageLines_nodes (order : list (string * Package)) :
  length (List.filter isNode (flat_map (packageLines cfg st) order)) =
  length (List.filter (fun entry => negb (isIgnored cfg (basePath st) entry.2)) order).
Proof.
  induction order as [|entry rest IH]; [done|]. simpl.
  rewrite List.filter_app, length_app, IH. unfold packageLines.
  destruct (isIgnored cfg (basePath st) entry.2); simpl; [done|].
  by rewrite importLines_no_node.
Qed.

Lemma in_packageLines_node (id label color : string) (entry : string * Package) :
  In (LNode id label color) (packageLines cfg st entry) <->
  isIgnored cfg (basePath st) entry.2 = false
  /\ id = ns (basePath st) entry.1 /\ label = entry.1 /\ color = nodeColor cfg entry.2.
Proof.
  unfold packageLines. destruct (isIgnored cfg (basePath st) entry.2); simpl.
  - split; [done|by intros [? _]].
  - split.
    + intros [[= <- <- <-]|Hin]; [done|].
      apply in_importLines in Hin as (imp & q & _ & _ & _ & Heq). done.
    + intros (_ & -> & -> & ->). by left.
Qed.

(** X12: the loop over [pkgs] prints a node line for exactly the entries
    of [pkgs] that are not ignored, with the name as label, the
    namespaced name as identifier and the colour of [nodeColor]; there
    are as many node lines as such entries. *)
Theorem node_printed_iff (order : list (string * Package)) (id label color : string) :
  order ≡ₚ map_to_list (pkgs st) ->
  let printed := (mainLoop cfg st order []).1 in
  (In (LNode id label color) printed <->
   exists p, pkgs st !! label = Some p
     /\ isIgnored cfg (basePath st) p = false
     /\ id = basePath st +:+ ":" +:+ label /\ color = nodeColor cfg p)
  /\ length (List.filter isNode printed) =
     length (List.filter (fun entry => negb (isIgnored cfg (basePath st) entry.2))
               (map_to_list (pkgs st))).
Proof.
  intros Hperm printed. unfold printed, mainLoop. rewrite mainLoop_lines. simpl. split.
  - rewrite in_flat_map. split.
    + intros ([k p] & Hin & Hl). apply in_packageLines_node in Hl as (Hp & -> & -> & ->).
      exists p. repeat split; try done.
      apply elem_of_map_to_list. rewrite <- Hperm. by apply list_elem_of_In.
    + intros (p & Hk & Hp & -> & ->). exists (label, p). split.
      * apply list_elem_of_In. rewrite Hperm. by apply elem_of_map_to_list.
      * by apply in_packageLines_node.
  - rewrite packageLines_nodes, !filter_bool_filter.
    apply Permutation_length. by rewrite Hperm.
Qed.

Lemma in_render (s : Schedule string) (l : Line string) :
  In l (render cfg st s) ->
  l = LDigraph \/ l = LSubgraphHead (basePath st) \/ l = LClose
  \/ In l (flat_map (packageLines cfg st) (rangePkgs s (pkgs st)))
  \/ In l (flat_map (networkLines st)
             (rangeNet s (networkOf (isNetwork cfg st) id (rangePkgs s (pkgs st)) ∅))).
Proof.
  rewrite render_lines.
  repeat (rewrite in_app_iff). intros [H|[H|[H|[H|[H|H]]]]].
  - destruct H as [<-|[]]. by left.
  - destruct (_ && _); [|done]. destruct H as [<-|[]]. right. by left.
  - by do 3 right; left.
  - destruct (_ && _); [|done]. destruct H as [<-|[]]. right. right. by left.
  - by do 4 right.
  - destruct H as [<-|[]]. right. right. by left.
Qed.

Lemma packageLines_in_render (s : Schedule string) (l : Line string) :
  In l (flat_map (packageLines cfg st) (rangePkgs s (pkgs st))) -> In l (render cfg st s).
Proof.
  intros H. rewrite render_lines. repeat (rewrite in_app_iff). right. right. by left.
Qed.

Lemma networkLines_in_render (s : Schedule string) (l : Line string) :
  In l (flat_map (networkLines st)
          (rangeNet s (networkOf (isNetwork cfg st) id (rangePkgs s (pkgs st)) ∅))) ->
  In l (render cfg st s).
Proof.
  intros H. rewrite render_lines. repeat (rewrite in_app_iff). do 4 right. by left.
Qed.

Lemma node_of_entry (s : Schedule string) (k : string) (p : Package) :
  In (k, p) (rangePkgs s (pkgs st)) -> isIgnored cfg (basePath st) p = false ->
  In (LNode (ns (basePath st) k) k (nodeColor cfg p)) (render cfg st s).
Proof.
  intros Hin Hp. apply packageLines_in_render, in_flat_map. exists (k, p).
  split; [done|]. by apply in_packageLines_node.
Qed.

(** X13: no edge of the output dangles: both ends of every edge line
    that [render] writes, in the loop over [pkgs] or for a network
    subgraph, are identifiers of node lines of the same output. *)
Theorem edge_ends_are_nodes (s : Schedule string) (src dst : string) :
  validSchedule s ->
  In (LEdge src dst) (render cfg st s) ->
  (exists label color, In (LNode src label color) (render cfg st s))
  /\ (exists label color, In (LNode dst label color) (render cfg st s)).
Proof.
  intros [Hpkgs Hnet] Hedge.
  apply in_render in Hedge as [H|[H|[H|[H|H]]]]; try done.
  - apply in_flat_map in H as ([k p] & Hin & Hl).
    apply in_packageLines_edge in Hl as [Hp Hl]. simpl in *.
    apply in_importLines in Hl as (imp & q & _ & Hq & Hqi & [= -> ->]).
    split.
    + exists k, (nodeColor cfg p). by apply node_of_entry.
    + exists imp, (nodeColor cfg q). apply node_of_entry; [|done].
      apply list_elem_of_In. rewrite Hpkgs. by apply elem_of_map_to_list.
  - apply in_flat_map in H as ([k v] & Hin & Hl).
    simpl in Hl. destruct Hl as [Hl|[Hl|[Hl|[Hl|[]]]]]; try done.
    injection Hl as <- <-. split.
    + apply list_elem_of_In in Hin. rewrite Hnet in Hin.
      apply elem_of_map_to_list in Hin. rewrite networkOf_lookup, lookup_empty in Hin.
      destruct (existsb _ _) eqn:Hex; [|done]. injection Hin as <-.
      apply existsb_exists in Hex as ([k' p] & Hin & Hk).
      apply andb_true_iff in Hk as [Hk Hisnet]. apply bool_decide_eq_true in Hk.
      simpl in Hk. subst k'. exists k, (nodeColor cfg p). apply node_of_entry; [done|].
      unfold isNetwork in Hisnet. simpl in Hisnet.
      destruct (isIgnored cfg (basePath st) p); [done|done].
    + eexists _, _. apply networkLines_in_render, in_flat_map.
      exists (k, v). split; [done|]. simpl. right. by left.
Qed.

End PathLines.


(** ** The edges of the output *)

Section PathEdgeLines.
Import PathIds PathView.
Variable cfg : Config.
Variable st : State.

(** [networkPackages] after the loop over [pkgs], as the second loop
    sees it. *)
Lemma in_networkPackages (s : Schedule string) (k v : string) :
  validSchedule s ->
  In (k, v) (rangeNet s (networkOf (isNetwork cfg st) id (rangePkgs s (pkgs st)) ∅)) <->
  v = k /\ exists p, pkgs st !! k = Some p /\ isNetwork cfg st (k, p) = true.
Proof.
  intros [Hpkgs Hnet].
  rewrite <- list_elem_of_In, Hnet, elem_of_map_to_list, networkOf_lookup, lookup_empty.
  rewrite (existsb_Permutation _ _ _ (Hpkgs (pkgs st))).
  destruct (existsb _ _) eqn:Hex.
  - apply existsb_exists in Hex as ([k' p] & Hin & Hk).
    apply andb_true_iff in Hk as [Hk Hisnet]. apply bool_decide_eq_true in Hk.
    simpl in Hk. subst k'.
    apply list_elem_of_In, elem_of_map_to_list in Hin.
    split.
    + intros [= <-]. split; [done|]. by exists p.
    + by intros [-> _].
  - split; [done|]. intros [-> (p & Hp & Hisnet)].
    assert (Hex' : existsb (fun entry : string * Package =>
               bool_decide (entry.1 = k) && isNetwork cfg st entry)
               (map_to_list (pkgs st)) = true).
    { apply existsb_exists. exists (k, p). split.
      - by apply list_elem_of_In, elem_of_map_to_list.
      - simpl. by rewrite bool_decide_eq_true_2. }
    congruence.
Qed.

Lemma in_render_edge (s : Schedule string) (src dst : string) :
  validSchedule s ->
  In (LEdge src dst) (render cfg st s) <->
  (exists k p, pkgs st !! k = Some p
     /\ In (LEdge src dst) (packageLines cfg st (k, p)))
  \/ (exists k p, pkgs st !! k = Some p /\ isNetwork cfg st (k, p) = true
        /\ src = ns (basePath st) k
        /\ dst = ns (basePath st) (Strs.lastOf (Strs.Split k "/"%char))).
Proof.
  intros Hs. pose proof Hs as [Hpkgs Hnet]. split.
  - intros Hedge. apply in_render in Hedge as [H|[H|[H|[H|H]]]]; try done.
    + left. apply in_flat_map in H as ([k p] & Hin & Hl). exists k, p. split; [|done].
      apply elem_of_map_to_list. rewrite <- Hpkgs. by apply list_elem_of_In.
    + right. apply in_flat_map in H as ([k v] & Hin & Hl).
      apply (in_networkPackages s k v Hs) in Hin as [-> (p & Hp & Hisnet)].
      simpl in Hl. destruct Hl as [Hl|[Hl|[Hl|[Hl|[]]]]]; try done.
      injection Hl as <- <-. by exists k, p.
  - intros [(k & p & Hp & Hl)|(k & p & Hp & Hisnet & -> & ->)].
    + apply packageLines_in_render, in_flat_map. exists (k, p). split; [|done].
      apply list_elem_of_In. rewrite Hpkgs. by apply elem_of_map_to_list.
    + apply networkLines_in_render, in_flat_map. exists (k, k). split.
      * apply (in_networkPackages s k k Hs). split; [done|]. by exists p.
      * simpl. do 3 right. by left.
Qed.

(** C1, as the code has it: the output has the edge from [P] to [Q]
    exactly in two cases.  Either the loop over [pkgs] prints it: [P]
    is a key of [pkgs] whose package is not ignored and lists the string
    [Q] among its imports, and [pkgs] has a package under [Q] that is
    not ignored either.  Or the loop over the network subgraphs prints
    it: the network subgraphs are switched on, [P] is a key of [pkgs]
    whose package is not ignored, starts with an always included prefix
    and does not start with the base path, and [Q] is the last segment
    of [P].  With the network subgraphs switched off only the first case
    is left.  An import string with no entry in [pkgs] gives no edge in
    the loop over [pkgs].  Every edge of the output is an edge between
    two such names. *)
Theorem edge_printed_iff (s : Schedule string) (P Q : string) :
  validSchedule s ->
  let bp := basePath st in
  let printed := In (LEdge (ns bp P) (ns bp Q)) (render cfg st s) in
  let imports :=
    exists p q, pkgs st !! P = Some p /\ In Q (Imports p) /\
      isIgnored cfg bp p = false /\
      pkgs st !! Q = Some q /\ isIgnored cfg bp q = false in
  let network :=
    exists p, pkgs st !! P = Some p /\ isIgnored cfg bp p = false /\
      networkSubgraphs cfg = true /\
      hasPrefixes (ImportPath p) (includedPackages cfg) = true /\
      Strs.HasPrefix (ImportPath p) bp = false /\
      Q = Strs.lastOf (Strs.Split P "/"%char) in
  (printed <-> imports \/ network)
  /\ (networkSubgraphs cfg = false -> (printed <-> imports))
  /\ (pkgs st !! Q = None -> printed -> network)
  /\ (forall src dst,
        In (LEdge src dst) (render cfg st s) ->
        exists P' Q', src = ns bp P' /\ dst = ns bp Q').
Proof.
  intros Hs bp printed imports network.
  assert (Hiff : printed <-> imports \/ network).
  { unfold printed. rewrite (in_render_edge s _ _ Hs). split.
    - intros [(k & p & Hk & Hl)|(k & p & Hk & Hisnet & HP & HQ)].
      + left. apply in_packageLines_edge in Hl as [Hp Hl]. simpl in *.
        apply in_importLines in Hl as (imp & q & Himp & Hq & Hqi & Heq).
        injection Heq as HP HQ. apply ns_inj in HP. apply ns_inj in HQ. subst k imp.
        by exists p, q.
      + right. apply ns_inj in HP. apply ns_inj in HQ. subst k.
        unfold isNetwork in Hisnet. simpl in Hisnet.
        apply andb_true_iff in Hisnet as [Hisnet Hpre].
        apply andb_true_iff in Hisnet as [Hisnet Hinc].
        apply andb_true_iff in Hisnet as [Hign Hon].
        apply negb_true_iff in Hign, Hpre. by exists p.
    - intros [(p & q & HP & Himp & Hp & HQ & Hq)|(p & HP & Hp & Hon & Hinc & Hpre & HQ)].
      + left. exists P, p. split; [done|]. apply in_packageLines_edge. split; [done|].
        apply in_importLines. by exists Q, q.
      + right. exists P, p. split; [done|]. split; [|by rewrite HQ].
        unfold isNetwork. simpl. fold bp. by rewrite Hp, Hon, Hinc, Hpre. }
  split; [exact Hiff|]. split; [|split].
  - intros Hoff. rewrite Hiff. split; [|by left].
    intros [H|(p & _ & _ & Hon & _)]; [done|congruence].
  - intros Hnone Hin. apply Hiff in Hin as [(p & q & _ & _ & _ & HQ & _)|H]; [congruence|done].
  - intros src dst Hin.
    apply (in_render_edge s _ _ Hs) in Hin
      as [(k & p & _ & Hl)|(k & p & _ & _ & -> & ->)]; [|by eexists _, _].
    apply in_packageLines_edge in Hl as [_ Hl].
    apply in_importLines in Hl as (imp & q & _ & _ & _ & [= -> ->]). by eexists _, _.
Qed.

End PathEdgeLines.


(** ** The braces of the output *)

Lemma braceDepth_app {Id : Type} (a b : list (Line Id)) (d : nat) :
  braceDepth (a ++ b) d =
    match braceDepth a d with Some d' => braceDepth b d' | None => None end.
Proof.
  revert d. induction a as [|l a IH]; intros d; [done|].
  destruct l; simpl; try apply IH. destruct d; [done|apply IH].
Qed.

Lemma braceDepth_packageLines (cfg : Config) (st : State)
    (order : list (string * Package)) (d : nat) :
  braceDepth (flat_map (PathView.packageLines cfg st) order) d = Some d.
Proof.
  induction order as [|entry rest IH]; [done|]. simpl.
  rewrite braceDepth_app. unfold PathView.packageLines at 1.
  destruct (PathIds.isIgnored cfg (basePath st) entry.2); [done|]. simpl.
  assert (Himp : forall imps,
            braceDepth (PathView.importLines cfg st entry.1 imps) d = Some d).
  { unfold PathView.importLines. induction imps as [|imp imps IHi]; [done|]. simpl.
    rewrite braceDepth_app.
    destruct (pkgs st !! imp) as [q|]; [|done].
    by destruct (PathIds.isIgnored cfg (basePath st) q). }
  by rewrite Himp.
Qed.

Lemma braceDepth_networkLines (st : State) (order : list (string * string)) (d : nat) :
  braceDepth (flat_map (PathView.networkLines st) order) d = Some d.
Proof. induction order as [|entry rest IH]; [done|]. simpl. apply IH. Qed.

(** X14: the output is well bracketed whatever the packages, the flags
    and the order of the loops: it starts with the graph header, ends
    with a closing brace, no brace is closed that was not opened, and
    none stays open. *)
Theorem braces_balanced (cfg : Config) (st : State) (s : Schedule string) :
  braceDepth (PathIds.render cfg st s) 0 = Some 0
  /\ exists middle, PathIds.render cfg st s = LDigraph :: middle ++ [LClose].
Proof.
  rewrite render_lines. split.
  - destruct (subgraph cfg && negb (Strs.isEmpty (basePath st))); simpl;
      rewrite braceDepth_app, braceDepth_packageLines; simpl;
      by rewrite braceDepth_app, braceDepth_networkLines.
  - eexists. simpl. f_equal. by rewrite !app_assoc.
Qed.

(** X15: with an empty base path the flags [-subgraph] and
    [-network-subgraphs] have no effect: the output is the graph header,
    the lines of the loop over [pkgs] and the closing brace. *)
Theorem empty_basePath_no_subgraph (cfg : Config) (st : State) (s : Schedule string) :
  validSchedule s ->
  basePath st = EmptyString ->
  PathIds.render cfg st s =
    [LDigraph] ++ (PathIds.mainLoop cfg st (rangePkgs s (pkgs st)) []).1 ++ [LClose].
Proof.
  intros [_ Hnet] Hbp. rewrite render_lines. unfold PathIds.mainLoop.
  rewrite mainLoop_lines. simpl. rewrite Hbp. simpl. rewrite andb_false_r.
  assert (Hnone : networkOf (PathView.isNetwork cfg st) id (rangePkgs s (pkgs st)) ∅ = ∅).
  { apply map_eq. intros k. rewrite networkOf_lookup.
    assert (Hex : existsb (fun entry : string * Package =>
              bool_decide (entry.1 = k) && PathView.isNetwork cfg st entry)
              (rangePkgs s (pkgs st)) = false).
    { apply not_true_is_false. intros Hex.
      apply existsb_exists in Hex as (entry & _ & He).
      apply andb_true_iff in He as [_ He]. unfold PathView.isNetwork in He.
      rewrite Hbp in He. unfold Strs.HasPrefix in He. rewrite prefix_empty in He.
      simpl in He. by rewrite andb_false_r in He. }
    by rewrite Hex. }
  rewrite Hnone. specialize (Hnet ∅). rewrite map_to_list_empty in Hnet.
  symmetry in Hnet. apply Permutation_nil in Hnet. by rewrite Hnet.
Qed.

(** X16: for a package whose name has no slash the network subgraph is
    named after the whole name, its node has the identifier of the
    package's own node, and the edge goes from that node to itself. *)
Theorem slashless_network_self_loop (st : State) (out : list (Line string))
    (pkgName : string) :
  countByte "/"%char pkgName = 0 ->
  PathIds.renderNetwork st out (pkgName, pkgName) =
    out ++ [ LSubgraphHead pkgName;
             LNode (PathIds.ns (basePath st) pkgName) pkgName "paleturquoise";
             LClose;
             LEdge (PathIds.ns (basePath st) pkgName) (PathIds.ns (basePath st) pkgName) ].
Proof.
  intros Hno. unfold PathIds.renderNetwork.
  destruct (parentPath_cases pkgName) as [(_ & _ & ->)|[Hpos _]]; [|lia].
  unfold PathIds.printEdge, println, PathIds.printNode, printSubgraphHead.
  by rewrite <- !app_assoc.
Qed.

(** ** Namespaced identifiers *)

Lemma countByte_head (c d : ascii) (s : string) :
  countByte c (String d s) = 0 -> d <> c /\ countByte c s = 0.
Proof.
  simpl. destruct (Ascii.eqb_spec d c) as [->|Hne]; [lia|]. intros H. split; [done|lia].
Qed.

(** X17: namespacing keeps identifiers apart across graphs: when neither
    base path contains a colon, two namespaced identifiers are equal
    only if the base paths are equal and the names are equal. *)
Theorem ns_unique (bp1 bp2 name1 name2 : string) :
  countByte ":"%char bp1 = 0 -> countByte ":"%char bp2 = 0 ->
  PathIds.ns bp1 name1 = PathIds.ns bp2 name2 ->
  bp1 = bp2 /\ name1 = name2.
Proof.
  unfold PathIds.ns. revert bp2.
  induction bp1 as [|c1 r1 IH]; intros [|c2 r2] H1 H2 Heq.
  - change (String ":" name1 = String ":" name2) in Heq. by injection Heq as <-.
  - change (String ":" name1 = String c2 (r2 +:+ ":" +:+ name2)) in Heq.
    apply countByte_head in H2 as [Hc _]. injection Heq as Hc' _. congruence.
  - change (String c1 (r1 +:+ ":" +:+ name1) = String ":" name2) in Heq.
    apply countByte_head in H1 as [Hc _]. injection Heq as Hc' _. congruence.
  - change (String c1 (r1 +:+ ":" +:+ name1) = String c2 (r2 +:+ ":" +:+ name2)) in Heq.
    apply countByte_head in H1 as [_ H1]. apply countByte_head in H2 as [_ H2].
    injection Heq as <- Heq. destruct (IH r2 H1 H2 Heq) as [<- <-]. done.
Qed.

(** ** The order of the prefixes *)

(** X18: only the set of prefixes matters to [hasPrefixes], not their
    order or repetition: two lists with the same entries give the same
    answer on every path. *)
Theorem hasPrefixes_same_entries (s : string) (prefixes1 prefixes2 : list string) :
  (forall p, In p prefixes1 <-> In p prefixes2) ->
  hasPrefixes s prefixes1 = hasPrefixes s prefixes2.
Proof.
  intros Hsame. apply eq_true_iff_eq. rewrite !hasPrefixes_true.
  split; intros (p & Hin & Hp); exists p; split; try done; by apply Hsame.
Qed.

(** ** What [main.go] leaves in [pkgs] *)

Section IdsInvariant.
Variable cfg : Config.
Variable build_Import : Provider.
Variable root : string.
Variable bp : string.

Lemma processPackageIds_kept (fuel : nat) :
  forall pkgName st,
    basePath st = bp /\
    (forall k p, pkgs st !! k = Some p ->
       ImportPath p = k /\ Counter.isIgnored cfg bp p = false) ->
    let st' := stateOf (CounterIds.processPackage cfg build_Import fuel root pkgName st) in
    basePath st' = bp /\
    (forall k p, pkgs st' !! k = Some p ->
       ImportPath p = k /\ Counter.isIgnored cfg bp p = false).
Proof.
  induction fuel as [|fuel IH]; intros pkgName st Hst; [done|].
  cbn [CounterIds.processPackage].
  destruct (isSet (ignored cfg) pkgName); [done|].
  destruct (build_Import pkgName root) as [pkg|cause]; [|done].
  cbn [basePath pkgs imported].
  destruct Hst as [Hbp Hall]. rewrite Hbp.
  destruct (Counter.isIgnored cfg bp pkg) eqn:Hign; [done|].
  match goal with |- context [walkImports _ _ ?s] => set (st2 := s) end.
  assert (H2 : basePath st2 = bp /\
               forall k p, pkgs st2 !! k = Some p ->
                 ImportPath p = k /\ Counter.isIgnored cfg bp p = false).
  { split; [done|]. intros k p Hk. unfold st2 in Hk. cbn [pkgs] in Hk.
    destruct (decide (ImportPath pkg = k)) as [<-|Hne].
    - rewrite lookup_insert_eq in Hk. by injection Hk as <-.
    - rewrite lookup_insert_ne in Hk by done. by apply Hall. }
  destruct (Goroot pkg); [exact H2|].
  set (J := fun s : State => basePath s = bp /\
              forall k p, pkgs s !! k = Some p ->
                ImportPath p = k /\ Counter.isIgnored cfg bp p = false).
  assert (Hg : good J (fun _ => J) J
                 (walkImports (CounterIds.processPackage cfg build_Import fuel root)
                    (Imports pkg) st2)).
  { apply walkImports_good; [|exact H2]. intros imp st' Hst' _.
    specialize (IH imp st' Hst').
    by destruct (CounterIds.processPackage cfg build_Import fuel root imp st'). }
  by destruct (walkImports _ _ _).
Qed.

End IdsInvariant.

(** X19: in [main.go] the base path is the value of [-b] throughout, and
    every package the resolution puts in [pkgs] is keyed by its import
    path and is not ignored when the graph is written: each resolved
    package gets its node. *)
Theorem ids_resolved_are_rendered (build_Import : Provider) (flags : CounterIds.Flags)
    (fuel : nat) (root pkgName k : string) (p : Package) :
  let cfg := CounterIds.configure flags in
  let st := stateOf (CounterIds.processPackage cfg build_Import fuel root pkgName
                       (CounterIds.stateOfFlags flags)) in
  basePath st = CounterIds.flag_b flags
  /\ (pkgs st !! k = Some p ->
      ImportPath p = k /\ Counter.isIgnored cfg (basePath st) p = false).
Proof.
  intros cfg st.
  destruct (processPackageIds_kept cfg build_Import root (CounterIds.flag_b flags) fuel
              pkgName (CounterIds.stateOfFlags flags)) as [Hbp Hall].
  { split; [done|]. intros k' p' H. simpl in H. by rewrite lookup_empty in H. }
  split; [exact Hbp|]. intros Hk. fold st in Hbp, Hall. rewrite Hbp. by apply Hall.
Qed.


(** ** The output of the variants with integer identifiers *)

(** X20: the output of the variant with network subgraphs is its output
    over names with each name replaced by its identifier, no two names
    sharing one: the header, the box of the base path if asked for, for
    each entry of [pkgs] that is not ignored its node and the edges to
    its imports that are in [pkgs] and not ignored, and one block for
    each such entry that starts with an always included prefix. *)
Theorem counterNet_output (cfg : Config) (st : State) (s : Schedule Z) :
  validSchedule s ->
  (2 * Z.of_nat (size (pkgs st)) < 2 ^ 63)%Z ->
  exists (ids : gmap string Z) (names : list string),
    (forall k1 k2 v, ids !! k1 = Some v -> ids !! k2 = Some v -> k1 = k2)
    /\ names ≡ₚ (List.filter (CounterView.isNetwork cfg st) (map_to_list (pkgs st))).*1
    /\ Forall (CounterView.covered ids)
         (CounterView.absRenderNet cfg st (rangePkgs s (pkgs st)) names)
    /\ CounterNet.render cfg st s =
         List.map (CounterView.encode ids)
           (CounterView.absRenderNet cfg st (rangePkgs s (pkgs st)) names).
Proof.
  intros Hs Hbound.
  destruct (renderNet_encoded cfg st Hbound s Hs) as (g & names & Hg & Hn & Hcov & Hr).
  exists (Counter.ids g), names. split; [apply Hg|]. by repeat split.
Qed.

(** X21: the output of [main.go] is its output over names with each
    name replaced by its identifier, no two names sharing one: the
    header, the box of the base path if asked for, and for each entry of
    [pkgs] that is not ignored its node and, unless it is a standard
    package, the edges to its imports that are in [pkgs] and not
    ignored. *)
Theorem counterIds_output (cfg : Config) (st : State)
    (range : gmap string Package -> list (string * Package)) :
  range (pkgs st) ≡ₚ map_to_list (pkgs st) ->
  (2 * Z.of_nat (size (pkgs st)) < 2 ^ 63)%Z ->
  exists ids : gmap string Z,
    (forall k1 k2 v, ids !! k1 = Some v -> ids !! k2 = Some v -> k1 = k2)
    /\ Forall (CounterView.covered ids) (CounterView.absRender cfg st (range (pkgs st)))
    /\ CounterIds.render cfg st range =
         List.map (CounterView.encode ids) (CounterView.absRender cfg st (range (pkgs st))).
Proof.
  intros Hr Hbound.
  destruct (renderIds_encoded cfg st Hbound range Hr) as (g & Hg & Hcov & Hout).
  exists (Counter.ids g). split; [apply Hg|]. by split.
Qed.

Section NetBasePath.
Variable cfg : Config.
Variable build_Import : Provider.
Variable root : string.
Hypothesis off : filterByBasePath cfg = false.

Lemma processPackageNet_no_basePath (fuel : nat) :
  forall pkgName st,
    basePath st = EmptyString ->
    basePath (stateOf (CounterNet.processPackage cfg build_Import fuel root pkgName st))
      = EmptyString.
Proof.
  induction fuel as [|fuel IH]; intros pkgName st Hst; [done|].
  cbn [CounterNet.processPackage].
  destruct (isSet (ignored cfg) pkgName); [done|].
  destruct (build_Import pkgName root) as [pkg|cause]; [|done].
  cbn [basePath pkgs imported]. rewrite off. cbn [andb].
  destruct (Counter.isIgnored cfg (basePath st) pkg); [done|].
  destruct (Goroot pkg); [done|].
  match goal with |- context [walkImports ?r ?i ?s] => set (st2 := s) end.
  assert (Hg : good (fun s => basePath s = EmptyString)
                    (fun _ s => basePath s = EmptyString)
                    (fun s => basePath s = EmptyString)
                    (walkImports (CounterNet.processPackage cfg build_Import fuel root)
                       (Imports pkg) st2)).
  { apply walkImports_good; [|done]. intros imp st' Hst' _.
    specialize (IH imp st' Hst').
    by destruct (CounterNet.processPackage cfg build_Import fuel root imp st'). }
  by destruct (walkImports _ _ _).
Qed.

(** X22: in the integer variant with network subgraphs the base path is
    inferred only under [-b]: without it the base path is still empty
    after the resolution, so no package is ignored for its base path
    and the test that [main] makes before drawing the box of
    [-subgraph] fails. *)
Theorem counterNet_no_b_no_basePath (fuel : nat) (pkgName : string) :
  let st := stateOf (CounterNet.processPackage cfg build_Import fuel root pkgName state0) in
  basePath st = EmptyString
  /\ (forall importPath, Counter.isNotOfBasepath importPath (basePath st) = false)
  /\ subgraph cfg && negb (Strs.isEmpty (basePath st)) = false.
Proof.
  intros st.
  assert (Hbp : basePath st = EmptyString) by by apply processPackageNet_no_basePath.
  split; [done|]. rewrite Hbp. split; [done|]. simpl. by rewrite andb_false_r.
Qed.

End NetBasePath.


(** ** The ways [main] ends *)

(** X23: [main] of the program with path identifiers writes the whole
    graph or nothing.  With any number of arguments other than one it
    ends with the usage message, whatever the working directory and the
    packages; whenever it ends through [log.Fatal] nothing has been
    written to standard output; and when it ends normally there was one
    argument, the working directory was found, the resolution returned
    without error and the output is the graph of the resolved state. *)
Theorem main_all_or_nothing (u : Strs.Unicode) (build_Import : Provider)
    (getwd : GetwdResult)
    (flags : Flags) (args : list string) (s : Schedule string) (fuel : nat)
    (proc : Process string) :
  PathIds.main u build_Import getwd flags args s fuel = Some proc ->
  (length args <> 1%nat -> fatal proc = Some "need one package name to process")
  /\ (forall msg, fatal proc = Some msg -> stdout proc = [])
  /\ (fatal proc = None ->
      exists arg cwd st,
        args = [arg] /\ getwd = GetwdOk cwd
        /\ PathIds.processPackage (configure u flags) build_Import fuel cwd arg state0 = Done st
        /\ stdout proc = PathIds.render (configure u flags) st s
        /\ stdout proc <> []).
Proof.
  unfold PathIds.main.
  destruct args as [|arg [|arg' rest]].
  - intros [= <-]. by repeat split.
  - destruct getwd as [cwd|cause].
    + destruct (PathIds.processPackage (configure u flags) build_Import fuel cwd arg state0)
        as [st|err st|st] eqn:Hrun; [| |done].
      * intros [= <-]. split; [done|]. split; [done|]. intros _.
        exists arg, cwd, st. repeat split; try done.
        simpl. rewrite render_lines. done.
      * intros [= <-]. by repeat split.
    + intros [= <-]. by repeat split.
  - intros [= <-]. by repeat split.
Qed.


(** ** The further properties on small inputs *)

Lemma trailing_comma_matches_all_witness :
  flag_p MoreExamples.trailingIgnored = "vendor" +:+ ","
  /\ PathIds.isIgnored (configure Examples.unicode MoreExamples.trailingIgnored) "x"
       (Examples.pkg "x/app" []) = true
  /\ flag_n MoreExamples.trailingIncluded = "net" +:+ ","
  /\ PathIds.isIgnored (configure Examples.unicode MoreExamples.trailingIncluded) "x"
       (Examples.pkg "vendor/lib" []) = false.
Proof.
  split; [reflexivity|]. split.
  - exact (proj1 (proj1 (proj2 (trailing_comma_matches_all Examples.unicode
             MoreExamples.trailingIgnored
             "vendor" "x" (Examples.pkg "x/app" []))) eq_refl eq_refl)).
  - split; [reflexivity|].
    exact (proj1 (proj2 (proj2 (trailing_comma_matches_all Examples.unicode
             MoreExamples.trailingIncluded
             "net" "x" (Examples.pkg "vendor/lib" []))) eq_refl)).
Defined.

Lemma threeNames_NoDup : NoDup MoreExamples.threeNames.
Proof.
  unfold MoreExamples.threeNames.
  repeat (apply NoDup_cons; split; [rewrite ?elem_of_cons, elem_of_nil; intros H;
    repeat (destruct H as [H|H]; [discriminate|]); done|]).
  apply NoDup_nil. done.
Qed.

Lemma getId_consecutive_witness :
  NoDup MoreExamples.threeNames
  /\ (Z.of_nat (length MoreExamples.threeNames) < 2 ^ 63)%Z
  /\ Counter.ids (registerAll MoreExamples.threeNames Counter.registry0) !! "fmt"
     = Some 2%Z.
Proof.
  assert (Hlen : (Z.of_nat (length MoreExamples.threeNames) < 2 ^ 63)%Z) by (simpl; lia).
  split; [exact threeNames_NoDup|]. split; [exact Hlen|].
  exact (proj1 (getId_consecutive MoreExamples.threeNames threeNames_NoDup Hlen)
           2%nat "fmt" eq_refl).
Defined.

Lemma getId_keeps_witness :
  let g := registerAll MoreExamples.threeNames Counter.registry0 in
  Counter.ids g !! "x/lib" = Some 1%Z
  /\ Counter.getId "x/lib" g = (1%Z, g)
  /\ Counter.ids (Counter.getId "net/rpc" g).2 !! "x/lib" = Some 1%Z.
Proof.
  intros g. assert (Hid : Counter.ids g !! "x/lib" = Some 1%Z) by reflexivity.
  destruct (getId_keeps "x/lib" "net/rpc" g 1%Z Hid) as (H1 & H2 & _).
  split; [exact Hid|]. split; [exact H1|exact H2].
Defined.

Lemma resolved_packages_witness :
  let cfg := configure Examples.unicode Examples.noFlags in
  let st := Examples.twoPackagesState in
  pkgs st !! "x/lib" = Some (Examples.pkg "x/lib" [])
  /\ exists name, In name (imported st)
       /\ Examples.twoPackages name Examples.src = ImportOk (Examples.pkg "x/lib" []).
Proof.
  intros cfg st.
  assert (Hk : pkgs st !! "x/lib" = Some (Examples.pkg "x/lib" [])) by reflexivity.
  split; [exact Hk|].
  exact (proj1 (proj2 (resolved_packages cfg Examples.twoPackages Examples.src 3 "x/app"
                         "x/lib" (Examples.pkg "x/lib" []) Hk))).
Defined.

Lemma resolved_ignored_only_by_basePath_witness :
  let cfg := configure Examples.unicode MoreExamples.basePathOnly in
  let st := stateOf (PathIds.processPackage cfg Examples.twoPackages 3 Examples.src
                       "x/app" state0) in
  pkgs st !! "x/lib" = Some (Examples.pkg "x/lib" [])
  /\ PathIds.isIgnored cfg "y" (Examples.pkg "x/lib" []) = true.
Proof.
  intros cfg st.
  assert (Hk : pkgs st !! "x/lib" = Some (Examples.pkg "x/lib" [])) by reflexivity.
  split; [exact Hk|].
  apply (resolved_ignored_only_by_basePath cfg Examples.twoPackages Examples.src 3 "x/app"
           "x/lib" "y" (Examples.pkg "x/lib" []) Hk).
  repeat split.
Defined.

Lemma resolved_set_closed_witness :
  let cfg := configure Examples.unicode Examples.noFlags in
  let st := Examples.twoPackagesState in
  PathIds.processPackage cfg Examples.twoPackages 3 Examples.src "x/app" state0 = Done st
  /\ pkgs st !! "x/app" = Some (Examples.pkg "x/app" ["x/lib"])
  /\ ("x/lib" ∈ dom (pkgs st)
      \/ isSet (ignored cfg) "x/lib" = true
      \/ exists q, Examples.twoPackages "x/lib" Examples.src = ImportOk q
           /\ (ImportPath q ∈ dom (pkgs st)
               \/ PathIds.isIgnored cfg EmptyString q = true
               \/ PathIds.isIgnored cfg (basePath st) q = true)).
Proof.
  intros cfg st.
  assert (Hrun : PathIds.processPackage cfg Examples.twoPackages 3 Examples.src "x/app"
                   state0 = Done st) by reflexivity.
  assert (Hk : pkgs st !! "x/app" = Some (Examples.pkg "x/app" ["x/lib"])) by reflexivity.
  split; [exact Hrun|]. split; [exact Hk|].
  apply (resolved_set_closed cfg Examples.twoPackages Examples.src 3 "x/app" st
           "x/app" "x/lib" (Examples.pkg "x/app" ["x/lib"]) Hrun Hk eq_refl).
  by left.
Defined.

Lemma revisit_keeps_state_witness :
  let cfg := configure Examples.unicode Examples.noFlags in
  let st := Examples.twoPackagesState in
  pkgs st !! "x/app" = Some (Examples.pkg "x/app" ["x/lib"])
  /\ PathIds.processPackage cfg Examples.twoPackages 1 Examples.src "x/app" st
     = Done {| pkgs := pkgs st; basePath := basePath st;
               imported := "x/app" :: imported st |}.
Proof.
  intros cfg st.
  assert (Hk : pkgs st !! "x/app" = Some (Examples.pkg "x/app" ["x/lib"])) by reflexivity.
  split; [exact Hk|].
  apply (revisit_keeps_state cfg Examples.twoPackages 0 Examples.src "x/app" st
           (Examples.pkg "x/app" ["x/lib"])).
  - reflexivity.
  - reflexivity.
  - reflexivity.
  - exact Hk.
  - discriminate.
  - right. intros imp [<-|[]]. by eexists.
Defined.

Lemma node_printed_iff_witness :
  let cfg := configure Examples.unicode Examples.noFlags in
  let st := Examples.twoPackagesState in
  map_to_list (pkgs st) ≡ₚ map_to_list (pkgs st)
  /\ In (LNode "x:x/lib" "x/lib" "paleturquoise")
        (PathIds.mainLoop cfg st (map_to_list (pkgs st)) []).1.
Proof.
  intros cfg st. split; [reflexivity|].
  destruct (node_printed_iff cfg st (map_to_list (pkgs st)) "x:x/lib" "x/lib"
              "paleturquoise" (Permutation_refl _)) as [[_ Hback] _].
  apply Hback. exists (Examples.pkg "x/lib" []). by repeat split.
Defined.

Lemma edge_ends_are_nodes_witness :
  let cfg := configure Examples.unicode Examples.networkFlags in
  let st := Examples.withNetworkState in
  validSchedule (@Examples.forward string)
  /\ In (LEdge "x:net/rpc" "x:rpc") (PathIds.render cfg st Examples.forward)
  /\ exists label color,
       In (LNode "x:rpc" label color) (PathIds.render cfg st Examples.forward).
Proof.
  intros cfg st.
  assert (Hedge : In (LEdge "x:net/rpc" "x:rpc") (PathIds.render cfg st Examples.forward)).
  { vm_compute. do 11 right. by left. }
  split; [apply forward_valid|]. split; [exact Hedge|].
  exact (proj2 (edge_ends_are_nodes cfg st Examples.forward "x:net/rpc" "x:rpc"
                  forward_valid Hedge)).
Defined.

Lemma empty_basePath_no_subgraph_witness :
  let cfg := configure Examples.unicode Examples.networkFlags in
  let st := Examples.mixedCaseState in
  basePath st = EmptyString
  /\ PathIds.render cfg st Examples.forward =
       [LDigraph] ++ (PathIds.mainLoop cfg st (map_to_list (pkgs st)) []).1 ++ [LClose].
Proof.
  intros cfg st. assert (Hbp : basePath st = EmptyString) by reflexivity.
  split; [exact Hbp|].
  exact (empty_basePath_no_subgraph cfg st Examples.forward forward_valid Hbp).
Defined.

Lemma slashless_network_self_loop_witness :
  countByte "/"%char "fmt" = 0
  /\ PathIds.renderNetwork Examples.withNetworkState [] ("fmt", "fmt") =
       [ LSubgraphHead "fmt"; LNode "x:fmt" "fmt" "paleturquoise"; LClose;
         LEdge "x:fmt" "x:fmt" ].
Proof.
  split; [reflexivity|].
  exact (slashless_network_self_loop Examples.withNetworkState [] "fmt" eq_refl).
Defined.

Lemma ns_unique_witness :
  PathIds.ns "x" "lib/a" = PathIds.ns "x" "lib/a" /\ "x" = "x" /\ "lib/a" = "lib/a".
Proof.
  split; [reflexivity|].
  exact (ns_unique "x" "x" "lib/a" "lib/a" eq_refl eq_refl eq_refl).
Defined.

Lemma hasPrefixes_same_entries_witness :
  hasPrefixes "vendor/x" ["net"; "vendor"] = hasPrefixes "vendor/x" ["vendor"; "net"; "net"].
Proof.
  apply hasPrefixes_same_entries. intros p. simpl. tauto.
Defined.

Lemma ids_resolved_are_rendered_witness :
  let cfg := CounterIds.configure Examples.noFlagsIds in
  let st := MoreExamples.twoPackagesIdsState in
  pkgs st !! "x/lib" = Some (Examples.pkg "x/lib" [])
  /\ Counter.isIgnored cfg (basePath st) (Examples.pkg "x/lib" []) = false.
Proof.
  intros cfg st.
  assert (Hk : pkgs st !! "x/lib" = Some (Examples.pkg "x/lib" [])) by reflexivity.
  split; [exact Hk|].
  exact (proj2 (proj2 (ids_resolved_are_rendered Examples.twoPackages Examples.noFlagsIds 3
                         Examples.src "x/app" "x/lib" (Examples.pkg "x/lib" [])) Hk)).
Defined.

Lemma twoPackages_bound :
  (2 * Z.of_nat (size (pkgs Examples.twoPackagesState)) < 2 ^ 63)%Z.
Proof. vm_compute. reflexivity. Qed.

Lemma counterNet_output_witness :
  let cfg := configure Examples.unicode Examples.noFlags in
  let st := Examples.twoPackagesState in
  validSchedule (@Examples.forward Z)
  /\ (2 * Z.of_nat (size (pkgs st)) < 2 ^ 63)%Z
  /\ exists (ids : gmap string Z) (names : list string),
       CounterNet.render cfg st Examples.forward =
         List.map (CounterView.encode ids)
           (CounterView.absRenderNet cfg st (map_to_list (pkgs st)) names).
Proof.
  intros cfg st. split; [apply forward_valid|]. split; [exact twoPackages_bound|].
  destruct (counterNet_output cfg st Examples.forward forward_valid twoPackages_bound)
    as (ids & names & _ & _ & _ & Hout).
  by exists ids, names.
Defined.

Lemma counterIds_output_witness :
  let cfg := CounterIds.configure Examples.noFlagsIds in
  let st := Examples.twoPackagesState in
  map_to_list (pkgs st) ≡ₚ map_to_list (pkgs st)
  /\ (2 * Z.of_nat (size (pkgs st)) < 2 ^ 63)%Z
  /\ exists ids : gmap string Z,
       CounterIds.render cfg st map_to_list =
         List.map (CounterView.encode ids)
           (CounterView.absRender cfg st (map_to_list (pkgs st))).
Proof.
  intros cfg st. split; [reflexivity|]. split; [exact twoPackages_bound|].
  destruct (counterIds_output cfg st map_to_list (Permutation_refl _) twoPackages_bound)
    as (ids & _ & _ & Hout).
  by exists ids.
Defined.

Lemma counterNet_no_b_no_basePath_witness :
  filterByBasePath (configure Examples.unicode Examples.noFlags) = false
  /\ basePath (stateOf (CounterNet.processPackage (configure Examples.unicode Examples.noFlags)
                          Examples.twoPackages 3 Examples.src "x/app" state0))
     = EmptyString.
Proof.
  split; [reflexivity|].
  exact (proj1 (counterNet_no_b_no_basePath (configure Examples.unicode Examples.noFlags)
                  Examples.twoPackages Examples.src eq_refl 3 "x/app")).
Defined.

Lemma main_all_or_nothing_witness :
  let proc := {| stdout := PathIds.render (configure Examples.unicode Examples.noFlags)
                             Examples.twoPackagesState Examples.forward;
                 fatal := None |} in
  PathIds.main Examples.unicode Examples.twoPackages (GetwdOk Examples.src) Examples.noFlags
    ["x/app"] Examples.forward 3 = Some proc
  /\ stdout proc <> [].
Proof.
  intros proc.
  assert (Hrun : PathIds.main Examples.unicode Examples.twoPackages (GetwdOk Examples.src) Examples.noFlags
                   ["x/app"] Examples.forward 3 = Some proc) by reflexivity.
  split; [exact Hrun|].
  destruct (main_all_or_nothing Examples.unicode Examples.twoPackages (GetwdOk Examples.src)
              Examples.noFlags ["x/app"] Examples.forward 3 proc Hrun)
    as (_ & _ & Hdone).
  destruct (Hdone eq_refl) as (arg & cwd & st & _ & _ & _ & _ & Hne).
  exact Hne.
Defined.

(** ** Edges, the ignore set and the base path on small import graphs *)

Lemma edge_printed_iff_witness :
  let cfg := configure Examples.unicode Examples.networkFlags in
  let st := Examples.withNetworkState in
  let cfg' := configure Examples.unicode MoreExamples.ignoreLib in
  let st' := stateOf (PathIds.processPackage cfg' Examples.twoPackages 3 Examples.src
                        "x/app" state0) in
  validSchedule (@Examples.forward string)
  /\ In (LEdge "x:x/app" "x:net/rpc") (PathIds.render cfg st Examples.forward)
  /\ In (LEdge "x:net/rpc" "x:rpc") (PathIds.render cfg st Examples.forward)
  /\ pkgs st' !! "x/app" = Some (Examples.pkg "x/app" ["x/lib"])
  /\ pkgs st' !! "x/lib" = None
  /\ ~ In (LEdge "x:x/app" "x:x/lib") (PathIds.render cfg' st' Examples.forward).
Proof.
  intros cfg st cfg' st'. split; [apply forward_valid|]. split; [|split].
  - apply (proj1 (edge_printed_iff cfg st Examples.forward "x/app" "net/rpc" forward_valid)).
    left. exists (Examples.pkg "x/app" ["net/rpc"; "fmt"]), (Examples.pkg "net/rpc" []).
    repeat split; try reflexivity. by left.
  - apply (proj1 (edge_printed_iff cfg st Examples.forward "net/rpc" "rpc" forward_valid)).
    right. exists (Examples.pkg "net/rpc" []). repeat split; reflexivity.
  - split; [reflexivity|]. split; [reflexivity|]. intros Hin.
    destruct (edge_printed_iff cfg' st' Examples.forward "x/app" "x/lib" forward_valid)
      as (_ & _ & Hnone & _).
    destruct (Hnone eq_refl Hin) as (p & _ & _ & Hon & _). discriminate Hon.
Defined.

Lemma network_edge_without_import :
  let cfg := configure Examples.unicode Examples.networkFlags in
  let st := MoreExamples.sameSegmentState in
  ~ (forall P Q : string,
       In (LEdge (PathIds.ns (basePath st) P) (PathIds.ns (basePath st) Q))
          (PathIds.render cfg st Examples.forward) <->
       exists p q, pkgs st !! P = Some p /\ In Q (Imports p) /\
         PathIds.isIgnored cfg (basePath st) p = false /\
         pkgs st !! Q = Some q /\ PathIds.isIgnored cfg (basePath st) q = false).
Proof.
  intros cfg st Hiff. destruct (Hiff "net/rpc" "rpc") as [Hprinted _].
  assert (Hin : In (LEdge (PathIds.ns (basePath st) "net/rpc")
                          (PathIds.ns (basePath st) "rpc"))
                   (PathIds.render cfg st Examples.forward)).
  { vm_compute. do 11 right. by left. }
  destruct (Hprinted Hin) as (p & q & HP & Himp & _).
  vm_compute in HP. injection HP as <-. destruct Himp.
Qed.

Lemma network_pass_witness :
  let cfg := configure Examples.unicode Examples.networkFlags in
  let st := Examples.withNetworkState in
  validSchedule (@Examples.forward string)
  /\ PathIds.render cfg st Examples.forward =
       [ LDigraph; LSubgraphHead "x";
         LNode "x:net/rpc" "net/rpc" "violet";
         LNode "x:fmt" "fmt" "palegreen";
         LNode "x:x/app" "x/app" "paleturquoise";
         LEdge "x:x/app" "x:net/rpc"; LEdge "x:x/app" "x:fmt";
         LClose ]
       ++ [ LSubgraphHead "rpc"; LNode "x:rpc" "rpc" "paleturquoise";
            LClose; LEdge "x:net/rpc" "x:rpc" ]
       ++ [LClose].
Proof.
  intros cfg st. split; [apply forward_valid|].
  destruct (network_pass cfg st Examples.forward forward_valid) as (order & Hperm & Hrender).
  assert (Horder : order = [("net/rpc", Examples.pkg "net/rpc" [])]).
  { apply Permutation_length_1_inv. symmetry. exact Hperm. }
  rewrite Horder in Hrender. exact Hrender.
Defined.

Lemma exact_ignore_short_circuit_witness :
  let cfg := configure Examples.unicode Examples.ignoreLocal in
  isSet (ignored cfg) "./lib" = true
  /\ PathIds.processPackage cfg Examples.twoSpellings 1 Examples.src "./lib" state0
     = Done state0
  /\ isSet (ignored (configure Examples.unicode Examples.noFlags)) "C" = true
  /\ "x/lib" ∈ dom (pkgs (stateOf
        (PathIds.processPackage cfg Examples.twoSpellings 1 Examples.src "x/lib" state0))).
Proof.
  intros cfg.
  assert (Hign : isSet (ignored cfg) "./lib" = true) by reflexivity.
  destruct (exact_ignore_short_circuit Examples.unicode cfg Examples.twoSpellings
              Examples.src "./lib" Hign) as (Hdone & HC & _ & _ & Hother).
  split; [exact Hign|]. split; [exact (Hdone 0%nat state0)|].
  split; [exact (HC Examples.noFlags)|].
  destruct (Hother 0%nat state0 "x/lib" (Examples.pkg "x/lib" []) eq_refl eq_refl)
    as (_ & Hin & _).
  exact (Hin eq_refl).
Defined.

Lemma ignored_path_inserted_or_lost :
  let included := configure Examples.unicode MoreExamples.ignoreLibIncludeX in
  let plain := configure Examples.unicode MoreExamples.ignoreLib in
  (isSet (ignored included) "x/lib" = true
   /\ pkgs (stateOf (PathIds.processPackage included Examples.twoSpellings 2 Examples.src
                       "./lib" state0)) !! "x/lib" = Some (Examples.pkg "x/lib" []))
  /\ (isSet (ignored plain) "x/lib" = true
      /\ isSet (ignored plain) "./lib" = false
      /\ Examples.twoSpellings "./lib" Examples.src = Examples.twoSpellings "x/lib" Examples.src
      /\ PathIds.processPackage plain Examples.twoSpellings 2 Examples.src "./lib" state0
         = Done {| pkgs := ∅; basePath := EmptyString; imported := ["./lib"] |}).
Proof. repeat split. Qed.



Lemma runs_agree_up_to_order_witness :
  let run := PathIds.main Examples.unicode Examples.twoPackages (GetwdOk Examples.src)
               Examples.noFlags ["x/app"] in
  let runNet := CounterNet.main Examples.unicode Examples.twoPackages
                  (GetwdOk Examples.src) Examples.noFlags ["x/app"] in
  let runIds := CounterIds.main Examples.twoPackages (GetwdOk Examples.src)
                  Examples.noFlagsIds ["x/app"] in
  validSchedule (@Examples.forward string) /\ validSchedule (@Examples.backward string)
  /\ (forall p1 p2, run Examples.forward 3 = Some p1 -> run Examples.backward 4 = Some p2 ->
        fatal p1 = fatal p2
        /\ PathView.sameUpToGroupOrder (configure Examples.unicode Examples.noFlags)
             Examples.twoPackagesState (stdout p1) (stdout p2))
  /\ (forall p1 p2, run Examples.forward 3 = Some p1 -> run Examples.forward 4 = Some p2 ->
        outputText PathIds.showId (stdout p1) = outputText PathIds.showId (stdout p2))
  /\ (forall p1 p2, runNet Examples.forward 3 = Some p1 ->
        runNet Examples.backward 4 = Some p2 ->
        fatal p1 = fatal p2 /\ CounterView.sameUpToRenaming (stdout p1) (stdout p2))
  /\ (forall p1 p2, runIds (rangePkgs (@Examples.forward Z)) 3 = Some p1 ->
        runIds (rangePkgs (@Examples.backward Z)) 4 = Some p2 ->
        fatal p1 = fatal p2 /\ CounterView.sameUpToRenaming (stdout p1) (stdout p2)).
Proof.
  intros run runNet runIds.
  destruct (runs_agree_up_to_order Examples.unicode Examples.twoPackages
              (GetwdOk Examples.src) ["x/app"] 3 4) as (Hpath & Hnet & Hids).
  split; [apply forward_valid|]. split; [apply backward_valid|].
  split; [|split; [|split]].
  - intros p1 p2 H1 H2.
    destruct (Hpath Examples.noFlags Examples.forward Examples.backward p1 p2
                forward_valid backward_valid H1 H2) as (Hfatal & Hout & _).
    split; [exact Hfatal|].
    destruct Hout as [(Hfail & _)|(cwd & arg & st & [= <-] & [= <-] & Hrun & Hout)].
    + vm_compute in H1. injection H1 as <-. by destruct Hfail.
    + vm_compute in Hrun. injection Hrun as <-. exact Hout.
  - intros p1 p2 H1 H2.
    destruct (Hpath Examples.noFlags Examples.forward Examples.forward p1 p2
                forward_valid forward_valid H1 H2) as (_ & _ & Hsame).
    exact (Hsame eq_refl).
  - intros p1 p2 H1 H2.
    apply (Hnet Examples.noFlags Examples.forward Examples.backward p1 p2
             forward_valid backward_valid H1 H2).
    intros cwd arg st [= <-] [= <-] Hrun. vm_compute in Hrun.
    injection Hrun as <-. vm_compute. reflexivity.
  - intros p1 p2 H1 H2.
    apply (Hids Examples.noFlagsIds (rangePkgs (@Examples.forward Z))
             (rangePkgs (@Examples.backward Z)) p1 p2
             (proj1 forward_valid) (proj1 backward_valid) H1 H2).
    intros cwd arg st [= <-] [= <-] Hrun. vm_compute in Hrun.
    injection Hrun as <-. vm_compute. reflexivity.
Defined.

Lemma sanitizeCSV_entries_witness :
  Strs.isASCII " Vendor/X ,net" = true
  /\ sanitizeCSV Examples.unicode " Vendor/X ,net" = ["vendor/x"; "net"]
  /\ Forall (fun entry => Strs.isASCII entry = true
               /\ Strs.ToLower Examples.unicode (Strs.TrimSpace Examples.unicode entry)
                  = entry)
            (sanitizeCSV Examples.unicode " Vendor/X ,net").
Proof.
  split; [reflexivity|]. split; [reflexivity|].
  exact (proj2 (proj2 (sanitizeCSV_entries Examples.unicode " Vendor/X ,net")) eq_refl).
Defined.

Lemma configure_ascii_witness :
  let blank := {| Strs.toLowerUnicode := fun _ => EmptyString;
                  Strs.trimSpaceUnicode := fun _ => EmptyString |} in
  Strs.isASCII (flag_p Examples.allRules) = true
  /\ Strs.isASCII (flag_i Examples.allRules) = true
  /\ Strs.isASCII (flag_n Examples.allRules) = true
  /\ configure Examples.unicode Examples.allRules = configure blank Examples.allRules.
Proof.
  intros blank. repeat (split; [reflexivity|]).
  exact (proj1 (configure_ascii Examples.unicode blank Examples.allRules
                  eq_refl eq_refl eq_refl)).
Defined.
